(** * go-pocket: the command line client, its cull pipeline and the API gateway

    A shallow embedding of [cmd/pocket/main.go] (the newer variant, with
    [CleanURL], [--sort] and [--delete]) and of [api/api.go], [api/modify.go].

    Go strings are byte strings: they are modelled by [string] (a list of
    8-bit [ascii]).  Go [int] values that the program only prints, compares
    or copies are modelled by [Z].  Calls that leave the process (HTTP,
    standard input, the file system, the browser) are answered by an
    environment record and logged in a trace of events. *)

From Stdlib Require Import ZArith String Ascii List Bool Lia.
From Stdlib Require Import DecimalString.
From Stdlib Require Import Sorted Permutation.
From stdpp Require Import gmap strings.
Import ListNotations.

Local Open Scope string_scope.
Local Open Scope Z_scope.

(** ** The [strings] and [regexp] calls of [CleanURL] *)

(** [strings.HasPrefix]. *)
Fixpoint HasPrefix (s p : string) : bool :=
  match p, s with
  | EmptyString, _ => true
  | String _ _, EmptyString => false
  | String b p', String a s' => Ascii.eqb a b && HasPrefix s' p'
  end.

(** [strings.Contains]: [sub] starts at some position of [s]. *)
Fixpoint Contains (s sub : string) : bool :=
  HasPrefix s sub ||
  match s with
  | EmptyString => false
  | String _ s' => Contains s' sub
  end.

(** [strings.HasSuffix]: some tail of [s] is [suf] itself. *)
Fixpoint HasSuffix (s suf : string) : bool :=
  String.eqb s suf ||
  match s with
  | EmptyString => false
  | String _ s' => HasSuffix s' suf
  end.

(** [strings.TrimSuffix]: the one tail of [s] that equals [suf] is cut. *)
Fixpoint TrimSuffix (s suf : string) : string :=
  if String.eqb s suf then EmptyString
  else match s with
       | EmptyString => EmptyString
       | String a s' => String a (TrimSuffix s' suf)
       end.

(** [strings.TrimRight s cutset] for a cutset of one ASCII byte [c]: all
    trailing [c] are removed. *)
Fixpoint TrimRight (s : string) (c : ascii) : string :=
  match s with
  | EmptyString => EmptyString
  | String a s' =>
      match TrimRight s' c with
      | EmptyString => if Ascii.eqb a c then EmptyString else String a EmptyString
      | r => String a r
      end
  end.

(** [strings.ReplaceAll s old new] for a non-empty [old]: the occurrences
    of [old] are found left to right and do not overlap.  [skip] counts the
    bytes of an occurrence that are still to be passed over. *)
Fixpoint replaceFrom (old new : string) (skip : nat) (s : string) : string :=
  match s with
  | EmptyString => EmptyString
  | String a s' =>
      match skip with
      | S k => replaceFrom old new k s'
      | O =>
          if HasPrefix s old
          then new ++ replaceFrom old new (Nat.pred (String.length old)) s'
          else String a (replaceFrom old new O s')
      end
  end.

Definition ReplaceAll (s old new : string) : string := replaceFrom old new O s.

(** [regexp.MustCompile("&+").ReplaceAllString(s, "&")]: every maximal run
    of ampersands becomes one ampersand. *)
Fixpoint ampsReplaceAll (s : string) : string :=
  match s with
  | EmptyString => EmptyString
  | String a s' =>
      if Ascii.eqb a "&"
      then match s' with
           | String b _ =>
               if Ascii.eqb b "&" then ampsReplaceAll s'
               else String a (ampsReplaceAll s')
           | EmptyString => String a EmptyString
           end
      else String a (ampsReplaceAll s')
  end.

(** [CleanURL], statement by statement. *)
Definition CleanURL (url : string) : string :=
  let url := ReplaceAll url "http://" "https://" in
  let url := TrimSuffix url "&a" in
  let url := ReplaceAll url "feature=g-u" "" in
  let url := ReplaceAll url "feature=youtu.be" "" in
  let url := ReplaceAll url "feature=youtube_gdata" "" in
  let url := ampsReplaceAll url in
  let url := TrimRight url "&" in
  let url := TrimRight url "/" in
  url.


(** ** Values shared by the packages *)

(** A Go [error] value, by the text [err.Error()] returns; [None] is the
    [nil] error. *)
Definition error := string.

(** A Go pointer [*T]: [None] is [nil]. *)
Definition ptr (T : Type) := option T.

(** [%d] of an [int]. *)
Definition itoa (z : Z) : string := NilZero.string_of_int (Z.to_int z).

(** The bytes that need care in a Rocq string literal. *)
Definition dquote : ascii := "034"%char.
Definition backslash : ascii := "\"%char.
Definition newline : string := String "010"%char EmptyString.

(** *** [strconv.Quote], which renders the verb [%q] *)

Definition hexDigit (n : N) : ascii :=
  match n with
  | 0 => "0" | 1 => "1" | 2 => "2" | 3 => "3" | 4 => "4" | 5 => "5"
  | 6 => "6" | 7 => "7" | 8 => "8" | 9 => "9" | 10 => "a" | 11 => "b"
  | 12 => "c" | 13 => "d" | 14 => "e" | _ => "f"
  end%N%char.

(** [appendEscapedRune] for a rune below [utf8.RuneSelf]: the quote and the
    backslash get a backslash, printable ASCII stands for itself, the
    control bytes have a letter or a [\x] escape. *)
Definition quoteASCII (c : ascii) : string :=
  let n := N_of_ascii c in
  if Ascii.eqb c dquote || Ascii.eqb c backslash
  then String backslash (String c EmptyString)
  else if (32 <=? n)%N && (n <? 127)%N then String c EmptyString
  else match n with
       | 7 => "\a" | 8 => "\b" | 12 => "\f" | 10 => "\n"
       | 13 => "\r" | 9 => "\t" | 11 => "\v"
       | _ => String backslash
                (String "x" (String (hexDigit (n / 16))
                   (String (hexDigit (n mod 16)) EmptyString)))
       end%N.

(** The rendering of a rune that starts with a byte of [utf8.RuneSelf] or
    above depends on the UTF-8 decoder and on the Unicode tables of
    [strconv.IsPrint]; it is a parameter: for the lead byte and the bytes
    after it, the text appended and the number of further bytes the rune
    takes. *)
Definition HighRune := ascii -> string -> string * nat.

Fixpoint quoteFrom (high : HighRune) (skip : nat) (s : string) : string :=
  match s with
  | EmptyString => EmptyString
  | String c s' =>
      match skip with
      | S k => quoteFrom high k s'
      | O =>
          if (N_of_ascii c <? 128)%N
          then quoteASCII c ++ quoteFrom high O s'
          else let '(r, w) := high c s' in r ++ quoteFrom high w s'
      end
  end.

Definition Quote (high : HighRune) (s : string) : string :=
  String dquote (quoteFrom high O s ++ String dquote EmptyString).

(** ** Package [api]: [api.go] *)

Record authInfo := {
  ConsumerKey : string;
  AccessToken : string
}.

(** [Client] embeds [authInfo]. *)
Record Client := { Client_authInfo : authInfo }.

Definition NewClient (consumerKey accessToken : string) : Client :=
  {| Client_authInfo :=
       {| ConsumerKey := consumerKey; AccessToken := accessToken |} |}.

Definition Origin : string := "https://getpocket.com".

(** [http.Header]: a map from canonical keys to the values received. *)
Definition Header := gmap string (list string).

(** [Header.Get]: the first value of the key, or the empty string.  The keys
    this program asks for are written in canonical form, which
    [CanonicalMIMEHeaderKey] leaves as they are. *)
Definition Header_Get (h : Header) (key : string) : string :=
  match h !! key with
  | Some (v :: _) => v
  | _ => EmptyString
  end.

(** A response body, by what reading it to the end yields. *)
Record Body := {
  body_bytes : string;
  body_err : option error
}.

(** [http.Response], the fields the program reads. [RequestURL] is
    [resp.Request.URL.String()], the URL of the last request of a redirect
    chain. *)
Record Response := {
  StatusCode : Z;
  Status : string;
  RespHeader : Header;
  RespBody : Body;
  RequestURL : string
}.

Record Request := {
  Method : string;
  URL : string;
  ReqHeader : list (string * string);
  ReqBody : string
}.

Definition Header_Add (req : Request) (k v : string) : Request :=
  {| Method := Method req; URL := URL req;
     ReqHeader := ReqHeader req ++ [(k, v)]; ReqBody := ReqBody req |}.

(** What [Client.Do], [http.Head] and [http.Get] return: a response and a
    [nil] error, or an error together with a response that is [nil] unless
    the redirect policy failed (the contract of [net/http]). *)
Inductive HTTPResult :=
| HTTPOk (resp : Response)
| HTTPErr (resp : ptr Response) (err : error).

(** ** Package [api]: the types of [modify.go] *)

(** The struct [Action]; its field [Action] is [Action_Action] here. *)
Record Action := {
  Action_Action : string;
  Action_ItemID : Z
}.

Definition NewArchiveAction (itemID : Z) : ptr Action :=
  Some {| Action_Action := "archive"; Action_ItemID := itemID |}.

Definition NewDeleteAction (itemID : Z) : ptr Action :=
  Some {| Action_Action := "delete"; Action_ItemID := itemID |}.

(** [ActionErrors] is a [[]interface{}]; each element is kept as its JSON
    text. *)
Record ModifyResult := {
  ActionResults : list bool;
  ActionErrors : list string;
  ModifyResult_Status : Z
}.

Definition emptyModifyResult : ModifyResult :=
  {| ActionResults := []; ActionErrors := []; ModifyResult_Status := 0 |}.

Record modifyAPIOptionsWithAuth := {
  Actions : list (ptr Action);
  modify_authInfo : authInfo
}.

(** ** The types [main.go] takes from the packages [api] and [auth] *)

(** Modelled from the spec: the struct [api.Item] and its method [URL] are
    declared in a file that is not among the sources; an Item is
    [{itemID, url, title, timeAdded, sortOrder}].  [Item_URL] is what
    [item.URL()] returns, [Item_TimeAdded] a Unix time. *)
Record Item := {
  Item_ItemID : Z;
  Item_URL : string;
  Item_Title : string;
  Item_TimeAdded : Z;
  SortId : Z
}.

(** Modelled from the spec: [api.RetrieveOption], as [commandList] fills
    it. *)
Record RetrieveOption := {
  Domain : string;
  Search : string;
  Tag : string;
  Sort : string
}.

(** Modelled from the spec: [api.RetrieveResult]. [List] is a Go map; what
    is kept of it is the sequence of its values in the order in which the
    [range] statement of [commandList] meets them. *)
Record RetrieveResult := { List : list Item }.

(** Modelled from the spec: [auth.Authorization], the credential that the
    handshake yields; [main] reads its access token. *)
Record Authorization := { Authorization_AccessToken : string }.

(** ** The process and its environment *)

(** What the process does that can be seen from outside, in the order it
    happens.  [EvConfirm] and [EvModify] mark the entry of [confirm] and of
    [Client.Modify]; [EvServe] is a request answered by the local listener;
    the others are the calls that leave the process. *)
Inductive Event :=
| EvStdout (s : string)
| EvStderr (s : string)
| EvLog (s : string)
| EvConfirm (prompt : string)
| EvModify (actions : list (ptr Action))
| EvDo (req : Request)
| EvHead (url : string)
| EvGet (url : string)
| EvExec (name : string) (args : list string)
| EvRetrieve (options : RetrieveOption)
| EvOpen (path : string)
| EvCreate (path : string)
| EvWrite (path : string) (data : string)
| EvListen (url : string)
| EvRequestToken (consumerKey redirectURL : string)
| EvServe (path : string) (status : Z)
| EvExchange (consumerKey requestToken : string)
| EvClose.

(** The state of a run: the events so far, the lines still waiting on
    standard input (after the last one the read fails with [io.EOF]), and
    the paths of the requests that will reach the local listener of the
    authorization flow before it is closed, in the order they arrive. *)
Record World := {
  events : list Event;
  stdin : list string;
  requests : list string
}.

Definition logged (w : World) (evs : list Event) : World :=
  {| events := events w ++ evs; stdin := stdin w; requests := requests w |}.

Definition withStdin (w : World) (lines : list string) : World :=
  {| events := events w; stdin := lines; requests := requests w |}.

Definition withRequests (w : World) (paths : list string) : World :=
  {| events := events w; stdin := stdin w; requests := paths |}.

(** How a run of a function ends. *)
Inductive Outcome (A : Type) :=
| Returns (a : A)
| Panics (msg : string)
| Exits (code : Z)
| Blocks.
Arguments Returns {A} a.
Arguments Panics {A} msg.
Arguments Exits {A} code.
Arguments Blocks {A}.

Definition M (A : Type) := World -> Outcome A * World.

Definition ret {A} (a : A) : M A := fun w => (Returns a, w).

Definition bind {A B} (m : M A) (k : A -> M B) : M B :=
  fun w =>
    match m w with
    | (Returns a, w') => k a w'
    | (Panics msg, w') => (Panics msg, w')
    | (Exits c, w') => (Exits c, w')
    | (Blocks, w') => (Blocks, w')
    end.

Declare Scope go_scope.
Delimit Scope go_scope with go.
Notation "x <- m ;; k" := (bind m (fun x => k))
  (at level 100, m at next level, right associativity) : go_scope.
Notation "m ;;; k" := (bind m (fun _ => k))
  (at level 100, right associativity) : go_scope.
Local Open Scope go_scope.

Definition emit (e : Event) : M unit :=
  fun w => (Returns tt, logged w [e]).

(** A call that leaves the process: it is logged, and the environment
    answers from what happened before it. *)
Definition call {A} (e : Event) (answer : list Event -> A) : M A :=
  fun w => (Returns (answer (events w)), logged w [e]).

Definition panic {A} (msg : string) : M A := fun w => (Panics msg, w).

Definition os_Exit {A} (code : Z) : M A := fun w => (Exits code, w).

(** The runtime panics of a nil dereference and of an index out of range. *)
Definition nilDereference : string :=
  "runtime error: invalid memory address or nil pointer dereference".

Definition indexOutOfRange (i len : nat) : string :=
  "runtime error: index out of range [" ++ itoa (Z.of_nat i) ++
  "] with length " ++ itoa (Z.of_nat len).

(** What a template does when it is executed on a value: the text it
    writes and the error it ends with, if any. *)
Definition Template (T : Type) := T -> string * option error.

(** The world outside the process.  Each answer may depend on all that
    happened before it.  Also here: the library functions whose result
    depends on Unicode tables or on a codec ([strconv], [strings],
    [encoding/json], [text/template], [time]), and the package [auth] and
    the method [Client.Retrieve], which are not among the sources. *)
Record Env := {
  highRune : HighRune;
  strings_TrimSpace : string -> string;
  strings_ToLower : string -> string;
  time_Format : Z -> string;
  template_Parse : string -> Template Item + error;
  marshalModify : modifyAPIOptionsWithAuth -> string * option error;
  decodeModify : Body -> ModifyResult -> ModifyResult * option error;
  sharpV : ModifyResult -> string;
  encodeAuth : Authorization -> string * option error;
  decodeAuth : string -> Authorization -> Authorization * option error;
  configDir : string;
  client_Do : list Event -> Request -> HTTPResult;
  client_Retrieve : list Event -> RetrieveOption -> RetrieveResult + error;
  http_Head : list Event -> string -> HTTPResult;
  http_Get : list Event -> string -> HTTPResult;
  exec_Output : list Event -> string -> list string -> option (error * option string);
  os_Open : list Event -> string -> string + error;
  os_Create : list Event -> string -> option error;
  file_Write : list Event -> string -> string -> option error;
  httptest_URL : list Event -> string;
  auth_ObtainRequestToken : list Event -> string -> string -> string + error;
  auth_GenerateAuthorizationURL : string -> string -> string;
  auth_ObtainAccessToken : list Event -> string -> string -> Authorization + error
}.

(** ** [api.go]: [doJSON] and [PostJSON] *)

Definition DefaultClient_Do (env : Env) (req : Request) : M HTTPResult :=
  call (EvDo req) (fun past => client_Do env past req).

(** The text of the error of a status other than 200. *)
Definition statusError (high : HighRune) (resp : Response) : error :=
  let q k := Quote high (Header_Get (RespHeader resp) k) in
  "got response " ++ itoa (StatusCode resp) ++
  "; X-Error=" ++ q "X-Error" ++
  "; X-Error-Code=" ++ q "X-Error-Code" ++
  "; X-Limit-User-Limit=" ++ q "X-Limit-User-Limit" ++
  "; X-Limit-User-Remaining=" ++ q "X-Limit-User-Remaining" ++
  "; X-Limit-User-Reset=" ++ q "X-Limit-User-Reset" ++
  "; X-Limit-Key-Limit=" ++ q "X-Limit-Key-Limit" ++
  "; X-Limit-Key-Remaining=" ++ q "X-Limit-Key-Remaining" ++
  "; X-Limit-Key-Reset=" ++ q "X-Limit-Key-Reset".

(** [doJSON req res]: [res] is decoded in place; the function gives back
    the value [res] points to afterwards, and the error. *)
Definition doJSON {T : Type} (env : Env)
    (decode : Body -> T -> T * option error)
    (req : Request) (res : T) : M (T * option error) :=
  let req := Header_Add req "X-Accept" "application/json" in
  let req := Header_Add req "Content-Type" "application/json" in
  r <- DefaultClient_Do env req ;;
  match r with
  | HTTPErr _ err => ret (res, Some err)
  | HTTPOk resp =>
      if negb (StatusCode resp =? 200)
      then ret (res, Some (statusError (highRune env) resp))
      else ret (decode (RespBody resp) res)
  end.

(** [PostJSON action data res]. [http.NewRequest] cannot fail on the method
    [POST] and a URL made of [Origin] and a constant path. *)
Definition PostJSON {D T : Type} (env : Env)
    (marshal : D -> string * option error)
    (decode : Body -> T -> T * option error)
    (action : string) (data : D) (res : T) : M (T * option error) :=
  match marshal data with
  | (_, Some err) => ret (res, Some err)
  | (body, None) =>
      let req := {| Method := "POST"; URL := Origin ++ action;
                    ReqHeader := []; ReqBody := body |} in
      doJSON env decode req res
  end.

(** ** [modify.go]: [Client.Modify] *)

(** The loop over [res.ActionResults], from position [i] on. *)
Fixpoint logFailed (high : HighRune) (actions : list (ptr Action))
    (i : nat) (results : list bool) : M unit :=
  match results with
  | [] => ret tt
  | r :: rest =>
      (if negb r
       then match nth_error actions i with
            | None => panic (indexOutOfRange i (List.length actions))
            | Some None => panic nilDereference
            | Some (Some a) =>
                emit (EvLog ("Action " ++ Quote high (Action_Action a) ++
                             " on item " ++ itoa (Action_ItemID a) ++
                             " failed"))
            end
       else ret tt) ;;;
      logFailed high actions (S i) rest
  end.

Definition Modify (env : Env) (c : Client) (actions : list (ptr Action))
  : M (ptr ModifyResult * option error) :=
  emit (EvModify actions) ;;;
  let res := emptyModifyResult in
  let data := {| Actions := actions; modify_authInfo := Client_authInfo c |} in
  posted <- PostJSON env (marshalModify env) (decodeModify env)
              "/v3/send" data res ;;
  match posted with
  | (_, Some err) => ret (None, Some err)
  | (res, None) =>
      logFailed (highRune env) actions O (ActionResults res) ;;;
      ret (Some res, None)
  end.

(** ** [main.go] *)

Record Config := {
  Config_List : bool;
  Config_Archive : bool;
  Config_Add : bool;
  Config_Delete : bool;
  FormatTemplate : string;
  Config_Domain : string;
  SearchQuery : string;
  Config_Tag : string;
  Config_Sort : string;
  Cull : bool;
  DeleteAll : bool;
  Config_ItemID : Z;
  Config_URL : string;
  Config_Title : string;
  Config_Tags : string
}.

(** [printf "%9d"]: the decimal text, padded with spaces on the left to nine
    bytes. *)
Fixpoint spaces (n : nat) : string :=
  match n with
  | O => EmptyString
  | S k => String " " (spaces k)
  end.

Definition pad9 (s : string) : string :=
  spaces (9 - String.length s) ++ s.

(** [defaultItemTemplate]; no step of it can fail on an [Item]. *)
Definition defaultItemTemplate (env : Env) : Template Item :=
  fun item =>
    ("[" ++ pad9 (itoa (Item_ItemID item)) ++ "] (" ++
     time_Format env (Item_TimeAdded item) ++ ") " ++ Item_Title item ++
     newline ++ "<" ++ Item_URL item ++ ">",
     None).

(** *** [bySortID] and [sort.Sort] *)

Definition bySortID_Less (x y : Item) : bool := SortId x <? SortId y.

(** One pass of the inner loop of the library's [insertionSort], on the
    prefix read from its right end: the new element is swapped down while
    it is less than its left neighbour. *)
Fixpoint swapDown (x : Item) (revPrefix : list Item) : list Item :=
  match revPrefix with
  | [] => [x]
  | y :: r =>
      if bySortID_Less x y then y :: swapDown x r else x :: y :: r
  end.

(** [sort.Sort(bySortID(items))]: for a slice of at most twelve elements
    the library runs this insertion sort.  On longer slices it promises the
    same order only up to the places of elements with equal [SortId]. *)
Definition sortBySortID (items : list Item) : list Item :=
  rev (fold_left (fun revPrefix x => swapDown x revPrefix) items []).

(** *** [confirm] *)

Definition isOneOf (s : string) (words : list string) : bool :=
  existsb (String.eqb s) words.

(** The loop of [confirm] over the lines that standard input still holds.
    Standard input is a terminal: each read takes one line. *)
Fixpoint confirmLoop (env : Env) (s : string) (lines : list string)
    (w : World) : Outcome bool * World :=
  let w := logged w [EvStdout (s ++ " [y/n]: ")] in
  match lines with
  | [] => (Exits 1, withStdin (logged w [EvStderr ("EOF" ++ newline)]) [])
  | line :: rest =>
      let response := strings_ToLower env (strings_TrimSpace env line) in
      if isOneOf response ["y"; "yes"]
      then (Returns true, withStdin w rest)
      else if isOneOf response ["n"; "no"]
      then (Returns false, withStdin w rest)
      else if isOneOf response ["q"; "quit"]
      then (Exits 1,
            withStdin (logged w [EvStderr ("Quitting. Bye!" ++ newline)]) rest)
      else confirmLoop env s rest w
  end.

Definition confirm (env : Env) (s : string) : M bool :=
  fun w => confirmLoop env s (stdin w) (logged w [EvConfirm s]).

(** *** [commandList] *)

Definition Retrieve (env : Env) (options : RetrieveOption)
  : M (RetrieveResult + error) :=
  call (EvRetrieve options) (fun past => client_Retrieve env past options).

(** [fmt.Printf("%#v, %v\n", res, err)] after a call of [Modify]. *)
Definition reportModify (env : Env)
    (r : ptr ModifyResult * option error) : M unit :=
  match r with
  | (res, Some err) =>
      let shown := match res with
                   | None => "(*api.ModifyResult)(nil)"
                   | Some v => sharpV env v
                   end in
      emit (EvStdout (shown ++ ", " ++ err ++ newline))
  | (_, None) => ret tt
  end.

(** [client.Modify(action)] for one delete action, and the report. *)
Definition deleteItem (env : Env) (client : Client) (item : Item) : M unit :=
  let action := NewDeleteAction (Item_ItemID item) in
  r <- Modify env client [action] ;;
  reportModify env r.

Definition asPair (r : HTTPResult) : ptr Response * option error :=
  match r with
  | HTTPOk resp => (Some resp, None)
  | HTTPErr resp err => (resp, Some err)
  end.

Definition notEOF (err : option error) : bool :=
  match err with
  | Some e => negb (HasSuffix e ": EOF")
  | None => false
  end.

Definition setNotFound (resp : Response) : Response :=
  {| StatusCode := 404; Status := "Not Available";
     RespHeader := RespHeader resp; RespBody := RespBody resp;
     RequestURL := RequestURL resp |}.

(** Lines 242 to 249: [HEAD], and [GET] when [HEAD] failed.  The result is
    the pair [chk, err] as it stands at line 250. *)
Definition probeFetch (env : Env) (item : Item)
  : M (ptr Response * option error) :=
  r <- call (EvHead (Item_URL item))
         (fun past => asPair (http_Head env past (Item_URL item))) ;;
  match r with
  | (_, Some err) =>
      emit (EvStdout (newline ++ "Got an err when HEADing: " ++ err ++
                      ", GETting instead..." ++ newline)) ;;;
      r <- call (EvGet (Item_URL item))
             (fun past => asPair (http_Get env past (Item_URL item))) ;;
      match r with
      | (_, Some err) => emit (EvStdout (newline ++ err ++ newline)) ;;; ret r
      | (_, None) => ret r
      end
  | (_, None) => ret r
  end.

(** Lines 250 to 257: the test of the body.  The result is [chk]
    afterwards. *)
Definition probeBody (r : ptr Response * option error) : M (ptr Response) :=
  let (chk, err) := r in
  if notEOF err
  then match chk with
       | None => panic nilDereference
       | Some resp =>
           let body := body_bytes (RespBody resp) in
           match body_err (RespBody resp) with
           | Some _ =>
               if Contains body "isn't available anymore" ||
                  Contains body "this page doesn"
               then ret (Some (setNotFound resp))
               else ret (Some resp)
           | None => ret (Some resp)
           end
       end
  else ret chk.

(** Lines 258 to 276: the status is shown, and a page that is there can be
    opened. *)
Definition probeReport (env : Env) (item : Item)
    (chk : ptr Response) (err : option error) : M unit :=
  alive <- match err with
           | Some _ => ret false
           | None =>
               match chk with
               | None => panic nilDereference
               | Some resp => ret (StatusCode resp <=? 308)
               end
           end ;;
  if (alive : bool)
  then match chk with
       | None => panic nilDereference
       | Some resp =>
           emit (EvStdout (" " ++ Status resp ++ newline)) ;;;
           let fin := RequestURL resp in
           let openPrompt :=
             if negb (String.eqb fin (Item_URL item))
             then "Open " ++ fin ++ "?" else "Open?" in
           yes <- confirm env openPrompt ;;
           if (yes : bool)
           then
             out <- call (EvExec "firefox" ["--new-tab"; fin])
                      (fun past =>
                         exec_Output env past "firefox" ["--new-tab"; fin]) ;;
             match out with
             | Some (e, Some stderr) =>
                 emit (EvLog ("Failed to run firefox: " ++ e ++ ", " ++
                              stderr)) ;;; os_Exit 1
             | Some (e, None) =>
                 emit (EvLog ("Failed to run firefox: " ++ e)) ;;; os_Exit 1
             | None => ret tt
             end
           else ret tt
       end
  else if notEOF err || match err with None => true | Some _ => false end
  then match chk with
       | None => panic nilDereference
       | Some resp =>
           emit (EvStdout (newline ++ "Status was " ++ Status resp ++ newline))
       end
  else ret tt.

(** The statements of the [if conf.Cull] block, lines 242 to 283. *)
Definition probeAndAsk (env : Env) (client : Client) (item : Item) : M unit :=
  r <- probeFetch env item ;;
  chk <- probeBody r ;;
  probeReport env item chk (snd r) ;;;
  yes <- confirm env "Delete?" ;;
  if (yes : bool) then deleteItem env client item else ret tt.

(** The loop [for i, item := range items], from position [i] on. *)
Fixpoint cullLoop (env : Env) (conf : Config) (client : Client)
    (itemTemplate : Template Item) (itemsLen : nat)
    (i : nat) (items : list Item) (seenURLs : gset string) : M unit :=
  match items with
  | [] => ret tt
  | item :: rest =>
      emit (EvStdout (itoa (Z.of_nat i + 1) ++ "/" ++
                      itoa (Z.of_nat itemsLen) ++ " ")) ;;;
      emit (EvStdout (fst (itemTemplate item))) ;;;
      match snd (itemTemplate item) with
      | Some err => panic err
      | None =>
          let url := CleanURL (Item_URL item) in
          if decide (url ∈ seenURLs)
          then
            emit (EvStdout (newline ++ "Item already seen. Deleting..." ++
                            newline)) ;;;
            deleteItem env client item ;;;
            emit (EvStdout newline) ;;;
            cullLoop env conf client itemTemplate itemsLen (S i) rest seenURLs
          else
            let seenURLs := {[ url ]} ∪ seenURLs in
            (if Cull conf then probeAndAsk env client item else ret tt) ;;;
            emit (EvStdout newline) ;;;
            cullLoop env conf client itemTemplate itemsLen (S i) rest seenURLs
      end
  end.

Definition commandList (env : Env) (conf : Config) (client : Client)
  : M unit :=
  let options := {| Domain := Config_Domain conf;
                    Search := SearchQuery conf;
                    Tag := Config_Tag conf;
                    Sort := Config_Sort conf |} in
  r <- Retrieve env options ;;
  match r with
  | inr err => panic err
  | inl res =>
      itemTemplate <-
        (if negb (String.eqb (FormatTemplate conf) "")
         then match template_Parse env (FormatTemplate conf) with
              | inl t => ret t
              | inr err => panic err
              end
         else ret (defaultItemTemplate env)) ;;
      let items := List res in
      if DeleteAll conf
      then
        yes <- confirm env ("Really delete " ++
                            itoa (Z.of_nat (List.length items)) ++
                            " items?") ;;
        if (yes : bool)
        then
          let deleteItems :=
            map (fun item => NewDeleteAction (Item_ItemID item)) items in
          r <- Modify env client deleteItems ;;
          reportModify env r
        else ret tt
      else
        let items := sortBySortID items in
        cullLoop env conf client itemTemplate (List.length items) O items ∅
  end.

(** *** The credential: [restoreAccessToken] and [obtainAccessToken] *)

Definition loadJSONFromFile {T : Type} (env : Env)
    (decode : string -> T -> T * option error)
    (path : string) (v : T) : M (T * option error) :=
  r <- call (EvOpen path) (fun past => os_Open env past path) ;;
  match r with
  | inr err => ret (v, Some err)
  | inl contents => ret (decode contents v)
  end.

Definition saveJSONToFile {T : Type} (env : Env)
    (encode : T -> string * option error)
    (path : string) (v : T) : M (option error) :=
  r <- call (EvCreate path) (fun past => os_Create env past path) ;;
  match r with
  | Some err => ret (Some err)
  | None =>
      match encode v with
      | (_, Some err) => ret (Some err)
      | (data, None) =>
          call (EvWrite path data) (fun past => file_Write env past path data)
      end
  end.

(** A [*auth.Authorization] as JSON: [nil] is [null]. *)
Definition encodeAuthPtr (env : Env) (p : ptr Authorization)
  : string * option error :=
  match p with
  | Some a => encodeAuth env a
  | None => ("null", None)
  end.

Definition favicon : string := "/favicon.ico".

(** The handler of the local listener on the requests that arrive while
    [main] waits on the channel: a favicon request is answered with 404;
    the first other request is answered and its send on [ch] is taken by
    the waiting receive.  With no such request the receive never ends. *)
Fixpoint awaitCallback (paths : list string) (w : World)
  : Outcome unit * World :=
  match paths with
  | [] => (Blocks, withRequests w [])
  | path :: rest =>
      if String.eqb path favicon
      then awaitCallback rest (logged w [EvServe path 404])
      else (Returns tt, withRequests (logged w [EvServe path 200]) rest)
  end.

(** The deferred [ts.Close()]: it waits for the handlers that run.  A
    handler of a request other than the favicon stays in its send now that
    nobody receives, and then [Close] does not come back. *)
Fixpoint closeServer (paths : list string) (w : World)
  : Outcome unit * World :=
  match paths with
  | [] => (Returns tt, withRequests (logged w [EvClose]) [])
  | path :: rest =>
      if String.eqb path favicon
      then closeServer rest (logged w [EvServe path 404])
      else (Blocks, withRequests (logged w [EvServe path 200]) rest)
  end.

Definition obtainAccessToken (env : Env) (consumerKey : string)
  : M (ptr Authorization * option error) :=
  redirectURL <- (fun w => let url := httptest_URL env (events w) in
                           (Returns url, logged w [EvListen url])) ;;
  r <- call (EvRequestToken consumerKey redirectURL)
         (fun past =>
            auth_ObtainRequestToken env past consumerKey redirectURL) ;;
  match r with
  | inr err =>
      (fun w => closeServer (requests w) w) ;;;
      ret (None, Some err)
  | inl requestToken =>
      let url := auth_GenerateAuthorizationURL env requestToken redirectURL in
      emit (EvStdout (url ++ newline)) ;;;
      (fun w => awaitCallback (requests w) w) ;;;
      r <- call (EvExchange consumerKey requestToken)
             (fun past =>
                auth_ObtainAccessToken env past consumerKey requestToken) ;;
      (fun w => closeServer (requests w) w) ;;;
      match r with
      | inl a => ret (Some a, None)
      | inr err => ret (None, Some err)
      end
  end.

Definition restoreAccessToken (env : Env) (consumerKey : string)
  : M (ptr Authorization * option error) :=
  let accessToken := {| Authorization_AccessToken := EmptyString |} in
  let authFile := configDir env ++ "/auth.json" in
  r <- loadJSONFromFile env (decodeAuth env) authFile accessToken ;;
  match r with
  | (accessToken, None) => ret (Some accessToken, None)
  | (_, Some err) =>
      emit (EvLog (err ++ newline)) ;;;
      r <- obtainAccessToken env consumerKey ;;
      match r with
      | (_, Some err) => ret (None, Some err)
      | (accessToken, None) =>
          err <- saveJSONToFile env (encodeAuthPtr env) authFile accessToken ;;
          match err with
          | Some err => ret (None, Some err)
          | None => ret (accessToken, None)
          end
      end
  end.

(** [main] from the call of [restoreAccessToken] to the client it builds,
    lines 125 to 130. *)
Definition mainClient (env : Env) (consumerKey : string) : M Client :=
  r <- restoreAccessToken env consumerKey ;;
  match r with
  | (_, Some err) => panic err
  | (None, None) => panic nilDereference
  | (Some accessToken, None) =>
      ret (NewClient consumerKey (Authorization_AccessToken accessToken))
  end.

(** *** The authorization flow as concurrent code

    [obtainAccessToken] runs its body while the listener runs one handler
    per request, each in a goroutine of its own.  The channel [ch] has no
    buffer: a send ends only together with a receive.  A state holds where
    the body stands, where each handler stands, and what happened. *)

Inductive AuthEvent :=
| AListen
| ARequestToken
| APrintURL
| AArrive (path : string)
| AReply (path : string) (status : Z)
| ASignal (path : string)
| AExchange
| AClosed.

(** The next statement of the body of [obtainAccessToken]. *)
Inductive MainPC :=
| PcNewServer
| PcRequestToken
| PcPrint
| PcReceive
| PcExchange
| PcClose
| PcReturned.

(** The next statement of a handler: the test of the path, the send on
    [ch] (after the reply was written), or none. *)
Inductive HandlerPC :=
| HCheckPath (path : string)
| HSend (path : string)
| HReturned.

Record AuthState := {
  mainPC : MainPC;
  handlers : list HandlerPC;
  history : list AuthEvent
}.

Definition authInit : AuthState :=
  {| mainPC := PcNewServer; handlers := []; history := [] |}.

Definition listening (pc : MainPC) : bool :=
  match pc with
  | PcNewServer | PcReturned => false
  | _ => true
  end.

Inductive authStep : AuthState -> AuthState -> Prop :=
| step_new_server hs h :
    authStep {| mainPC := PcNewServer; handlers := hs; history := h |}
             {| mainPC := PcRequestToken; handlers := hs;
                history := h ++ [AListen] |}
| step_request_token hs h :
    authStep {| mainPC := PcRequestToken; handlers := hs; history := h |}
             {| mainPC := PcPrint; handlers := hs;
                history := h ++ [ARequestToken] |}
| step_request_token_error hs h :
    authStep {| mainPC := PcRequestToken; handlers := hs; history := h |}
             {| mainPC := PcClose; handlers := hs;
                history := h ++ [ARequestToken] |}
| step_print hs h :
    authStep {| mainPC := PcPrint; handlers := hs; history := h |}
             {| mainPC := PcReceive; handlers := hs;
                history := h ++ [APrintURL] |}
| step_arrive pc hs h path :
    listening pc = true ->
    authStep {| mainPC := pc; handlers := hs; history := h |}
             {| mainPC := pc; handlers := hs ++ [HCheckPath path];
                history := h ++ [AArrive path] |}
| step_not_found pc hs h i :
    hs !! i = Some (HCheckPath favicon) ->
    authStep {| mainPC := pc; handlers := hs; history := h |}
             {| mainPC := pc; handlers := <[i := HReturned]> hs;
                history := h ++ [AReply favicon 404] |}
| step_authorized pc hs h i path :
    hs !! i = Some (HCheckPath path) ->
    path <> favicon ->
    authStep {| mainPC := pc; handlers := hs; history := h |}
             {| mainPC := pc; handlers := <[i := HSend path]> hs;
                history := h ++ [AReply path 200] |}
| step_signal hs h i path :
    hs !! i = Some (HSend path) ->
    authStep {| mainPC := PcReceive; handlers := hs; history := h |}
             {| mainPC := PcExchange; handlers := <[i := HReturned]> hs;
                history := h ++ [ASignal path] |}
| step_exchange hs h :
    authStep {| mainPC := PcExchange; handlers := hs; history := h |}
             {| mainPC := PcClose; handlers := hs;
                history := h ++ [AExchange] |}
| step_close hs h :
    Forall (fun hd => hd = HReturned) hs ->
    authStep {| mainPC := PcClose; handlers := hs; history := h |}
             {| mainPC := PcReturned; handlers := hs;
                history := h ++ [AClosed] |}.

(** The states an execution of [obtainAccessToken] can be in. *)
Definition authReachable (st : AuthState) : Prop := rtc authStep authInit st.

(** ** A sample environment *)

(** [strings.ToLower] and [strings.TrimSpace] on ASCII text. *)
Definition lowerByte (c : ascii) : ascii :=
  let n := N_of_ascii c in
  if (65 <=? n)%N && (n <=? 90)%N then ascii_of_N (n + 32) else c.

Fixpoint asciiToLower (s : string) : string :=
  match s with
  | EmptyString => EmptyString
  | String c s' => String (lowerByte c) (asciiToLower s')
  end.

Definition isSpaceByte (c : ascii) : bool :=
  let n := N_of_ascii c in
  (n =? 32)%N || ((9 <=? n)%N && (n <=? 13)%N).

Fixpoint trimLeft (s : string) : string :=
  match s with
  | EmptyString => EmptyString
  | String c s' => if isSpaceByte c then trimLeft s' else s
  end.

Fixpoint trimRight (s : string) : string :=
  match s with
  | EmptyString => EmptyString
  | String c s' =>
      match trimRight s' with
      | EmptyString => if isSpaceByte c then EmptyString else String c EmptyString
      | r => String c r
      end
  end.

Definition asciiTrimSpace (s : string) : string := trimRight (trimLeft s).

(** A remote service that accepts every call, a network on which every
    probe answers [200 OK], and a file system with no credential file. *)
Definition okResponse (url : string) : Response :=
  {| StatusCode := 200; Status := "200 OK"; RespHeader := ∅;
     RespBody := {| body_bytes := EmptyString; body_err := None |};
     RequestURL := url |}.

Definition sampleEnvWith
    (retrieve : RetrieveResult + error)
    (do : Request -> HTTPResult)
    (head get : string -> HTTPResult)
    (decode : Body -> ModifyResult -> ModifyResult * option error)
    (create : option error) : Env :=
  {| highRune := fun c _ => (String c EmptyString, O);
     strings_TrimSpace := asciiTrimSpace;
     strings_ToLower := asciiToLower;
     time_Format := fun t => itoa t;
     template_Parse := fun src => inl (fun _ => (src, None));
     marshalModify := fun _ => ("{}", None);
     decodeModify := decode;
     sharpV := fun _ => "&api.ModifyResult{}";
     encodeAuth := fun a => (Authorization_AccessToken a, None);
     decodeAuth := fun data _ => ({| Authorization_AccessToken := data |}, None);
     configDir := "/home/user/.config/pocket";
     client_Do := fun _ => do;
     client_Retrieve := fun _ _ => retrieve;
     http_Head := fun _ => head;
     http_Get := fun _ => get;
     exec_Output := fun _ _ _ => None;
     os_Open := fun _ _ => inr "open: no such file or directory";
     os_Create := fun _ _ => create;
     file_Write := fun _ _ _ => None;
     httptest_URL := fun _ => "http://127.0.0.1:34567";
     auth_ObtainRequestToken := fun _ _ _ => inl "request-token";
     auth_GenerateAuthorizationURL := fun tok red =>
       "https://getpocket.com/auth/authorize?request_token=" ++ tok ++
       "&redirect_uri=" ++ red;
     auth_ObtainAccessToken := fun _ _ _ =>
       inl {| Authorization_AccessToken := "access-token" |} |}.

Definition sampleConfig : Config :=
  {| Config_List := true; Config_Archive := false; Config_Add := false;
     Config_Delete := false; FormatTemplate := EmptyString;
     Config_Domain := EmptyString; SearchQuery := EmptyString;
     Config_Tag := EmptyString; Config_Sort := EmptyString;
     Cull := false; DeleteAll := false; Config_ItemID := 0;
     Config_URL := EmptyString; Config_Title := EmptyString;
     Config_Tags := EmptyString |}.

Definition deleteAllConfig : Config :=
  {| Config_List := true; Config_Archive := false; Config_Add := false;
     Config_Delete := false; FormatTemplate := EmptyString;
     Config_Domain := EmptyString; SearchQuery := EmptyString;
     Config_Tag := EmptyString; Config_Sort := EmptyString;
     Cull := false; DeleteAll := true; Config_ItemID := 0;
     Config_URL := EmptyString; Config_Title := EmptyString;
     Config_Tags := EmptyString |}.

Definition cullConfig : Config :=
  {| Config_List := true; Config_Archive := false; Config_Add := false;
     Config_Delete := false; FormatTemplate := EmptyString;
     Config_Domain := EmptyString; SearchQuery := EmptyString;
     Config_Tag := EmptyString; Config_Sort := EmptyString;
     Cull := true; DeleteAll := false; Config_ItemID := 0;
     Config_URL := EmptyString; Config_Title := EmptyString;
     Config_Tags := EmptyString |}.

Definition sampleClient : Client := NewClient "consumer-key" "access-token".

Definition emptyWorld : World :=
  {| events := []; stdin := []; requests := [] |}.

(** The two items of the end-to-end scenario; the spec leaves their
    titles and times open. *)
Definition scenarioItem1 (title : string) (added : Z) : Item :=
  {| Item_ItemID := 1; Item_URL := "https://a.com/x"; Item_Title := title;
     Item_TimeAdded := added; SortId := 2 |}.

Definition scenarioItem2 (title : string) (added : Z) : Item :=
  {| Item_ItemID := 2; Item_URL := "http://a.com/x"; Item_Title := title;
     Item_TimeAdded := added; SortId := 1 |}.

Definition item1 : Item := scenarioItem1 "A" 0.
Definition item2 : Item := scenarioItem2 "A" 0.

(** An environment that retrieves the given items. *)
Definition retrieving (items : list Item) : Env :=
  sampleEnvWith (inl {| List := items |})
    (fun req => HTTPOk (okResponse (URL req)))
    (fun url => HTTPOk (okResponse url))
    (fun url => HTTPOk (okResponse url))
    (fun _ res => (res, None))
    None.

(** The text of a [*url.Error]: the operation, the quoted URL and the
    cause. *)
Definition urlError (op url cause : string) : error :=
  op ++ " " ++ String dquote (url ++ String dquote (": " ++ cause)).

(** A saved link whose host is gone, and a second link that is fine.  Both
    [HEAD] and [GET] on the first end in a transport error with no
    response at all. *)
Definition goneURL : string := "http://gone.invalid/a".

Definition goneItem : Item :=
  {| Item_ItemID := 7; Item_URL := goneURL; Item_Title := "Gone";
     Item_TimeAdded := 0; SortId := 1 |}.

Definition fineItem : Item :=
  {| Item_ItemID := 8; Item_URL := "http://example.com/b";
     Item_Title := "Fine"; Item_TimeAdded := 0; SortId := 2 |}.

Definition noSuchHost : string := "dial tcp: lookup gone.invalid: no such host".

Definition failingOn (bad cause : string) (op url : string) : HTTPResult :=
  if String.eqb url bad
  then HTTPErr None (urlError op url cause)
  else HTTPOk (okResponse url).

Definition goneEnv (cause : string) : Env :=
  sampleEnvWith (inl {| List := [goneItem; fineItem] |})
    (fun req => HTTPOk (okResponse (URL req)))
    (failingOn goneURL cause "Head")
    (failingOn goneURL cause "Get")
    (fun _ res => (res, None))
    None.

(** A saved link whose page says that it was removed, with the status 200:
    the server cuts [HEAD] requests short, and answers [GET]. *)
Definition removedURL : string := "http://video.example/watch?v=1".

Definition removedItem : Item :=
  {| Item_ItemID := 9; Item_URL := removedURL; Item_Title := "Removed";
     Item_TimeAdded := 0; SortId := 1 |}.

Definition removedPage : Response :=
  {| StatusCode := 200; Status := "200 OK"; RespHeader := ∅;
     RespBody := {| body_bytes := "Sorry, this video isn't available anymore.";
                    body_err := None |};
     RequestURL := removedURL |}.

Definition removedEnv : Env :=
  sampleEnvWith (inl {| List := [removedItem] |})
    (fun req => HTTPOk (okResponse (URL req)))
    (fun url => HTTPErr None (urlError "Head" url "EOF"))
    (fun _ => HTTPOk removedPage)
    (fun _ res => (res, None))
    None.

(** A first run: no credential file yet, a handshake that succeeds, and a
    configuration directory in which the credential file cannot be
    created. *)
Definition permissionDenied : error :=
  "open /home/user/.config/pocket/auth.json: permission denied".

Definition readOnlyEnv : Env :=
  sampleEnvWith (inl {| List := [] |})
    (fun req => HTTPOk (okResponse (URL req)))
    (fun url => HTTPOk (okResponse url))
    (fun url => HTTPOk (okResponse url))
    (fun _ res => (res, None))
    (Some permissionDenied).

Definition firstRun : World := withRequests emptyWorld ["/favicon.ico"; "/"].

(** The state of the authorization flow after the browser asked for the
    favicon and for the root page, and the token was exchanged. *)
Definition authExchanged : AuthState :=
  {| mainPC := PcClose;
     handlers := [HReturned; HReturned];
     history := [AListen; ARequestToken; APrintURL;
                 AArrive favicon; AReply favicon 404;
                 AArrive "/"; AReply "/" 200; ASignal "/"; AExchange] |}.

(** ** The vocabulary of the properties *)

(** A URL on which no statement of [CleanURL] finds anything to do. *)
Definition isClean (u : string) : bool :=
  negb (Contains u "http://") &&
  negb (HasSuffix u "&a") &&
  negb (Contains u "feature=g-u") &&
  negb (Contains u "feature=youtu.be") &&
  negb (Contains u "feature=youtube_gdata") &&
  negb (Contains u "&&") &&
  negb (HasSuffix u "&") &&
  negb (HasSuffix u "/").

(** The sum of the weights of the bytes of a string: its length when every
    byte weighs one, the number of its [s] when only [s] weighs. *)
Fixpoint weight (wt : ascii -> nat) (s : string) : nat :=
  match s with
  | EmptyString => O
  | String c s' => (wt c + weight wt s')%nat
  end.

Definition one (c : ascii) : nat := 1%nat.

Definition isS (c : ascii) : nat := if Ascii.eqb c "s" then 1%nat else 0%nat.

(** A text that [%q] only puts between quotes: printable ASCII without the
    double quote and the backslash. *)
Definition plainByte (c : ascii) : bool :=
  let n := N_of_ascii c in
  (32 <=? n)%N && (n <? 127)%N &&
  negb (Ascii.eqb c dquote) && negb (Ascii.eqb c backslash).

Fixpoint plain (s : string) : bool :=
  match s with
  | EmptyString => true
  | String c s' => plainByte c && plain s'
  end.

(** The response headers that the error of [doJSON] reports. *)
Definition errorHeaders : list string :=
  ["X-Error"; "X-Error-Code";
   "X-Limit-User-Limit"; "X-Limit-User-Remaining"; "X-Limit-User-Reset";
   "X-Limit-Key-Limit"; "X-Limit-Key-Remaining"; "X-Limit-Key-Reset"].

(** The request [doJSON] sends for [req]. *)
Definition jsonRequest (req : Request) : Request :=
  Header_Add (Header_Add req "X-Accept" "application/json")
             "Content-Type" "application/json".

(** A header value with a double quote in it, and a response that carries
    it with the status 403. *)
Definition quotedValue : string :=
  "bad " ++ String dquote ("key" ++ String dquote EmptyString).

Definition forbidden (xerror : string) : Response :=
  {| StatusCode := 403; Status := "403 Forbidden";
     RespHeader := {[ "X-Error" := [xerror] ]};
     RespBody := {| body_bytes := EmptyString; body_err := None |};
     RequestURL := "https://getpocket.com/v3/send" |}.

Definition sendRequest : Request :=
  {| Method := "POST"; URL := "https://getpocket.com/v3/send";
     ReqHeader := []; ReqBody := "{}" |}.

(** The lines [Modify] logs for the results from position [i] on: one for
    each [false] whose position holds an action. *)
Fixpoint failureLines (high : HighRune) (actions : list (ptr Action))
    (i : nat) (results : list bool) : list Event :=
  match results with
  | [] => []
  | r :: rest =>
      (if r then []
       else match nth_error actions i with
            | Some (Some a) =>
                [EvLog ("Action " ++ Quote high (Action_Action a) ++
                        " on item " ++ itoa (Action_ItemID a) ++ " failed")]
            | _ => []
            end) ++ failureLines high actions (S i) rest
  end%list.

(** The request body of a [Modify] call. *)
Definition modifyData (c : Client) (actions : list (ptr Action))
  : modifyAPIOptionsWithAuth :=
  {| Actions := actions; modify_authInfo := Client_authInfo c |}.

(** A remote service whose answer to every call carries the given
    [action_results]. *)
Definition answering (results : list bool) : Env :=
  sampleEnvWith (inl {| List := [] |})
    (fun req => HTTPOk (okResponse (URL req)))
    (fun url => HTTPOk (okResponse url))
    (fun url => HTTPOk (okResponse url))
    (fun _ _ => ({| ActionResults := results; ActionErrors := [];
                    ModifyResult_Status := 1 |}, None))
    None.

(** The decisions, mutations and probes of a run: the calls of [confirm]
    and [Modify] and the [HEAD] and [GET] requests, without what is
    printed, logged or sent below them. *)
Definition audited (e : Event) : bool :=
  match e with
  | EvConfirm _ | EvModify _ | EvHead _ | EvGet _ => true
  | _ => false
  end.

Definition audit (evs : list Event) : list Event := List.filter audited evs.

(** The [POST] requests of a run. *)
Definition posted (e : Event) : bool :=
  match e with
  | EvDo _ => true
  | _ => false
  end.

Definition posts (evs : list Event) : list Event := List.filter posted evs.

(** The request that [Modify] sends for [actions]. *)
Definition modifyRequest (env : Env) (c : Client)
    (actions : list (ptr Action)) : Request :=
  jsonRequest {| Method := "POST"; URL := Origin ++ "/v3/send";
                 ReqHeader := [];
                 ReqBody := fst (marshalModify env (modifyData c actions)) |}.

(** The requests of a [Modify] call: one, unless the actions cannot be
    marshalled. *)
Definition modifyPosts (env : Env) (c : Client)
    (actions : list (ptr Action)) : list Event :=
  match snd (marshalModify env (modifyData c actions)) with
  | None => [EvDo (modifyRequest env c actions)]
  | Some _ => []
  end.

(** Events that are only written out: standard output, standard error and
    the log. *)
Definition written (e : Event) : bool :=
  match e with
  | EvStdout _ | EvStderr _ | EvLog _ => true
  | _ => false
  end.

(** The options [commandList] retrieves with. *)
Definition optionsOf (conf : Config) : RetrieveOption :=
  {| Domain := Config_Domain conf; Search := SearchQuery conf;
     Tag := Config_Tag conf; Sort := Config_Sort conf |}.

(** The template [commandList] renders with, when [template.Must] does not
    panic. *)
Definition itemTemplateOf (env : Env) (conf : Config)
  : option (Template Item) :=
  if negb (String.eqb (FormatTemplate conf) "")
  then match template_Parse env (FormatTemplate conf) with
       | inl t => Some t
       | inr _ => None
       end
  else Some (defaultItemTemplate env).

(** The exchanges of the token among the events. *)
Definition isExchange (e : Event) : bool :=
  match e with
  | EvExchange _ _ => true
  | _ => false
  end.

Definition noExchange (evs : list Event) : bool :=
  forallb (fun e => negb (isExchange e)) evs.

(** The path of the credential file, and the credential before it is
    loaded. *)
Definition authFileOf (env : Env) : string := configDir env ++ "/auth.json".

Definition noAuthorization : Authorization :=
  {| Authorization_AccessToken := EmptyString |}.

(** In a history, every exchange of the token comes after the arrival of a
    request other than the favicon one and after the signal of its
    handler. *)
Definition exchangeGuarded (h : list AuthEvent) : Prop :=
  forall before after,
    h = (before ++ AExchange :: after)%list ->
    exists path, path <> favicon /\
                 In (AArrive path) before /\ In (ASignal path) before.

(** What holds in every state of the authorization flow. *)
Record authInvariant (st : AuthState) : Prop := {
  inv_check : forall i path,
    handlers st !! i = Some (HCheckPath path) ->
    In (AArrive path) (history st);
  inv_send : forall i path,
    handlers st !! i = Some (HSend path) ->
    path <> favicon /\ In (AArrive path) (history st);
  inv_signal : forall path,
    In (ASignal path) (history st) ->
    path <> favicon /\ In (AArrive path) (history st);
  inv_exchange :
    mainPC st = PcExchange ->
    exists path, path <> favicon /\ In (AArrive path) (history st) /\
                 In (ASignal path) (history st);
  inv_guarded : exchangeGuarded (history st)
}.

(** ** The other commands of [main.go] *)

(** *** [commandArchive] and [commandDelete] *)

(** [fmt.Println(res, err)]: both operands under the verb [%v], a space
    between them.  How [%v] renders a [ModifyResult] with its
    [[]interface{}] field is a parameter. *)
Definition printlnModify (plainV : ModifyResult -> string)
    (res : ptr ModifyResult) (err : option error) : string :=
  match res with
  | None => "<nil>"
  | Some v => "&" ++ plainV v
  end ++ " " ++
  match err with
  | None => "<nil>"
  | Some e => e
  end ++ newline.

Definition commandArchive (env : Env) (plainV : ModifyResult -> string)
    (conf : Config) (client : Client) : M unit :=
  if negb (Config_ItemID conf =? 0)
  then
    let action := NewArchiveAction (Config_ItemID conf) in
    r <- Modify env client [action] ;;
    emit (EvStdout (printlnModify plainV (fst r) (snd r)))
  else panic "Wrong arguments, need <item-id>".


(** *** [getConsumerKey] *)

(** The two calls of [io/ioutil], answered from what happened before. *)
Record Files := {
  ioutil_ReadFile : list Event -> string -> string + error;
  ioutil_WriteFile : list Event -> string -> string -> option error
}.

(** [bytes.SplitN(s, "\n", 2)[0]]: the bytes before the first newline. *)
Fixpoint firstLine (s : string) : string :=
  match s with
  | EmptyString => EmptyString
  | String c s' =>
      if Ascii.eqb c "010" then EmptyString else String c (firstLine s')
  end.

(** The first [n] bytes of a string, and the bytes after them. *)
Fixpoint takeBytes (n : nat) (s : string) : string :=
  match n, s with
  | S k, String c s' => String c (takeBytes k s')
  | _, _ => EmptyString
  end.

Fixpoint dropBytes (n : nat) (s : string) : string :=
  match n, s with
  | S k, String _ s' => dropBytes k s'
  | _, _ => s
  end.

(** [ReadLine] leaves out a carriage return at the end of what it
    returns. *)
Fixpoint dropCR (s : string) : string :=
  match s with
  | EmptyString => EmptyString
  | String c EmptyString =>
      if Ascii.eqb c "013" then EmptyString else s
  | String c s' => String c (dropCR s')
  end.

(** The buffer of [bufio.NewReader]. *)
Definition bufferSize : nat := 4096.

(** [bufio.NewReader(os.Stdin).ReadLine()] on the line that standard input
    holds next: a line that does not fit into the buffer together with its
    newline is returned up to the size of the buffer ([isPrefix], which
    [getConsumerKey] drops), and the rest of it stays unread. *)
Definition ReadLine : M (string + error) :=
  fun w =>
    match stdin w with
    | [] => (Returns (inr "EOF"), w)
    | line :: rest =>
        if (String.length line <? bufferSize)%nat
        then (Returns (inl (dropCR line)), withStdin w rest)
        else (Returns (inl (dropCR (takeBytes bufferSize line))),
              withStdin w (dropBytes bufferSize line :: rest))
    end.

Definition consumerKeyPath (env : Env) : string :=
  configDir env ++ "/consumer_key".

(** [getConsumerKey]; [ioutil.ReadFile] is logged as the opening of the
    file, [ioutil.WriteFile] as the write. *)
Definition getConsumerKey (env : Env) (files : Files) : M string :=
  let consumerKeyPath := consumerKeyPath env in
  r <- call (EvOpen consumerKeyPath)
         (fun past => ioutil_ReadFile files past consumerKeyPath) ;;
  match r with
  | inr err =>
      emit (EvLog ("Can't get consumer key: " ++ err ++ newline)) ;;;
      emit (EvLog "Enter your consumer key (from here https://getpocket.com/developer/apps/): ") ;;;
      r <- ReadLine ;;
      match r with
      | inr err => panic err
      | inl consumerKey =>
          err <- call (EvWrite consumerKeyPath consumerKey)
                   (fun past =>
                      ioutil_WriteFile files past consumerKeyPath consumerKey) ;;
          match err with
          | Some err => panic err
          | None => ret consumerKey
          end
      end
  | inl consumerKey => ret (firstLine consumerKey)
  end.

(** ** More vocabulary *)

(** The first statement of [CleanURL]. *)
Definition toHTTPS (s : string) : string := ReplaceAll s "http://" "https://".

(** The orders of [SortId]. *)
Definition ascending (x y : Item) : Prop := SortId x <= SortId y.
Definition descending (x y : Item) : Prop := SortId y <= SortId x.

(** What [confirm] makes of a line of input. *)
Definition reply (env : Env) (line : string) : string :=
  strings_ToLower env (strings_TrimSpace env line).

Definition saysYes (env : Env) (line : string) : bool :=
  isOneOf (reply env line) ["y"; "yes"].

Definition saysNo (env : Env) (line : string) : bool :=
  isOneOf (reply env line) ["n"; "no"].

Definition saysQuit (env : Env) (line : string) : bool :=
  isOneOf (reply env line) ["q"; "quit"].

Definition unrecognised (env : Env) (line : string) : bool :=
  negb (saysYes env line || saysNo env line || saysQuit env line).

(** How a call of [confirm] can end, given the lines its reader is handed
    and those of them it passed over: with an answer, with the wish to
    quit, or with the end of the input.  [evs] is what the call writes. *)
Inductive ConfirmEnd (env : Env) (s : string) (lines : list string)
    (skipped : list string) (out : Outcome bool) (evs : list Event) : Prop :=
| confirm_answered line rest b :
    out = Returns b ->
    lines = (skipped ++ line :: rest)%list ->
    saysYes env line = b ->
    (b = false -> saysNo env line = true) ->
    evs = repeat (EvStdout (s ++ " [y/n]: ")) (S (length skipped)) ->
    ConfirmEnd env s lines skipped out evs
| confirm_quit line rest :
    out = Exits 1 ->
    lines = (skipped ++ line :: rest)%list ->
    saysQuit env line = true ->
    evs = (repeat (EvStdout (s ++ " [y/n]: ")) (S (length skipped)) ++
           [EvStderr ("Quitting. Bye!" ++ newline)])%list ->
    ConfirmEnd env s lines skipped out evs
| confirm_eof :
    out = Exits 1 ->
    lines = skipped ->
    evs = (repeat (EvStdout (s ++ " [y/n]: ")) (S (length skipped)) ++
           [EvStderr ("EOF" ++ newline)])%list ->
    ConfirmEnd env s lines skipped out evs.

(** The request [PostJSON] sends for a body. *)
Definition postRequest (action body : string) : Request :=
  {| Method := "POST"; URL := "https://getpocket.com" ++ action;
     ReqHeader := [("X-Accept", "application/json");
                   ("Content-Type", "application/json")];
     ReqBody := body |}.

(** The delete action of an item, field by field. *)
Definition deleteOf (item : Item) : ptr Action :=
  Some {| Action_Action := "delete"; Action_ItemID := Item_ItemID item |}.

(** The requests of a [Modify] call on the given actions, spelled out: one
    [POST] of the marshalled actions and credentials, or none when they
    cannot be marshalled. *)
Definition sendPosts (env : Env) (c : Client) (actions : list (ptr Action))
  : list Event :=
  match marshalModify env {| Actions := actions;
                             modify_authInfo := Client_authInfo c |} with
  | (body, None) => [EvDo (postRequest "/v3/send" body)]
  | (_, Some _) => []
  end.

(** The number of failed actions among the results. *)
Definition failures (results : list bool) : nat :=
  length (List.filter negb results).

(** The items whose canonical URL is that of an item before them in the
    list, or one of [earlier]. *)
Fixpoint repeats (earlier : list string) (items : list Item) : list Item :=
  match items with
  | [] => []
  | item :: rest =>
      let url := CleanURL (Item_URL item) in
      ((if existsb (String.eqb url) earlier then [item] else []) ++
       repeats (url :: earlier) rest)%list
  end.

(** The calls of [Modify] that delete the given items one by one. *)
Definition deletionsOf (items : list Item) : list Event :=
  map (fun item => EvModify [deleteOf item]) items.

(** The question of [probeReport] for a response. *)
Definition openPromptOf (item : Item) (resp : Response) : string :=
  if negb (String.eqb (RequestURL resp) (Item_URL item))
  then "Open " ++ RequestURL resp ++ "?" else "Open?".

(** What the probe has written when [HEAD] failed with [e] and [GET] is
    about to be tried. *)
Definition headFailed (item : Item) (e : error) : list Event :=
  [EvHead (Item_URL item);
   EvStdout (newline ++ "Got an err when HEADing: " ++ e ++
             ", GETting instead..." ++ newline)].

(** The response the probe of an item got without error: that of [HEAD],
    or that of [GET] when [HEAD] failed. *)
Definition arrived (env : Env) (item : Item) (w : World) (resp : Response)
  : Prop :=
  match http_Head env (events w) (Item_URL item) with
  | HTTPOk r => resp = r
  | HTTPErr _ e =>
      http_Get env (events w ++ headFailed item e) (Item_URL item) = HTTPOk resp
  end.

(** The questions, probes and deletions of the probe of one item that
    started in [w] and ended as [out]: the fetch, at most one question
    about opening the page that arrived, and at most one [Delete?], with
    the deletion of the item only after it.  A probe that returns has
    asked [Delete?]. *)
Definition probeTalk (env : Env) (item : Item) (w : World)
    (out : Outcome unit) (trace : list Event) : Prop :=
  exists fetch opens asks,
    trace = (fetch ++ opens ++ asks)%list /\
    match http_Head env (events w) (Item_URL item) with
    | HTTPOk _ => fetch = [EvHead (Item_URL item)]
    | HTTPErr _ _ => fetch = [EvHead (Item_URL item); EvGet (Item_URL item)]
    end /\
    (opens = [] \/
     exists resp,
       arrived env item w resp /\ StatusCode resp <= 308 /\
       opens = [EvConfirm (openPromptOf item resp)]) /\
    (asks = [] \/ asks = [EvConfirm "Delete?"] \/
     asks = [EvConfirm "Delete?"; EvModify [deleteOf item]]) /\
    (out = Returns tt -> asks <> []).

(** Whether a run came back. *)
Definition returned {A : Type} (out : Outcome A) : bool :=
  match out with
  | Returns _ => true
  | _ => false
  end.

(** What an item whose canonical URL is new leaves in the audit of a run:
    without [--cull] nothing; with it the fetch, at most one question about
    opening a page that arrived with a status of at most 308, and at most
    one [Delete?], with the deletion of the item only after it.  When the
    probe of the item was [finished], [Delete?] was asked. *)
Definition itemChunk (cull finished : bool) (item : Item)
    (chunk : list Event) : Prop :=
  if cull
  then exists fetch opens asks,
         chunk = (fetch ++ opens ++ asks)%list /\
         (fetch = [EvHead (Item_URL item)] \/
          fetch = [EvHead (Item_URL item); EvGet (Item_URL item)]) /\
         (opens = [] \/
          exists resp,
            StatusCode resp <= 308 /\
            opens = [EvConfirm (openPromptOf item resp)]) /\
         (asks = [] \/ asks = [EvConfirm "Delete?"] \/
          asks = [EvConfirm "Delete?"; EvModify [deleteOf item]]) /\
         (finished = true -> asks <> [])
  else chunk = [] /\ finished = true.

(** The audit of the loop of [commandList] on a list of items, given the
    canonical URLs met before, for a run that went through all items
    ([true]) and for one that ended at one of them ([false]).  An item whose
    canonical URL was met is deleted, with no question; any other item
    leaves the chunk of its probe.  A run ends at an item when its template
    fails before anything else is done, when the deletion of a repeated
    item panics, or within the probe. *)
Inductive cullAudit (cull : bool)
  : bool -> list string -> list Item -> list Event -> Prop :=
| audit_done earlier : cullAudit cull true earlier [] []
| audit_stop earlier item rest : cullAudit cull false earlier (item :: rest) []
| audit_repeat done earlier item rest tr :
    In (CleanURL (Item_URL item)) earlier ->
    cullAudit cull done (CleanURL (Item_URL item) :: earlier) rest tr ->
    cullAudit cull done earlier (item :: rest) (EvModify [deleteOf item] :: tr)
| audit_repeat_broke earlier item rest :
    In (CleanURL (Item_URL item)) earlier ->
    cullAudit cull false earlier (item :: rest) [EvModify [deleteOf item]]
| audit_first done earlier item rest chunk tr :
    ~ In (CleanURL (Item_URL item)) earlier ->
    itemChunk cull true item chunk ->
    cullAudit cull done (CleanURL (Item_URL item) :: earlier) rest tr ->
    cullAudit cull done earlier (item :: rest) (chunk ++ tr)
| audit_broke earlier item rest chunk :
    ~ In (CleanURL (Item_URL item)) earlier ->
    itemChunk cull false item chunk ->
    cullAudit cull false earlier (item :: rest) chunk.

(** The replies of the local listener to requests for the favicon. *)
Definition notFound (paths : list string) : list Event :=
  map (fun path => EvServe path 404) paths.

Definition allFavicon (paths : list string) : Prop :=
  Forall (fun path => path = favicon) paths.

(** The result of [auth.ObtainAccessToken], as [obtainAccessToken] hands it
    on. *)
Definition exchanged (r : Authorization + error)
  : ptr Authorization * option error :=
  match r with
  | inl a => (Some a, None)
  | inr err => (None, Some err)
  end.

(** The events of a run of [obtainAccessToken] that got the request token
    [tok] and was called back by the request [path]. *)
Definition handshake (env : Env) (consumerKey url tok : string)
    (favs : list string) (path : string) (rest : list string) : list Event :=
  ([EvListen url; EvRequestToken consumerKey url;
    EvStdout (auth_GenerateAuthorizationURL env tok url ++ newline)] ++
   notFound favs ++
   [EvServe path 200; EvExchange consumerKey tok] ++
   notFound rest ++ [EvClose])%list.

(** The number of requests that are not for the favicon. *)
Definition callbacks (paths : list string) : nat :=
  length (List.filter (fun path => negb (String.eqb path favicon)) paths).

(** The receives of [main] on the channel, and the exchanges of the token,
    in a history. *)
Definition isSignal (e : AuthEvent) : bool :=
  match e with
  | ASignal _ => true
  | _ => false
  end.

Definition isAExchange (e : AuthEvent) : bool :=
  match e with
  | AExchange => true
  | _ => false
  end.

Definition signals (h : list AuthEvent) : nat :=
  length (List.filter isSignal h).

Definition exchanges (h : list AuthEvent) : nat :=
  length (List.filter isAExchange h).

(** Before its receive ends, the body has seen no signal. *)
Definition beforeReceive (pc : MainPC) : bool :=
  match pc with
  | PcNewServer | PcRequestToken | PcPrint | PcReceive => true
  | _ => false
  end.

Record onceInvariant (st : AuthState) : Prop := {
  once_signal : (signals (history st) <= 1)%nat;
  once_exchange : (exchanges (history st) <= signals (history st))%nat;
  once_before : beforeReceive (mainPC st) = true -> signals (history st) = O;
  once_pending :
    mainPC st = PcExchange ->
    signals (history st) = 1%nat /\ exchanges (history st) = O
}.

(** A handler that waits in its send while the body is past its receive. *)
Definition stuck (st : AuthState) : Prop :=
  (mainPC st = PcExchange \/ mainPC st = PcClose) /\
  exists i path, handlers st !! i = Some (HSend path).

(** The flow after the browser asked for the root page twice: the first
    handler woke the body, the second waits in its send. *)
Definition authSecondCallback : AuthState :=
  {| mainPC := PcExchange;
     handlers := [HReturned; HSend "/"];
     history := [AListen; ARequestToken; APrintURL;
                 AArrive "/"; AArrive "/"; AReply "/" 200; AReply "/" 200;
                 ASignal "/"] |}.


(** No newline in a text. *)
Definition oneLine (s : string) : bool := negb (Contains s newline).

(** A file system that holds the given text at the given path, and nothing
    else. *)
Definition holding (path data : string) : Files :=
  {| ioutil_ReadFile := fun _ p =>
       if String.eqb p path then inl data
       else inr ("open " ++ p ++ ": no such file or directory");
     ioutil_WriteFile := fun _ _ _ => None |}.

Definition noFiles : Files :=
  {| ioutil_ReadFile := fun _ p =>
       inr ("open " ++ p ++ ": no such file or directory");
     ioutil_WriteFile := fun _ _ _ => None |}.

(** What [ReadLine] makes of a line. *)
Definition asRead (line : string) : string :=
  dropCR (takeBytes bufferSize line).

(** * Properties *)

(** ** Strings *)

Lemma append_cons (x : ascii) (a b : string) :
  String x a ++ b = String x (a ++ b).
Proof. reflexivity. Qed.

Lemma append_nil (b : string) : EmptyString ++ b = b.
Proof. reflexivity. Qed.

Lemma append_assoc (a b c : string) : (a ++ b) ++ c = a ++ (b ++ c).
Proof.
  induction a as [|x a IH]; [reflexivity|].
  now rewrite !append_cons, IH.
Qed.

Lemma append_empty_r (a : string) : a ++ EmptyString = a.
Proof.
  induction a as [|x a IH]; [reflexivity|]. now rewrite append_cons, IH.
Qed.

Lemma HasPrefix_cons (a b : ascii) (s p : string) :
  HasPrefix (String a s) (String b p) = Ascii.eqb a b && HasPrefix s p.
Proof. reflexivity. Qed.

Lemma HasPrefix_empty (s : string) : HasPrefix s EmptyString = true.
Proof. now destruct s. Qed.

Lemma HasPrefix_app (p q : string) : HasPrefix (p ++ q) p = true.
Proof.
  induction p as [|x p IH].
  - apply HasPrefix_empty.
  - rewrite append_cons. simpl. now rewrite Ascii.eqb_refl, IH.
Qed.

Lemma HasPrefix_inv (s p : string) :
  HasPrefix s p = true -> exists q, s = p ++ q.
Proof.
  revert s; induction p as [|x p IH]; intros s H.
  - exists s. reflexivity.
  - destruct s as [|a s]; simpl in H; [discriminate|].
    apply andb_true_iff in H as [Hx Hp].
    apply Ascii.eqb_eq in Hx; subst a.
    destruct (IH _ Hp) as [q ->]. now exists q.
Qed.

Lemma Contains_unfold (s sub : string) :
  Contains s sub =
  HasPrefix s sub ||
  match s with
  | EmptyString => false
  | String _ s' => Contains s' sub
  end.
Proof. destruct s; reflexivity. Qed.

Lemma Contains_app_l (a b sub : string) :
  Contains a sub = true -> Contains (a ++ b) sub = true.
Proof.
  induction a as [|x a IH]; intros H.
  - simpl in H. rewrite orb_false_r in H.
    destruct sub; [|discriminate].
    rewrite Contains_unfold. now destruct (EmptyString ++ b).
  - rewrite Contains_unfold in H. apply orb_true_iff in H as [H|H].
    + apply HasPrefix_inv in H as [q Hq].
      rewrite Hq, append_assoc, Contains_unfold, HasPrefix_app. reflexivity.
    + rewrite append_cons, Contains_unfold, (IH H). apply orb_true_r.
Qed.

Lemma Contains_app_r (a b sub : string) :
  Contains b sub = true -> Contains (a ++ b) sub = true.
Proof.
  intros H. induction a as [|x a IH]; [exact H|].
  rewrite append_cons, Contains_unfold, IH. apply orb_true_r.
Qed.

Lemma Contains_self (s q : string) : Contains (s ++ q) s = true.
Proof. rewrite Contains_unfold, HasPrefix_app. reflexivity. Qed.

(** Each statement of [CleanURL] leaves a string as it is when the text it
    looks for is not there. *)

Lemma replaceFrom_absent (old new s : string) :
  Contains s old = false -> replaceFrom old new O s = s.
Proof.
  induction s as [|a s IH]; intros H; [reflexivity|].
  rewrite Contains_unfold in H. apply orb_false_iff in H as [Hp Hc].
  cbn [replaceFrom]. rewrite Hp, (IH Hc). reflexivity.
Qed.

Lemma ReplaceAll_absent (s old new : string) :
  Contains s old = false -> ReplaceAll s old new = s.
Proof. apply replaceFrom_absent. Qed.

Lemma TrimSuffix_absent (s suf : string) :
  HasSuffix s suf = false -> TrimSuffix s suf = s.
Proof.
  induction s as [|a s IH]; simpl; intros H.
  - now destruct suf.
  - apply orb_false_iff in H as [He Hs]. rewrite He, (IH Hs). reflexivity.
Qed.

Lemma ampsReplaceAll_absent (s : string) :
  Contains s "&&" = false -> ampsReplaceAll s = s.
Proof.
  induction s as [|a s IH]; intros H; [reflexivity|].
  rewrite Contains_unfold in H. apply orb_false_iff in H as [Hp Hc].
  specialize (IH Hc). cbn [ampsReplaceAll].
  destruct (Ascii.eqb a "&") eqn:Ha.
  - destruct s as [|b s]; [reflexivity|].
    destruct (Ascii.eqb b "&") eqn:Hb.
    + simpl in Hp. rewrite Ha, Hb, HasPrefix_empty in Hp. discriminate.
    + now rewrite IH.
  - now rewrite IH.
Qed.

Lemma TrimRight_absent (s : string) (c : ascii) :
  HasSuffix s (String c EmptyString) = false -> TrimRight s c = s.
Proof.
  induction s as [|a s IH]; intros H; [reflexivity|].
  simpl in H. apply orb_false_iff in H as [He Hs].
  cbn [TrimRight]. rewrite (IH Hs).
  destruct s as [|b s]; [|reflexivity].
  destruct (Ascii.eqb a c) eqn:Hac; [|reflexivity].
  apply Ascii.eqb_eq in Hac. apply String.eqb_neq in He. now subst a.
Qed.

(** ** [CleanURL] *)

Lemma CleanURL_clean (u : string) : isClean u = true -> CleanURL u = u.
Proof.
  unfold isClean. rewrite !andb_true_iff, !negb_true_iff.
  intros [[[[[[[H1 H2] H3] H4] H5] H6] H7] H8].
  unfold CleanURL.
  rewrite (ReplaceAll_absent _ _ _ H1), (TrimSuffix_absent _ _ H2).
  rewrite (ReplaceAll_absent _ _ _ H3), (ReplaceAll_absent _ _ _ H4).
  rewrite (ReplaceAll_absent _ _ _ H5), (ampsReplaceAll_absent _ H6).
  rewrite (TrimRight_absent _ _ H7), (TrimRight_absent _ _ H8).
  reflexivity.
Qed.

(** C6, at its two inputs: [CleanURL] maps
    [http://example.com/a?feature=youtu.be&x=1] to
    [https://example.com/a?&x=1], with the ampersand of the parameter it
    took out still there, and leaves [https://example.com/a?x=1] as it is:
    the two canonical strings differ, and a seen set that holds one does
    not hold the other.  With the tracking parameter behind another one,
    as in [http://example.com/a?x=1&feature=youtu.be], the ampersand goes
    too and the canonical strings are equal. *)
Theorem CleanURL_tracking_parameter :
  CleanURL "http://example.com/a?feature=youtu.be&x=1" =
    "https://example.com/a?&x=1" /\
  CleanURL "https://example.com/a?x=1" = "https://example.com/a?x=1" /\
  CleanURL "http://example.com/a?feature=youtu.be&x=1" <>
    CleanURL "https://example.com/a?x=1" /\
  (CleanURL "https://example.com/a?x=1" ∉@{gset string}
     {[ CleanURL "http://example.com/a?feature=youtu.be&x=1" ]}) /\
  CleanURL "http://example.com/a?x=1&feature=youtu.be" =
    CleanURL "https://example.com/a?x=1".
Proof.
  split; [vm_compute; reflexivity|]. split; [vm_compute; reflexivity|].
  split; [vm_compute; discriminate|].
  split; [|vm_compute; reflexivity].
  rewrite elem_of_singleton. vm_compute. discriminate.
Qed.

(** *** The fixed points of [CleanURL]

    Each statement of [CleanURL] takes [k] pieces out of the string, and
    [k] is zero exactly when the text it looks for is absent. *)

Lemma weight_app (wt : ascii -> nat) (a b : string) :
  weight wt (a ++ b) = (weight wt a + weight wt b)%nat.
Proof.
  induction a as [|x a IH]; [reflexivity|].
  rewrite append_cons. simpl. rewrite IH. lia.
Qed.

Lemma replaceFrom_skip (old new p rest : string) :
  replaceFrom old new (String.length p) (p ++ rest) = replaceFrom old new O rest.
Proof.
  induction p as [|c p IH]; [reflexivity|].
  rewrite append_cons. exact IH.
Qed.

Lemma ReplaceAll_match (old new rest : string) :
  old <> EmptyString ->
  ReplaceAll (old ++ rest) old new = new ++ ReplaceAll rest old new.
Proof.
  intros Hold. destruct old as [|b old]; [now destruct Hold|].
  unfold ReplaceAll. rewrite append_cons. cbn [replaceFrom].
  rewrite <- append_cons, HasPrefix_app. cbn [String.length Nat.pred].
  now rewrite replaceFrom_skip.
Qed.

Lemma ReplaceAll_no_match (old new : string) (a : ascii) (s : string) :
  HasPrefix (String a s) old = false ->
  ReplaceAll (String a s) old new = String a (ReplaceAll s old new).
Proof. intros H. unfold ReplaceAll. cbn [replaceFrom]. now rewrite H. Qed.

(** Induction along the scan of [ReplaceAll]. *)
Lemma ReplaceAll_scan (old : string) (P : string -> Prop) :
  old <> EmptyString ->
  P EmptyString ->
  (forall rest, P rest -> P (old ++ rest)) ->
  (forall a s, HasPrefix (String a s) old = false -> P s -> P (String a s)) ->
  forall s, P s.
Proof.
  intros Hold Hnil Hmatch Hskip s.
  assert (H : forall n s, (String.length s <= n)%nat -> P s).
  { clear s. induction n as [|n IH]; intros s Hlen.
    - destruct s; [exact Hnil|simpl in Hlen; lia].
    - destruct s as [|a s]; [exact Hnil|].
      destruct (HasPrefix (String a s) old) eqn:Hp.
      + apply HasPrefix_inv in Hp as [rest Hrest]. rewrite Hrest.
        apply Hmatch, IH.
        assert (Hl : String.length (String a s) =
                     (String.length old + String.length rest)%nat).
        { rewrite Hrest. clear. induction old as [|c old IH];
            [reflexivity|]. rewrite append_cons. simpl. now rewrite IH. }
        destruct old; [now destruct Hold|]. simpl in Hl, Hlen. lia.
      + apply Hskip; [exact Hp|]. apply IH. simpl in Hlen. lia. }
  exact (H _ s (le_n _)).
Qed.

Lemma Contains_empty (sub : string) :
  sub <> EmptyString -> Contains EmptyString sub = false.
Proof. now destruct sub. Qed.

Lemma ReplaceAll_weight (wt : ascii -> nat) (old new : string) :
  old <> EmptyString ->
  forall s, exists k,
    (weight wt (ReplaceAll s old new) + k * weight wt old =
     weight wt s + k * weight wt new)%nat /\
    (k = O <-> Contains s old = false).
Proof.
  intros Hold. apply (ReplaceAll_scan old); [exact Hold| | |].
  - exists O. split; [reflexivity|]. split; [|reflexivity].
    intros _. now apply Contains_empty.
  - intros rest (k & Hk & _). exists (S k). split.
    + rewrite (ReplaceAll_match old new rest Hold), !weight_app. simpl. lia.
    + rewrite Contains_self. split; discriminate.
  - intros a s Hp (k & Hk & Hiff). exists k. split.
    + rewrite (ReplaceAll_no_match old new a s Hp). simpl. lia.
    + rewrite Contains_unfold, Hp. exact Hiff.
Qed.

Ltac none_taken := split; [lia|split; intros _; reflexivity].

Lemma TrimSuffix_weight (wt : ascii -> nat) (suf s : string) :
  exists k,
    (weight wt (TrimSuffix s suf) + k * weight wt suf = weight wt s)%nat /\
    (k = O <-> HasSuffix s suf = false).
Proof.
  induction s as [|a s (k & Hk & Hiff)].
  - destruct suf as [|c suf].
    + exists 1%nat. simpl. split; [reflexivity|]. split; discriminate.
    + exists O. simpl. none_taken.
  - cbn [TrimSuffix HasSuffix].
    destruct (String.eqb_spec (String a s) suf) as [<-|Hne].
    + exists 1%nat. cbn [weight]. split; [lia|]. split; discriminate.
    + exists k. cbn [weight orb]. split; [lia|exact Hiff].
Qed.

Lemma ampsReplaceAll_weight (wt : ascii -> nat) (s : string) :
  exists k,
    (weight wt (ampsReplaceAll s) + k * wt "&"%char = weight wt s)%nat /\
    (k = O <-> Contains s "&&" = false).
Proof.
  induction s as [|a s (k & Hk & Hiff)].
  - exists O. simpl. none_taken.
  - rewrite Contains_unfold. cbn [ampsReplaceAll].
    destruct (Ascii.eqb_spec a "&") as [->|Ha].
    + destruct s as [|b s].
      * exists O. simpl. none_taken.
      * destruct (Ascii.eqb_spec b "&") as [->|Hb].
        -- exists (S k). split; [cbn [weight] in *; lia|].
           rewrite !HasPrefix_cons, HasPrefix_empty. split; discriminate.
        -- exists k. split; [cbn [weight] in *; lia|].
           apply Ascii.eqb_neq in Hb.
           rewrite !HasPrefix_cons, Hb. exact Hiff.
    + exists k. split; [cbn [weight] in *; lia|].
      apply Ascii.eqb_neq in Ha.
      rewrite HasPrefix_cons, Ha. exact Hiff.
Qed.

Lemma TrimRight_weight (wt : ascii -> nat) (c : ascii) (s : string) :
  exists k,
    (weight wt (TrimRight s c) + k * wt c = weight wt s)%nat /\
    (k = O <-> HasSuffix s (String c EmptyString) = false).
Proof.
  induction s as [|a s (k & Hk & Hiff)].
  - exists O. simpl. none_taken.
  - cbn [TrimRight HasSuffix].
    destruct (String.eqb_spec (String a s) (String c EmptyString)) as [Heq|Hne].
    + (* the string is the byte itself *)
      injection Heq as -> ->. exists 1%nat. simpl.
      rewrite Ascii.eqb_refl. simpl. split; [lia|]. split; discriminate.
    + cbn [orb]. destruct (TrimRight s c) as [|b r] eqn:Htrim.
      * destruct (Ascii.eqb_spec a c) as [->|Hac].
        -- exists (S k). split; [cbn [weight] in *; lia|].
           split; [discriminate|]. intros Hsuf. exfalso.
           rewrite (TrimRight_absent _ _ Hsuf) in Htrim. subst s.
           now destruct Hne.
        -- exists k. split; [cbn [weight] in *; lia|exact Hiff].
      * exists k. split; [cbn [weight] in *; lia|exact Hiff].
Qed.

(** The strings that [CleanURL] leaves as they are are the clean ones. *)
Lemma CleanURL_fixed_point (v : string) :
  CleanURL v = v <-> isClean v = true.
Proof.
  split; [|apply CleanURL_clean].
  unfold CleanURL. intros Hfix.
  set (s1 := ReplaceAll v "http://" "https://") in *.
  set (s2 := TrimSuffix s1 "&a") in *.
  set (s3 := ReplaceAll s2 "feature=g-u" "") in *.
  set (s4 := ReplaceAll s3 "feature=youtu.be" "") in *.
  set (s5 := ReplaceAll s4 "feature=youtube_gdata" "") in *.
  set (s6 := ampsReplaceAll s5) in *.
  set (s7 := TrimRight s6 "&") in *.
  (* the number of [s] *)
  destruct (ReplaceAll_weight isS "http://" "https://" ltac:(discriminate) v)
    as (k1 & Hs1 & Hk1). fold s1 in Hs1.
  destruct (TrimSuffix_weight isS "&a" s1) as (j2 & Hs2 & _). fold s2 in Hs2.
  destruct (ReplaceAll_weight isS "feature=g-u" "" ltac:(discriminate) s2)
    as (j3 & Hs3 & _). fold s3 in Hs3.
  destruct (ReplaceAll_weight isS "feature=youtu.be" "" ltac:(discriminate) s3)
    as (j4 & Hs4 & _). fold s4 in Hs4.
  destruct (ReplaceAll_weight isS "feature=youtube_gdata" ""
              ltac:(discriminate) s4) as (j5 & Hs5 & _). fold s5 in Hs5.
  destruct (ampsReplaceAll_weight isS s5) as (j6 & Hs6 & _). fold s6 in Hs6.
  destruct (TrimRight_weight isS "&" s6) as (j7 & Hs7 & _). fold s7 in Hs7.
  destruct (TrimRight_weight isS "/" s7) as (j8 & Hs8 & _).
  rewrite Hfix in Hs8.
  change (weight isS "http://") with 0%nat in Hs1.
  change (weight isS "https://") with 1%nat in Hs1.
  change (weight isS "&a") with 0%nat in Hs2.
  change (weight isS "feature=g-u") with 0%nat in Hs3.
  change (weight isS "feature=youtu.be") with 0%nat in Hs4.
  change (weight isS "feature=youtube_gdata") with 0%nat in Hs5.
  change (weight isS "") with 0%nat in Hs3, Hs4, Hs5.
  change (isS "&") with 0%nat in Hs6, Hs7.
  change (isS "/") with 0%nat in Hs8.
  assert (Hzero : k1 = O) by lia.
  assert (H1 : Contains v "http://" = false) by now apply Hk1.
  assert (E1 : s1 = v) by (apply ReplaceAll_absent; exact H1).
  (* the length *)
  destruct (TrimSuffix_weight one "&a" s1) as (k2 & Hl2 & Hk2). fold s2 in Hl2.
  destruct (ReplaceAll_weight one "feature=g-u" "" ltac:(discriminate) s2)
    as (k3 & Hl3 & Hk3). fold s3 in Hl3.
  destruct (ReplaceAll_weight one "feature=youtu.be" "" ltac:(discriminate) s3)
    as (k4 & Hl4 & Hk4). fold s4 in Hl4.
  destruct (ReplaceAll_weight one "feature=youtube_gdata" ""
              ltac:(discriminate) s4) as (k5 & Hl5 & Hk5). fold s5 in Hl5.
  destruct (ampsReplaceAll_weight one s5) as (k6 & Hl6 & Hk6). fold s6 in Hl6.
  destruct (TrimRight_weight one "&" s6) as (k7 & Hl7 & Hk7). fold s7 in Hl7.
  destruct (TrimRight_weight one "/" s7) as (k8 & Hl8 & Hk8).
  rewrite Hfix in Hl8. rewrite E1 in *.
  change (weight one "&a") with 2%nat in Hl2.
  change (weight one "feature=g-u") with 11%nat in Hl3.
  change (weight one "feature=youtu.be") with 16%nat in Hl4.
  change (weight one "feature=youtube_gdata") with 21%nat in Hl5.
  change (weight one "") with 0%nat in Hl3, Hl4, Hl5.
  change (one "&") with 1%nat in Hl6, Hl7.
  change (one "/") with 1%nat in Hl8.
  assert (Hk : k2 = O /\ k3 = O /\ k4 = O /\ k5 = O /\ k6 = O /\ k7 = O /\
               k8 = O) by lia.
  destruct Hk as (-> & -> & -> & -> & -> & -> & ->).
  assert (H2 : HasSuffix v "&a" = false) by now apply Hk2.
  assert (E2 : s2 = v)
    by (unfold s2; rewrite E1; apply TrimSuffix_absent; exact H2).
  rewrite E2 in *.
  assert (H3 : Contains v "feature=g-u" = false) by now apply Hk3.
  assert (E3 : s3 = v)
    by (unfold s3; rewrite E2; apply ReplaceAll_absent; exact H3).
  rewrite E3 in *.
  assert (H4 : Contains v "feature=youtu.be" = false) by now apply Hk4.
  assert (E4 : s4 = v)
    by (unfold s4; rewrite E3; apply ReplaceAll_absent; exact H4).
  rewrite E4 in *.
  assert (H5 : Contains v "feature=youtube_gdata" = false) by now apply Hk5.
  assert (E5 : s5 = v)
    by (unfold s5; rewrite E4; apply ReplaceAll_absent; exact H5).
  rewrite E5 in *.
  assert (H6 : Contains v "&&" = false) by now apply Hk6.
  assert (E6 : s6 = v)
    by (unfold s6; rewrite E5; apply ampsReplaceAll_absent; exact H6).
  rewrite E6 in *.
  assert (H7 : HasSuffix v "&" = false) by now apply Hk7.
  assert (E7 : s7 = v)
    by (unfold s7; rewrite E6; apply TrimRight_absent; exact H7).
  rewrite E7 in *.
  assert (H8 : HasSuffix v "/" = false) by now apply Hk8.
  unfold isClean. now rewrite H1, H2, H3, H4, H5, H6, H7, H8.
Qed.

(** C5 as stated fails: a second pass removes the [&a] that the first pass
    uncovered. *)
Lemma CleanURL_not_idempotent :
  CleanURL (CleanURL "https://example.com/watch?v=1&a&a") <>
  CleanURL "https://example.com/watch?v=1&a&a".
Proof. vm_compute. discriminate. Qed.

(** C5, amended: [CleanURL(CleanURL(u)) == CleanURL(u)] holds exactly for
    the inputs [u] whose canonical string is clean, that is, holds no
    [http://], none of the three tracking parameters and no [&&], and ends
    in none of [&a], [&] and [/]. *)
Theorem CleanURL_idempotent_iff_clean (u : string) :
  CleanURL (CleanURL u) = CleanURL u <-> isClean (CleanURL u) = true.
Proof. apply CleanURL_fixed_point. Qed.

(** ** [doJSON] *)

Lemma Contains_refl (s : string) : Contains s s = true.
Proof. rewrite <- (append_empty_r s) at 1. apply Contains_self. Qed.

Lemma Contains_inv (s sub : string) :
  Contains s sub = true -> exists p q, s = p ++ sub ++ q.
Proof.
  induction s as [|a s IH]; intros H; rewrite Contains_unfold in H;
    apply orb_true_iff in H as [H|H]; try discriminate.
  - apply HasPrefix_inv in H as [q Hq]. now exists EmptyString, q.
  - apply HasPrefix_inv in H as [q Hq]. now exists EmptyString, q.
  - destruct (IH H) as (p & q & ->). now exists (String a p), q.
Qed.

Lemma Contains_trans (s t u : string) :
  Contains s t = true -> Contains t u = true -> Contains s u = true.
Proof.
  intros Hst Htu.
  apply Contains_inv in Hst as (p & q & ->).
  apply Contains_inv in Htu as (p' & q' & ->).
  apply Contains_app_r. rewrite !append_assoc.
  apply Contains_app_r, Contains_self.
Qed.

Lemma plainByte_quoteASCII (c : ascii) :
  plainByte c = true ->
  (N_of_ascii c <? 128)%N = true /\ quoteASCII c = String c EmptyString.
Proof.
  unfold plainByte, quoteASCII. cbv zeta.
  rewrite !andb_true_iff, !negb_true_iff. intros [[[Hlo Hhi] Hq] Hb].
  split.
  - apply N.ltb_lt. apply N.ltb_lt in Hhi. lia.
  - now rewrite Hq, Hb, Hlo, Hhi.
Qed.

Lemma quoteFrom_plain (high : HighRune) (s : string) :
  plain s = true -> quoteFrom high O s = s.
Proof.
  induction s as [|c s IH]; [reflexivity|]. simpl.
  intros H. apply andb_true_iff in H as [Hc Hs].
  destruct (plainByte_quoteASCII c Hc) as [-> ->].
  now rewrite append_cons, append_nil, (IH Hs).
Qed.

(** On a plain text [%q] adds the two quotes and nothing else. *)
Lemma Quote_plain (high : HighRune) (s : string) :
  plain s = true ->
  Quote high s = String dquote (s ++ String dquote EmptyString).
Proof. intros H. unfold Quote. now rewrite (quoteFrom_plain high s H). Qed.

Lemma Contains_Quote_plain (high : HighRune) (s : string) :
  plain s = true -> Contains (Quote high s) s = true.
Proof.
  intros H. rewrite (Quote_plain high s H).
  change (String dquote (s ++ String dquote EmptyString))
    with (String dquote EmptyString ++ (s ++ String dquote EmptyString)).
  apply Contains_app_r, Contains_self.
Qed.

Ltac find_part :=
  first [ apply Contains_self
        | apply Contains_refl
        | apply Contains_app_r; find_part ].

Lemma statusError_quotes (high : HighRune) (resp : Response) (k : string) :
  In k errorHeaders ->
  Contains (statusError high resp)
           (Quote high (Header_Get (RespHeader resp) k)) = true.
Proof.
  unfold errorHeaders, statusError. cbv zeta. simpl In.
  intros H; repeat (destruct H as [<-|H]; [find_part|]); destruct H.
Qed.

Lemma statusError_code (high : HighRune) (resp : Response) :
  HasPrefix (statusError high resp)
            ("got response " ++ itoa (StatusCode resp) ++ ";") = true.
Proof.
  unfold statusError. cbv zeta.
  set (rest := Quote high _ ++ _).
  change ("; X-Error=" ++ rest) with (";" ++ (" X-Error=" ++ rest)).
  set (tail := " X-Error=" ++ rest).
  replace ("got response " ++ itoa (StatusCode resp) ++ ";" ++ tail)
    with (("got response " ++ itoa (StatusCode resp) ++ ";") ++ tail)
    by now rewrite !append_assoc.
  apply HasPrefix_app.
Qed.

(** C9 as stated fails: a header value with a double quote in it is in the
    text only in its escaped form. *)
Lemma doJSON_error_escapes_quote :
  let env := sampleEnvWith (inl {| List := [] |})
               (fun _ => HTTPOk (forbidden quotedValue))
               (fun url => HTTPOk (okResponse url))
               (fun url => HTTPOk (okResponse url))
               (fun _ res => (res, None)) None in
  exists e,
    fst (doJSON env (decodeModify env) sendRequest emptyModifyResult
           emptyWorld) = Returns (emptyModifyResult, Some e) /\
    Header_Get (RespHeader (forbidden quotedValue)) "X-Error" = quotedValue /\
    Contains e quotedValue = false.
Proof.
  eexists. split; [vm_compute; reflexivity|].
  split; vm_compute; reflexivity.
Qed.

(** C9, amended: on a response whose status is not 200, [doJSON] returns
    an error whose text starts with the status code and holds, for
    [X-Error], [X-Error-Code] and the six rate-limit headers, the value as
    [%q] renders it (the first value of the header, or the empty text); it
    holds the exact value whenever the value is printable ASCII without
    double quote and backslash, such as [user not authorized]. *)
Theorem doJSON_status_error {T : Type} (env : Env)
    (decode : Body -> T -> T * option error)
    (req : Request) (res : T) (w : World) (resp : Response) :
  client_Do env (events w) (jsonRequest req) = HTTPOk resp ->
  StatusCode resp <> 200 ->
  doJSON env decode req res w =
    (Returns (res, Some (statusError (highRune env) resp)),
     logged w [EvDo (jsonRequest req)]) /\
  HasPrefix (statusError (highRune env) resp)
            ("got response " ++ itoa (StatusCode resp) ++ ";") = true /\
  forall k, In k errorHeaders ->
    let v := Header_Get (RespHeader resp) k in
    Contains (statusError (highRune env) resp) (Quote (highRune env) v) = true /\
    (plain v = true -> Contains (statusError (highRune env) resp) v = true).
Proof.
  intros Hdo Hcode. split; [|split].
  - unfold doJSON, bind, DefaultClient_Do, call. fold (jsonRequest req).
    rewrite Hdo. apply Z.eqb_neq in Hcode. rewrite Hcode. reflexivity.
  - apply statusError_code.
  - intros k Hk v. split; [now apply statusError_quotes|].
    intros Hv. eapply Contains_trans; [exact (statusError_quotes _ _ k Hk)|].
    now apply Contains_Quote_plain.
Qed.

Lemma doJSON_status_error_witness :
  let env := sampleEnvWith (inl {| List := [] |})
               (fun _ => HTTPOk (forbidden "user not authorized"))
               (fun url => HTTPOk (okResponse url))
               (fun url => HTTPOk (okResponse url))
               (fun _ res => (res, None)) None in
  let resp := forbidden "user not authorized" in
  client_Do env (events emptyWorld) (jsonRequest sendRequest) = HTTPOk resp /\
  StatusCode resp <> 200 /\
  plain (Header_Get (RespHeader resp) "X-Error") = true /\
  Contains (statusError (highRune env) resp) "user not authorized" = true.
Proof.
  intros env resp.
  split; [reflexivity|]. split; [discriminate|].
  split; [vm_compute; reflexivity|].
  pose proof (doJSON_status_error env (decodeModify env) sendRequest
                emptyModifyResult emptyWorld resp eq_refl
                ltac:(discriminate)) as (_ & _ & H).
  destruct (H "X-Error" ltac:(left; reflexivity)) as [_ Hv].
  apply Hv. vm_compute; reflexivity.
Defined.

(** ** [Client.Modify] *)

Lemma logged_nil (w : World) : logged w [] = w.
Proof. destruct w. unfold logged. simpl. now rewrite app_nil_r. Qed.

Lemma logged_logged (w : World) (a b : list Event) :
  logged (logged w a) b = logged w (a ++ b)%list.
Proof. unfold logged. simpl. now rewrite app_assoc. Qed.

Lemma logFailed_returns (high : HighRune) (actions : list (ptr Action))
    (results : list bool) :
  forall (i : nat) (w : World),
    (forall j, nth_error results j = Some false ->
               exists a, nth_error actions (i + j) = Some (Some a)) ->
    logFailed high actions i results w =
      (Returns tt, logged w (failureLines high actions i results)).
Proof.
  induction results as [|r rest IH]; intros i w H.
  - simpl. unfold ret. now rewrite logged_nil.
  - cbn [logFailed failureLines]. unfold bind.
    assert (Hrest : forall j, nth_error rest j = Some false ->
                      exists a, nth_error actions (S i + j) = Some (Some a)).
    { intros j Hj. specialize (H (S j) Hj).
      now replace (i + S j)%nat with (S i + j)%nat in H by lia. }
    destruct r; simpl.
    + apply (IH (S i) w Hrest).
    + destruct (H O eq_refl) as [a Ha].
      replace (i + 0)%nat with i in Ha by lia. rewrite Ha.
      unfold emit. rewrite (IH (S i) _ Hrest), logged_logged. reflexivity.
Qed.

Lemma logFailed_out_of_range (high : HighRune) (actions : list (ptr Action))
    (results : list bool) :
  forall (i j : nat) (w : World),
    nth_error results j = Some false ->
    (length actions <= i + j)%nat ->
    (forall k, (k < j)%nat -> nth_error results k = Some false ->
               exists a, nth_error actions (i + k) = Some (Some a)) ->
    logFailed high actions i results w =
      (Panics (indexOutOfRange (i + j) (length actions)),
       logged w (failureLines high actions i (firstn j results))).
Proof.
  induction results as [|r rest IH]; intros i j w Hj Hlen Hbefore.
  - destruct j; discriminate.
  - destruct j as [|j].
    + simpl in Hj. injection Hj as ->.
      cbn [logFailed firstn failureLines]. unfold bind. simpl.
      replace (i + 0)%nat with i in * by lia.
      assert (Hnone : nth_error actions i = None)
        by now apply nth_error_None.
      rewrite Hnone. unfold panic. now rewrite logged_nil.
    + simpl in Hj.
      assert (IH' := IH (S i) j).
      replace (S i + j)%nat with (i + S j)%nat in IH' by lia.
      assert (Hrest : forall k, (k < j)%nat ->
                        nth_error rest k = Some false ->
                        exists a, nth_error actions (S i + k) = Some (Some a)).
      { intros k Hk Hf. specialize (Hbefore (S k) ltac:(lia) Hf).
        now replace (i + S k)%nat with (S i + k)%nat in Hbefore by lia. }
      cbn [logFailed firstn failureLines]. unfold bind.
      destruct r; simpl.
      * apply (IH' w Hj Hlen Hrest).
      * destruct (Hbefore O ltac:(lia) eq_refl) as [a Ha].
        replace (i + 0)%nat with i in Ha by lia. rewrite Ha.
        unfold emit. rewrite (IH' _ Hj Hlen Hrest), logged_logged.
        reflexivity.
Qed.

(** C10 as stated fails: with more [action_results] than actions and all
    of them [true], [Modify] indexes nothing and returns; and with as many
    results as actions, a [false] at the place of a nil action ends in a
    nil dereference, not in a return. *)
Lemma Modify_surplus_true_results_returns :
  fst (Modify (answering [true; true]) sampleClient [NewDeleteAction 1]
         emptyWorld) =
  Returns (Some {| ActionResults := [true; true]; ActionErrors := [];
                   ModifyResult_Status := 1 |}, None) /\
  fst (Modify (answering [false]) sampleClient [None] emptyWorld) =
  Panics nilDereference.
Proof. vm_compute. split; reflexivity. Qed.

(** C10, amended: [Modify] indexes the actions passed at each position of
    [ActionResults] whose result is [false].  After a successful response,
    (a) with at most as many results as actions, none of them a nil
    pointer, and more generally (b) whenever each position with a [false]
    holds an action, [Modify] returns the result and a nil error and only
    logs the failures; (c) when the first [false] that holds no action
    stands at or after the number of actions, [Modify] panics with an
    index out of range.  More results than actions alone, all surplus ones
    [true], fall under (b). *)
Theorem Modify_action_results (env : Env) (c : Client)
    (actions : list (ptr Action)) (w w1 : World) (res : ModifyResult) :
  PostJSON env (marshalModify env) (decodeModify env) "/v3/send"
    (modifyData c actions) emptyModifyResult (logged w [EvModify actions]) =
    (Returns (res, None), w1) ->
  let returned :=
    Modify env c actions w =
      (Returns (Some res, None),
       logged w1 (failureLines (highRune env) actions O (ActionResults res))) in
  ((length (ActionResults res) <= length actions)%nat ->
   Forall (fun a => a <> None) actions -> returned) /\
  ((forall j, nth_error (ActionResults res) j = Some false ->
              exists a, nth_error actions j = Some (Some a)) -> returned) /\
  (forall j,
     nth_error (ActionResults res) j = Some false ->
     (length actions <= j)%nat ->
     (forall k, (k < j)%nat -> nth_error (ActionResults res) k = Some false ->
                exists a, nth_error actions k = Some (Some a)) ->
     Modify env c actions w =
       (Panics (indexOutOfRange j (length actions)),
        logged w1 (failureLines (highRune env) actions O
                     (firstn j (ActionResults res))))).
Proof.
  intros Hpost returned.
  assert (Hb : (forall j, nth_error (ActionResults res) j = Some false ->
                  exists a, nth_error actions j = Some (Some a)) -> returned).
  { intros H. unfold returned, Modify, bind, emit.
    fold (modifyData c actions). rewrite Hpost.
    now rewrite (logFailed_returns _ _ _ O w1 H). }
  split; [|split]; [|exact Hb|].
  - intros Hlen Hnonnil. apply Hb. intros j Hj.
    assert (Hlt : (j < length actions)%nat).
    { assert (Hsome : nth_error (ActionResults res) j <> None)
        by now rewrite Hj.
      apply nth_error_Some in Hsome. lia. }
    destruct (nth_error actions j) as [[a|]|] eqn:Ha.
    + now exists a.
    + apply nth_error_In in Ha.
      rewrite List.Forall_forall in Hnonnil. now destruct (Hnonnil _ Ha).
    + apply nth_error_None in Ha. lia.
  - intros j Hj Hlen Hbefore. unfold Modify, bind, emit.
    fold (modifyData c actions). rewrite Hpost.
    now rewrite (logFailed_out_of_range _ _ _ O j w1 Hj Hlen Hbefore).
Qed.

Lemma Modify_action_results_witness :
  let env := answering [false; true] in
  let actions := [NewDeleteAction 1; NewDeleteAction 2] in
  let posting :=
    PostJSON env (marshalModify env) (decodeModify env) "/v3/send"
      (modifyData sampleClient actions) emptyModifyResult
      (logged emptyWorld [EvModify actions]) in
  let res := {| ActionResults := [false; true]; ActionErrors := [];
                ModifyResult_Status := 1 |} in
  posting = (Returns (res, None), snd posting) /\
  (length (ActionResults res) <= length actions)%nat /\
  Forall (fun a => a <> None) actions /\
  Modify env sampleClient actions emptyWorld =
    (Returns (Some res, None),
     logged (snd posting)
       (failureLines (highRune env) actions O (ActionResults res))).
Proof.
  intros env actions posting res.
  assert (Hpost : posting = (Returns (res, None), snd posting))
    by (vm_compute; reflexivity).
  assert (Hlen : (length (ActionResults res) <= length actions)%nat)
    by (simpl; lia).
  assert (Hnonnil : Forall (fun a : ptr Action => a <> None) actions)
    by (repeat constructor; discriminate).
  split; [exact Hpost|]. split; [exact Hlen|]. split; [exact Hnonnil|].
  exact (proj1 (Modify_action_results env sampleClient actions emptyWorld
                  (snd posting) res Hpost) Hlen Hnonnil).
Defined.

(** ** The events of [confirm] and [Modify] *)

Lemma audit_app (a b : list Event) : audit (a ++ b) = (audit a ++ audit b)%list.
Proof. apply List.filter_app. Qed.

Lemma confirmLoop_adds (env : Env) (s : string) (lines : list string) :
  forall w, exists evs,
    events (snd (confirmLoop env s lines w)) = (events w ++ evs)%list /\
    forallb written evs = true /\
    (fst (confirmLoop env s lines w) = Returns true \/
     fst (confirmLoop env s lines w) = Returns false \/
     fst (confirmLoop env s lines w) = Exits 1).
Proof.
  induction lines as [|line rest IH]; intros w; cbn [confirmLoop].
  - eexists. split; [|split]; [| |right; right; reflexivity].
    + simpl. rewrite <- app_assoc. reflexivity.
    + reflexivity.
  - destruct (isOneOf _ ["y"; "yes"]).
    { eexists. split; [|split]; [reflexivity|reflexivity|now left]. }
    destruct (isOneOf _ ["n"; "no"]).
    { eexists. split; [|split]; [reflexivity|reflexivity|right; now left]. }
    destruct (isOneOf _ ["q"; "quit"]).
    { eexists. split; [|split]; [| |right; right; reflexivity].
      - simpl. rewrite <- app_assoc. reflexivity.
      - reflexivity. }
    destruct (IH (logged w [EvStdout (s ++ " [y/n]: ")])) as (evs & He & Ha & Ho).
    eexists. split; [|split]; [| |exact Ho].
    + rewrite He. simpl. rewrite <- app_assoc. reflexivity.
    + simpl. exact Ha.
Qed.

Lemma written_quiet (evs : list Event) :
  forallb written evs = true -> audit evs = [] /\ posts evs = [].
Proof.
  induction evs as [|e evs IH]; [auto|]. simpl.
  intros H. apply andb_true_iff in H as [He Hevs].
  destruct (IH Hevs) as [Ha Hp]. unfold audit, posts in *. simpl.
  destruct e; try discriminate; simpl; auto.
Qed.

(** A call of [confirm]: one [EvConfirm], then only the prompt line, once
    for each reply read, and what goes to standard error. *)
Lemma confirm_events (env : Env) (s : string) (w : World) :
  exists evs,
    events (snd (confirm env s w)) = (events w ++ EvConfirm s :: evs)%list /\
    audit evs = [] /\ posts evs = [] /\
    (fst (confirm env s w) = Returns true \/
     fst (confirm env s w) = Returns false \/
     fst (confirm env s w) = Exits 1).
Proof.
  unfold confirm.
  destruct (confirmLoop_adds env s (stdin w) (logged w [EvConfirm s]))
    as (evs & He & Hw & Ho).
  destruct (written_quiet evs Hw) as [Ha Hp].
  exists evs. split; [|auto].
  rewrite He. simpl. now rewrite <- app_assoc.
Qed.

Lemma logFailed_adds (high : HighRune) (actions : list (ptr Action))
    (results : list bool) :
  forall i w, exists evs,
    events (snd (logFailed high actions i results w)) = (events w ++ evs)%list /\
    forallb written evs = true /\
    (fst (logFailed high actions i results w) = Returns tt \/
     exists msg, fst (logFailed high actions i results w) = Panics msg).
Proof.
  induction results as [|r rest IH]; intros i w.
  - exists []. simpl. rewrite app_nil_r. auto.
  - cbn [logFailed]. unfold bind.
    destruct r; simpl.
    + apply IH.
    + destruct (nth_error actions i) as [[a|]|].
      * unfold emit.
        destruct (IH (S i) (logged w [EvLog ("Action " ++
                    Quote high (Action_Action a) ++ " on item " ++
                    itoa (Action_ItemID a) ++ " failed")]))
          as (evs & He & Ha & Ho).
        eexists. split; [|split]; [| |exact Ho].
        -- rewrite He. simpl. rewrite <- app_assoc. reflexivity.
        -- simpl. exact Ha.
      * exists []. simpl. rewrite app_nil_r. eauto.
      * exists []. simpl. rewrite app_nil_r. eauto.
Qed.

Lemma Modify_events (env : Env) (c : Client) (actions : list (ptr Action))
    (w : World) :
  exists evs,
    events (snd (Modify env c actions w)) =
      (events w ++ EvModify actions :: evs)%list /\
    audit evs = [] /\
    posts evs = modifyPosts env c actions /\
    ((exists r, fst (Modify env c actions w) = Returns r) \/
     exists msg, fst (Modify env c actions w) = Panics msg).
Proof.
  unfold Modify, PostJSON, doJSON, DefaultClient_Do, call, bind, emit.
  fold (modifyData c actions). unfold modifyPosts, modifyRequest.
  destruct (marshalModify env _) as [body [err|]].
  { exists []. simpl. eauto 6. }
  simpl. fold (jsonRequest {| Method := "POST"; URL := Origin ++ "/v3/send";
                              ReqHeader := []; ReqBody := body |}).
  destruct (client_Do env _ _) as [resp|resp err].
  2:{ eexists [_]. simpl. rewrite <- app_assoc. eauto 6. }
  destruct (negb (StatusCode resp =? 200)).
  { eexists [_]. simpl. rewrite <- app_assoc. eauto 6. }
  simpl. destruct (decodeModify env _ _) as [res [err|]].
  { eexists [_]. simpl. rewrite <- app_assoc. eauto 6. }
  match goal with
  | |- context [logFailed ?h ?a ?i ?r ?w0] =>
      destruct (logFailed_adds h a r i w0) as (evs & He & Hw & Ho);
      destruct (logFailed h a i r w0) as [out w1] eqn:Hrun
  end.
  simpl in He, Ho. destruct (written_quiet evs Hw) as [Ha Hp].
  exists (EvDo (jsonRequest
            {| Method := "POST"; URL := Origin ++ "/v3/send";
               ReqHeader := []; ReqBody := body |}) :: evs).
  destruct Ho as [->|[msg ->]]; simpl; rewrite He, <- !app_assoc;
    (split; [reflexivity|]); (split; [exact Ha|]);
    (split; [unfold posts in *; simpl; now rewrite Hp|eauto]).
Qed.

Lemma reportModify_adds (env : Env) (r : ptr ModifyResult * option error)
    (w : World) :
  exists evs,
    events (snd (reportModify env r w)) = (events w ++ evs)%list /\
    forallb written evs = true /\
    fst (reportModify env r w) = Returns tt.
Proof.
  destruct r as [res [err|]]; simpl.
  - eexists. split; [reflexivity|]. auto.
  - exists []. rewrite app_nil_r. auto.
Qed.

Lemma posts_app (a b : list Event) : posts (a ++ b) = (posts a ++ posts b)%list.
Proof. apply List.filter_app. Qed.

(** [Modify] and then the report, as [commandList] writes them: an error
    that [Modify] returns is printed, and the run goes on. *)
Lemma Modify_report_events (env : Env) (c : Client)
    (actions : list (ptr Action)) (w : World) :
  let run := (r <- Modify env c actions ;; reportModify env r) w in
  exists evs,
    events (snd run) = (events w ++ EvModify actions :: evs)%list /\
    audit evs = [] /\
    posts evs = modifyPosts env c actions /\
    (fst run = Returns tt \/ exists msg, fst run = Panics msg).
Proof.
  destruct (Modify_events env c actions w) as (evs & He & Ha & Hp & Ho).
  unfold bind.
  destruct (Modify env c actions w) as [out w1]. simpl in He, Ho.
  destruct Ho as [[r ->]|[msg ->]].
  - destruct (reportModify_adds env r w1) as (evs' & He' & Hw' & Ho').
    destruct (written_quiet evs' Hw') as [Ha' Hp'].
    exists (evs ++ evs')%list. cbv zeta.
    rewrite He', He, <- app_assoc, audit_app, posts_app, Ha, Ha', Hp', Hp.
    rewrite !app_nil_r. auto.
  - exists evs. simpl. split; [exact He|]. split; [exact Ha|].
    split; [exact Hp|]. right. now exists msg.
Qed.

(** ** [commandList] *)


(** One pass of the loop on an item whose canonical URL is new, without
    [--cull]: the item is printed and kept. *)
Lemma cullLoop_keeps (env : Env) (conf : Config) (client : Client)
    (tpl : Template Item) (n i : nat) (item : Item) (rest : list Item)
    (seen : gset string) (w : World) :
  Cull conf = false ->
  snd (tpl item) = None ->
  CleanURL (Item_URL item) ∉ seen ->
  cullLoop env conf client tpl n i (item :: rest) seen w =
  cullLoop env conf client tpl n (S i) rest
    ({[ CleanURL (Item_URL item) ]} ∪ seen)
    (logged w [EvStdout (itoa (Z.of_nat i + 1) ++ "/" ++
                         itoa (Z.of_nat n) ++ " ");
               EvStdout (fst (tpl item)); EvStdout newline]).
Proof.
  intros Hcull Htpl Hnew. cbn [cullLoop]. unfold bind, emit.
  rewrite Htpl, Hcull. rewrite decide_False by exact Hnew.
  unfold ret. now rewrite !logged_logged.
Qed.

(** One pass of the loop on an item whose canonical URL was seen: the item
    is printed and deleted, with no question and no probe, whatever
    [--cull] says. *)
Lemma cullLoop_deletes_duplicate (env : Env) (conf : Config) (client : Client)
    (tpl : Template Item) (n i : nat) (item : Item) (rest : list Item)
    (seen : gset string) (w : World) :
  snd (tpl item) = None ->
  CleanURL (Item_URL item) ∈ seen ->
  cullLoop env conf client tpl n i (item :: rest) seen w =
  (deleteItem env client item ;;;
   emit (EvStdout newline) ;;;
   cullLoop env conf client tpl n (S i) rest seen)
    (logged w [EvStdout (itoa (Z.of_nat i + 1) ++ "/" ++
                         itoa (Z.of_nat n) ++ " ");
               EvStdout (fst (tpl item));
               EvStdout (newline ++ "Item already seen. Deleting..." ++
                         newline)]).
Proof.
  intros Htpl Hseen. cbn [cullLoop]. unfold bind at 1 2 3, emit at 1 2 3.
  rewrite Htpl. rewrite decide_True by exact Hseen.
  now rewrite !logged_logged.
Qed.

Lemma then_emit (m : M unit) (e : Event) (w : World) :
  (m ;;; emit e ;;; ret tt) w =
  match fst (m w) with
  | Returns _ => (Returns tt, logged (snd (m w)) [e])
  | Panics msg => (Panics msg, snd (m w))
  | Exits c => (Exits c, snd (m w))
  | Blocks => (Blocks, snd (m w))
  end.
Proof. unfold bind. now destruct (m w) as [[]]. Qed.

Lemma sortBySortID_scenario (t1 t2 : string) (a1 a2 : Z) (l : list Item) :
  l = [scenarioItem1 t1 a1; scenarioItem2 t2 a2] \/
  l = [scenarioItem2 t2 a2; scenarioItem1 t1 a1] ->
  sortBySortID l = [scenarioItem2 t2 a2; scenarioItem1 t1 a1].
Proof. intros [->| ->]; reflexivity. Qed.


(** ** The probe of the cull pipeline *)

(** When a response arrived ([err == nil]), lines 250 to 257 do nothing:
    the body is not read and the status stays. *)
Lemma probeBody_response_arrived (chk : ptr Response) (w : World) :
  probeBody (chk, None) w = (Returns chk, w).
Proof. reflexivity. Qed.

(** The status is replaced only after a transport error whose text does
    not end in [: EOF], on a response whose body could not be read. *)
Lemma probeBody_overrides_only_after_error (resp resp' : Response)
    (err : option error) (w w' : World) :
  probeBody (Some resp, err) w = (Returns (Some resp'), w') ->
  resp' <> resp ->
  resp' = setNotFound resp /\
  (exists e, err = Some e /\ HasSuffix e ": EOF" = false) /\
  body_err (RespBody resp) <> None.
Proof.
  unfold probeBody, notEOF. intros Hrun Hne.
  destruct err as [e|]; [|injection Hrun as <- _; now destruct Hne].
  destruct (HasSuffix e ": EOF") eqn:Heof; simpl in Hrun;
    [injection Hrun as <- _; now destruct Hne|].
  destruct (body_err (RespBody resp)) as [readErr|];
    [|injection Hrun as <- _; now destruct Hne].
  destruct (Contains _ _ || Contains _ _);
    injection Hrun as <- _; [|now destruct Hne].
  split; [reflexivity|]. split; [now exists e|discriminate].
Qed.

(** With an error other than [EOF] and no response, line 251 dereferences
    the nil [chk]. *)
Lemma probeBody_no_response (e : error) (w : World) :
  HasSuffix e ": EOF" = false ->
  probeBody (None, Some e) w = (Panics nilDereference, w).
Proof. intros H. unfold probeBody, notEOF. now rewrite H. Qed.

(** A link on which [HEAD] and [GET] both fail without a response, for a
    cause other than [EOF], ends the run of the whole batch. *)
Lemma probeAndAsk_no_response_panics (env : Env) (client : Client)
    (item : Item) (w : World) (e1 e2 : error) :
  let url := Item_URL item in
  let said := EvStdout (newline ++ "Got an err when HEADing: " ++ e1 ++
                        ", GETting instead..." ++ newline) in
  http_Head env (events w) url = HTTPErr None e1 ->
  http_Get env (events w ++ [EvHead url; said]) url = HTTPErr None e2 ->
  HasSuffix e2 ": EOF" = false ->
  probeAndAsk env client item w =
    (Panics nilDereference,
     logged w [EvHead url; said; EvGet url;
               EvStdout (newline ++ e2 ++ newline)]).
Proof.
  intros url said Hhead Hget Heof.
  unfold probeAndAsk, probeFetch, call, emit, logged, ret.
  unfold bind at 1 2. fold url. rewrite Hhead. simpl.
  unfold bind at 1 2 3. simpl. rewrite <- !app_assoc. simpl.
  fold said. rewrite Hget. simpl.
  unfold bind at 1. rewrite Heof. simpl. unfold panic.
  now rewrite <- !app_assoc.
Qed.

(** C2, at a failing input: the host of the first of two links does not
    resolve, so [HEAD] and [GET] give an error and no response.  The run
    ends in a nil dereference at [chk.Body]; the second link is never
    reached and nothing is asked. *)
Theorem cull_probe_error_aborts_batch :
  let run := commandList (goneEnv noSuchHost) cullConfig sampleClient
               (withStdin emptyWorld ["n"; "n"; "n"; "n"]) in
  fst run = Panics nilDereference /\
  audit (events (snd run)) = [EvHead goneURL; EvGet goneURL] /\
  stdin (snd run) = ["n"; "n"; "n"; "n"].
Proof. vm_compute. repeat split. Qed.

(** The same batch when the cause of the error is [EOF], which line 250
    lets pass: both links are handled. *)
Lemma cull_probe_eof_continues :
  let run := commandList (goneEnv "EOF") cullConfig sampleClient
               (withStdin emptyWorld ["n"; "n"; "n"; "n"]) in
  fst run = Returns tt /\
  audit (events (snd run)) =
    [EvHead goneURL; EvGet goneURL; EvConfirm "Delete?";
     EvHead "http://example.com/b"; EvConfirm "Open?"; EvConfirm "Delete?"].
Proof. vm_compute. repeat split. Qed.

(** C1, at a failing input: the page answers [GET] with the status 200 and
    a body that says [isn't available anymore].  The probe prints the
    status line [200 OK] and offers to open the page: the status is not
    replaced by the not-found one. *)
Theorem cull_probe_ignores_removed_page :
  let run := commandList removedEnv cullConfig sampleClient
               (withStdin emptyWorld ["n"; "n"]) in
  StatusCode removedPage = 200 /\
  Contains (body_bytes (RespBody removedPage)) "isn't available anymore" = true /\
  fst run = Returns tt /\
  audit (events (snd run)) =
    [EvHead removedURL; EvGet removedURL;
     EvConfirm "Open?"; EvConfirm "Delete?"] /\
  In (EvStdout (" 200 OK" ++ newline)) (events (snd run)) /\
  ~ In (EvStdout (newline ++ "Status was Not Available" ++ newline))
       (events (snd run)).
Proof.
  vm_compute. repeat split; auto 20.
  intros H. repeat (destruct H as [H|H]; [discriminate|]). exact H.
Qed.

(** ** [restoreAccessToken] *)

(** C7 as stated fails: after a handshake that succeeded, a credential
    file that cannot be created makes [restoreAccessToken] return the
    error and a nil credential, not the credential it obtained. *)
Lemma restoreAccessToken_drops_credential :
  let w1 := logged firstRun
              [EvOpen (authFileOf readOnlyEnv);
               EvLog ("open: no such file or directory" ++ newline)] in
  fst (obtainAccessToken readOnlyEnv "consumer-key" w1) =
    Returns (Some {| Authorization_AccessToken := "access-token" |}, None) /\
  fst (restoreAccessToken readOnlyEnv "consumer-key" firstRun) =
    Returns (None, Some permissionDenied).
Proof. vm_compute. split; reflexivity. Qed.

(** C7, amended: when the credential file cannot be loaded, the handshake
    succeeds ([obtainAccessToken] returns a credential and no error) and
    the write of the credential then fails, [restoreAccessToken] returns
    the error of the write together with a nil credential: the credential
    obtained is not handed to the caller, and [main] panics with the
    error. *)
Theorem restoreAccessToken_save_failure (env : Env) (consumerKey : string)
    (w w1 w2 w3 : World) (stale : Authorization) (loadErr saveErr : error)
    (cred : Authorization) :
  loadJSONFromFile env (decodeAuth env) (authFileOf env) noAuthorization w =
    (Returns (stale, Some loadErr), w1) ->
  obtainAccessToken env consumerKey (logged w1 [EvLog (loadErr ++ newline)]) =
    (Returns (Some cred, None), w2) ->
  saveJSONToFile env (encodeAuthPtr env) (authFileOf env) (Some cred) w2 =
    (Returns (Some saveErr), w3) ->
  restoreAccessToken env consumerKey w = (Returns (None, Some saveErr), w3) /\
  mainClient env consumerKey w = (Panics saveErr, w3).
Proof.
  intros Hload Hobtain Hsave.
  assert (Hrestore :
    restoreAccessToken env consumerKey w = (Returns (None, Some saveErr), w3)).
  { unfold restoreAccessToken. fold (authFileOf env). fold noAuthorization.
    unfold bind at 1. rewrite Hload.
    unfold bind at 1. unfold emit at 1.
    unfold bind at 1. rewrite Hobtain.
    unfold bind at 1. rewrite Hsave. reflexivity. }
  split; [exact Hrestore|].
  unfold mainClient, bind. now rewrite Hrestore.
Qed.

Lemma restoreAccessToken_save_failure_witness :
  let env := readOnlyEnv in
  let cred := {| Authorization_AccessToken := "access-token" |} in
  let loading :=
    loadJSONFromFile env (decodeAuth env) (authFileOf env) noAuthorization
      firstRun in
  let obtaining :=
    obtainAccessToken env "consumer-key"
      (logged (snd loading)
         [EvLog ("open: no such file or directory" ++ newline)]) in
  let saving :=
    saveJSONToFile env (encodeAuthPtr env) (authFileOf env) (Some cred)
      (snd obtaining) in
  loading =
    (Returns (noAuthorization, Some "open: no such file or directory"),
     snd loading) /\
  obtaining = (Returns (Some cred, None), snd obtaining) /\
  saving = (Returns (Some permissionDenied), snd saving) /\
  restoreAccessToken env "consumer-key" firstRun =
    (Returns (None, Some permissionDenied), snd saving) /\
  mainClient env "consumer-key" firstRun =
    (Panics permissionDenied, snd saving).
Proof.
  intros env cred loading obtaining saving.
  assert (Hl : loading =
    (Returns (noAuthorization, Some "open: no such file or directory"),
     snd loading)) by (vm_compute; reflexivity).
  assert (Ho : obtaining = (Returns (Some cred, None), snd obtaining))
    by (vm_compute; reflexivity).
  assert (Hs : saving = (Returns (Some permissionDenied), snd saving))
    by (vm_compute; reflexivity).
  split; [exact Hl|]. split; [exact Ho|]. split; [exact Hs|].
  exact (restoreAccessToken_save_failure env "consumer-key" firstRun
           (snd loading) (snd obtaining) (snd saving) noAuthorization
           "open: no such file or directory" permissionDenied cred Hl Ho Hs).
Defined.

(** ** The authorization flow *)

Lemma snoc_split {A : Type} (h : list A) (e x : A) (l1 l2 : list A) :
  (h ++ [e])%list = (l1 ++ x :: l2)%list ->
  (l2 = [] /\ h = l1 /\ e = x) \/
  (exists l2', l2 = (l2' ++ [e])%list /\ h = (l1 ++ x :: l2')%list).
Proof.
  destruct l2 as [|y l2 _] using rev_ind; intros H.
  - left. apply app_inj_tail in H as [-> ->]. auto.
  - right. exists l2.
    change (l1 ++ x :: l2 ++ [y])%list with (l1 ++ (x :: l2) ++ [y])%list in H.
    rewrite app_assoc in H. apply app_inj_tail in H as [-> ->]. auto.
Qed.

Lemma exchangeGuarded_snoc (h : list AuthEvent) (e : AuthEvent) :
  exchangeGuarded h ->
  (e = AExchange ->
   exists path, path <> favicon /\ In (AArrive path) h /\ In (ASignal path) h) ->
  exchangeGuarded (h ++ [e]).
Proof.
  intros Hg He before after Hsplit.
  apply snoc_split in Hsplit as [(_ & -> & Heq)|(after' & _ & Hh)].
  - now apply He.
  - exact (Hg _ _ Hh).
Qed.

Lemma in_snoc {A : Type} (x e : A) (h : list A) :
  In x (h ++ [e]) <-> In x h \/ x = e.
Proof.
  rewrite in_app_iff. simpl. intuition.
Qed.

Lemma authInvariant_init : authInvariant authInit.
Proof.
  split; simpl.
  - intros i path H. now rewrite lookup_nil in H.
  - intros i path H. now rewrite lookup_nil in H.
  - intros path [].
  - discriminate.
  - intros before after H. now destruct before.
Qed.

Ltac earlier H := apply in_snoc in H as [H|H]; [|discriminate H].
Ltac still := apply in_snoc; left.

(** The three parts of the invariant that a step of the body alone leaves
    as they are. *)
Ltac body_step Hcheck Hsend Hsignal :=
  split; simpl;
  [ intros ? ? Hlook; still; eauto
  | intros ? ? Hlook; destruct (Hsend _ _ Hlook);
    split; [assumption|still; assumption]
  | intros ? Hlook; earlier Hlook; destruct (Hsignal _ Hlook);
    split; [assumption|still; assumption]
  | | ].

Lemma authInvariant_step (st st' : AuthState) :
  authInvariant st -> authStep st st' -> authInvariant st'.
Proof.
  intros [Hcheck Hsend Hsignal Hexch Hguard] Hstep.
  destruct Hstep; simpl in *.
  - (* the listener starts *)
    body_step Hcheck Hsend Hsignal; [discriminate|].
    apply exchangeGuarded_snoc; [exact Hguard|discriminate].
  - (* the request token is obtained *)
    body_step Hcheck Hsend Hsignal; [discriminate|].
    apply exchangeGuarded_snoc; [exact Hguard|discriminate].
  - (* the request token is refused *)
    body_step Hcheck Hsend Hsignal; [discriminate|].
    apply exchangeGuarded_snoc; [exact Hguard|discriminate].
  - (* the URL is printed *)
    body_step Hcheck Hsend Hsignal; [discriminate|].
    apply exchangeGuarded_snoc; [exact Hguard|discriminate].
  - (* a request arrives *)
    split; simpl.
    + intros i p Hi. apply in_snoc.
      apply lookup_app_Some in Hi as [Hi|[_ Hi]]; [left; eauto|].
      destruct (i - length hs)%nat; simpl in Hi;
        [|now rewrite lookup_nil in Hi].
      injection Hi as ->. now right.
    + intros i p Hi.
      apply lookup_app_Some in Hi as [Hi|[_ Hi]].
      * destruct (Hsend _ _ Hi). split; [assumption|still; assumption].
      * destruct (i - length hs)%nat; simpl in Hi;
          [discriminate|now rewrite lookup_nil in Hi].
    + intros p Hp. earlier Hp.
      destruct (Hsignal _ Hp). split; [assumption|still; assumption].
    + intros Hpc. destruct (Hexch Hpc) as (p & Hp & Ha & Hs).
      exists p. split; [assumption|]. split; still; assumption.
    + apply exchangeGuarded_snoc; [exact Hguard|discriminate].
  - (* a handler answers the favicon request *)
    split; simpl.
    + intros j p Hj. still.
      apply list_lookup_insert_Some in Hj as [(_ & Heq & _)|[_ Hj]];
        [discriminate|eauto].
    + intros j p Hj.
      apply list_lookup_insert_Some in Hj as [(_ & Heq & _)|[_ Hj]];
        [discriminate|].
      destruct (Hsend _ _ Hj). split; [assumption|still; assumption].
    + intros p Hp. earlier Hp.
      destruct (Hsignal _ Hp). split; [assumption|still; assumption].
    + intros Hpc. destruct (Hexch Hpc) as (p & Hp & Ha & Hs).
      exists p. split; [assumption|]. split; still; assumption.
    + apply exchangeGuarded_snoc; [exact Hguard|discriminate].
  - (* a handler answers another request and reaches its send *)
    split; simpl.
    + intros j p Hj. still.
      apply list_lookup_insert_Some in Hj as [(_ & Heq & _)|[_ Hj]];
        [discriminate|eauto].
    + intros j p Hj.
      apply list_lookup_insert_Some in Hj as [(_ & Heq & _)|[_ Hj]].
      * injection Heq as <-. split; [assumption|still; eauto].
      * destruct (Hsend _ _ Hj). split; [assumption|still; assumption].
    + intros p Hp. earlier Hp.
      destruct (Hsignal _ Hp). split; [assumption|still; assumption].
    + intros Hpc. destruct (Hexch Hpc) as (p & Hp & Ha & Hs).
      exists p. split; [assumption|]. split; still; assumption.
    + apply exchangeGuarded_snoc; [exact Hguard|discriminate].
  - (* the send of a handler meets the receive of the body *)
    destruct (Hsend _ _ H) as [Hpath Harr].
    split; simpl.
    + intros j p Hj. still.
      apply list_lookup_insert_Some in Hj as [(_ & Heq & _)|[_ Hj]];
        [discriminate|eauto].
    + intros j p Hj.
      apply list_lookup_insert_Some in Hj as [(_ & Heq & _)|[_ Hj]];
        [discriminate|].
      destruct (Hsend _ _ Hj). split; [assumption|still; assumption].
    + intros p Hp. apply in_snoc in Hp as [Hp|Hp].
      * destruct (Hsignal _ Hp). split; [assumption|still; assumption].
      * injection Hp as ->. split; [assumption|still; assumption].
    + intros _. exists path. split; [assumption|].
      split; apply in_snoc; [now left|now right].
    + apply exchangeGuarded_snoc; [exact Hguard|discriminate].
  - (* the token is exchanged *)
    body_step Hcheck Hsend Hsignal; [discriminate|].
    apply exchangeGuarded_snoc; [exact Hguard|]. intros _. now apply Hexch.
  - (* the listener is closed *)
    body_step Hcheck Hsend Hsignal; [discriminate|].
    apply exchangeGuarded_snoc; [exact Hguard|discriminate].
Qed.

Lemma authInvariant_reachable (st : AuthState) :
  authReachable st -> authInvariant st.
Proof.
  intros H.
  apply (rtc_ind_r (R := authStep) authInvariant authInit); [| |exact H].
  - apply authInvariant_init.
  - intros y z _ Hstep IH. exact (authInvariant_step _ _ IH Hstep).
Qed.

(** The same order in the run of [obtainAccessToken] in which the requests
    arrive one after the other while the body waits. *)

Lemma prefix_before_exchange (pre tail before after : list Event)
    (k t : string) :
  noExchange pre = true ->
  (pre ++ tail = before ++ EvExchange k t :: after)%list ->
  exists mid, before = (pre ++ mid)%list.
Proof.
  revert before. induction pre as [|e pre IH]; intros before Hno Heq.
  - now exists before.
  - simpl in Hno. apply andb_true_iff in Hno as [He Hpre].
    destruct before as [|b before]; simpl in Heq.
    + injection Heq as -> _. discriminate.
    + injection Heq as -> Heq. destruct (IH _ Hpre Heq) as [mid ->].
      now exists mid.
Qed.

Lemma awaitCallback_events (paths : list string) :
  forall w, exists evs,
    events (snd (awaitCallback paths w)) = (events w ++ evs)%list /\
    noExchange evs = true /\
    (fst (awaitCallback paths w) = Blocks \/
     fst (awaitCallback paths w) = Returns tt /\
     exists path, path <> favicon /\ In (EvServe path 200) evs).
Proof.
  induction paths as [|path rest IH]; intros w; cbn [awaitCallback].
  - exists []. simpl. rewrite app_nil_r. auto.
  - destruct (String.eqb_spec path favicon) as [->|Hne].
    + destruct (IH (logged w [EvServe favicon 404])) as (evs & He & Hno & Ho).
      exists (EvServe favicon 404 :: evs). split; [|split].
      * rewrite He. simpl. now rewrite <- app_assoc.
      * exact Hno.
      * destruct Ho as [Ho|[Ho (p & Hp & Hin)]]; [now left|right].
        split; [exact Ho|]. exists p. split; [exact Hp|now right].
    + exists [EvServe path 200]. simpl. split; [reflexivity|].
      split; [reflexivity|]. right. split; [reflexivity|].
      exists path. split; [exact Hne|now left].
Qed.

Lemma closeServer_events (paths : list string) :
  forall w, exists evs,
    events (snd (closeServer paths w)) = (events w ++ evs)%list /\
    noExchange evs = true.
Proof.
  induction paths as [|path rest IH]; intros w; cbn [closeServer].
  - exists [EvClose]. auto.
  - destruct (String.eqb path favicon).
    + destruct (IH (logged w [EvServe path 404])) as (evs & He & Hno).
      exists (EvServe path 404 :: evs). split; [|exact Hno].
      rewrite He. simpl. now rewrite <- app_assoc.
    + exists [EvServe path 200]. auto.
Qed.

Lemma noExchange_app (a b : list Event) :
  noExchange (a ++ b) = noExchange a && noExchange b.
Proof. apply forallb_app. Qed.

Lemma noExchange_split (evs before after : list Event) (k t : string) :
  noExchange evs = true -> evs <> (before ++ EvExchange k t :: after)%list.
Proof.
  intros Hno ->. rewrite noExchange_app in Hno.
  apply andb_true_iff in Hno as [_ Hno]. discriminate.
Qed.

Lemma obtainAccessToken_serves_before_exchange (env : Env)
    (consumerKey : string) (w : World) :
  exists evs,
    events (snd (obtainAccessToken env consumerKey w)) = (events w ++ evs)%list /\
    forall before after k t,
      evs = (before ++ EvExchange k t :: after)%list ->
      exists path, path <> favicon /\ In (EvServe path 200) before.
Proof.
  unfold obtainAccessToken, call, emit. unfold bind at 1 2. simpl.
  set (url := httptest_URL env (events w)).
  destruct (auth_ObtainRequestToken env _ consumerKey url) as [token|err].
  - unfold bind at 1 2. simpl.
    match goal with
    | |- context [awaitCallback ?ps ?w0] =>
        destruct (awaitCallback_events ps w0) as (aevs & Ha & Hno & Ho);
        destruct (awaitCallback ps w0) as [out w1]
    end.
    simpl in Ha, Ho. simpl in Ha. rewrite <- !app_assoc in Ha. simpl in Ha.
    set (pre := [EvListen url; EvRequestToken consumerKey url;
                 EvStdout (auth_GenerateAuthorizationURL env token url ++
                           newline)]) in *.
    assert (Hpre : noExchange (pre ++ aevs) = true)
      by (rewrite noExchange_app, Hno; reflexivity).
    destruct Ho as [->|[-> (path & Hpath & Hin)]].
    + exists (pre ++ aevs)%list. split; [exact Ha|].
      intros before after k t Heq. now destruct (noExchange_split _ _ _ _ _ Hpre Heq).
    + unfold bind at 1 2. simpl.
      match goal with
      | |- context [closeServer ?ps ?w0] =>
          destruct (closeServer_events ps w0) as (cevs & Hc & _);
          destruct (closeServer ps w0) as [out2 w2]
      end.
      simpl in Hc. rewrite Ha, <- !app_assoc in Hc.
      exists ((pre ++ aevs) ++ EvExchange consumerKey token :: cevs)%list.
      split.
      * destruct (auth_ObtainAccessToken env (events w1) consumerKey token);
          destruct out2; simpl; rewrite Hc; reflexivity.
      * intros before after k t Heq.
        destruct (prefix_before_exchange _ _ _ _ _ _ Hpre Heq) as [mid ->].
        exists path. split; [exact Hpath|].
        apply in_or_app. left. apply in_or_app. now right.
  - unfold bind at 1. simpl.
    match goal with
    | |- context [closeServer ?ps ?w0] =>
        destruct (closeServer_events ps w0) as (cevs & Hc & Hno);
        destruct (closeServer ps w0) as [out2 w2]
    end.
    simpl in Hc. rewrite <- !app_assoc in Hc. simpl in Hc.
    exists (EvListen url :: EvRequestToken consumerKey url :: cevs).
    split; [destruct out2; exact Hc|].
    intros before after k t Heq.
    assert (Hall : noExchange (EvListen url :: EvRequestToken consumerKey url
                               :: cevs) = true) by exact Hno.
    now destruct (noExchange_split _ _ _ _ _ Hall Heq).
Qed.

(** C8: in every state that an execution of [obtainAccessToken] reaches,
    each exchange of the token in the history comes after the arrival of a
    request whose path is not [/favicon.ico] and after the signal its
    handler sent on the channel; and no signal was ever sent for a
    [/favicon.ico] request. *)
Theorem exchange_only_after_callback (st : AuthState) :
  authReachable st ->
  exchangeGuarded (history st) /\ ~ In (ASignal favicon) (history st).
Proof.
  intros Hreach. apply authInvariant_reachable in Hreach as [_ _ Hsignal _ Hg].
  split; [exact Hg|].
  intros Hin. now destruct (Hsignal _ Hin).
Qed.

Lemma exchange_only_after_callback_witness :
  authReachable authExchanged /\
  exchangeGuarded (history authExchanged) /\
  ~ In (ASignal favicon) (history authExchanged).
Proof.
  assert (Hreach : authReachable authExchanged).
  { unfold authReachable.
    eapply rtc_l; [apply step_new_server|].
    eapply rtc_l; [apply step_request_token|].
    eapply rtc_l; [apply step_print|].
    eapply rtc_l; [apply (step_arrive _ _ _ favicon); reflexivity|].
    eapply rtc_l; [apply (step_not_found _ _ _ 0%nat); reflexivity|].
    eapply rtc_l; [apply (step_arrive _ _ _ "/"); reflexivity|].
    eapply rtc_l;
      [apply (step_authorized _ _ _ 1%nat "/"); [reflexivity|discriminate]|].
    eapply rtc_l; [apply (step_signal _ _ 1%nat "/"); reflexivity|].
    eapply rtc_l; [apply step_exchange|].
    apply rtc_refl. }
  split; [exact Hreach|].
  exact (exchange_only_after_callback authExchanged Hreach).
Defined.

(** * Further properties *)

(** ** [CleanURL]: what the canonical form promises *)

(** A byte other than [h] at the head of the rewritten text was copied. *)
Lemma toHTTPS_head (c : ascii) (s t : string) :
  c <> "h"%char ->
  toHTTPS s = String c t ->
  exists s', s = String c s' /\ toHTTPS s' = t.
Proof.
  unfold toHTTPS. intros Hc H. destruct s as [|a s]; [discriminate|].
  destruct (HasPrefix (String a s) "http://") eqn:Hp.
  - apply HasPrefix_inv in Hp as (q & Hq). rewrite Hq in H.
    rewrite ReplaceAll_match in H by discriminate.
    rewrite append_cons in H. injection H as H _. congruence.
  - rewrite ReplaceAll_no_match in H by exact Hp.
    injection H as -> <-. eauto.
Qed.

Lemma toHTTPS_no_http (s : string) : Contains (toHTTPS s) "http://" = false.
Proof.
  unfold toHTTPS.
  apply (ReplaceAll_scan "http://"
           (fun s => Contains (ReplaceAll s "http://" "https://") "http://"
                     = false)).
  - discriminate.
  - reflexivity.
  - intros rest IH. rewrite ReplaceAll_match by discriminate.
    transitivity (Contains (ReplaceAll rest "http://" "https://") "http://");
      [reflexivity|exact IH].
  - intros a s0 Hp IH. rewrite ReplaceAll_no_match by exact Hp.
    rewrite Contains_unfold, IH, orb_false_r.
    destruct (HasPrefix (String a (ReplaceAll s0 "http://" "https://"))
                "http://") eqn:Hq; [|reflexivity].
    apply HasPrefix_inv in Hq as (q & Hq).
    rewrite append_cons in Hq. injection Hq as -> Hq.
    fold (toHTTPS s0) in Hq.
    repeat (rewrite append_cons in Hq;
            apply toHTTPS_head in Hq as (? & -> & Hq); [|discriminate]).
    cbn in Hp. rewrite HasPrefix_empty in Hp. discriminate Hp.
Qed.

(** X1: [CleanURL] does not tell [http] from [https]: a URL and the same
    URL with every [http://] replaced by [https://] have the same canonical
    string; so have [http://rest] and [https://rest], for every [rest]. *)
Theorem CleanURL_scheme (u rest : string) :
  CleanURL (ReplaceAll u "http://" "https://") = CleanURL u /\
  CleanURL ("http://" ++ rest) = CleanURL ("https://" ++ rest).
Proof.
  assert (Hgen : forall v, CleanURL (ReplaceAll v "http://" "https://")
                           = CleanURL v).
  { intros v. unfold CleanURL at 1.
    rewrite (ReplaceAll_absent (ReplaceAll v "http://" "https://"))
      by apply toHTTPS_no_http.
    reflexivity. }
  split; [apply Hgen|].
  rewrite <- (Hgen ("http://" ++ rest)), <- (Hgen ("https://" ++ rest)).
  f_equal. rewrite ReplaceAll_match by discriminate.
  change ("https://" ++ rest)
    with (String "h" (String "t" (String "t" (String "p" (String "s"
            (String ":" (String "/" (String "/" rest)))))))).
  rewrite !ReplaceAll_no_match by reflexivity. reflexivity.
Qed.

Lemma HasSuffix_unfold (s suf : string) :
  HasSuffix s suf =
  String.eqb s suf ||
  match s with
  | EmptyString => false
  | String _ s' => HasSuffix s' suf
  end.
Proof. destruct s; reflexivity. Qed.

Lemma TrimRight_trimmed (s : string) (c : ascii) :
  HasSuffix (TrimRight s c) (String c EmptyString) = false.
Proof.
  induction s as [|a s IH]; [reflexivity|].
  cbn [TrimRight]. destruct (TrimRight s c) as [|b r] eqn:E.
  - destruct (Ascii.eqb_spec a c) as [->|Hne]; [reflexivity|].
    cbn. apply Ascii.eqb_neq in Hne. rewrite Hne. reflexivity.
  - rewrite HasSuffix_unfold, IH, orb_false_r.
    apply String.eqb_neq. discriminate.
Qed.

Lemma TrimRight_prefix (s : string) (c : ascii) :
  exists cut, s = TrimRight s c ++ cut.
Proof.
  induction s as [|a s (cut & IH)]; [now exists EmptyString|].
  cbn [TrimRight]. destruct (TrimRight s c) as [|b r] eqn:E.
  - destruct (Ascii.eqb a c).
    + exists (String a s). now rewrite append_nil.
    + exists s. now rewrite append_cons, append_nil.
  - exists cut. rewrite append_cons. f_equal. exact IH.
Qed.

Lemma TrimRight_keeps_out (s sub : string) (c : ascii) :
  Contains s sub = false -> Contains (TrimRight s c) sub = false.
Proof.
  intros H. destruct (TrimRight_prefix s c) as (cut & Hs).
  destruct (Contains (TrimRight s c) sub) eqn:E; [|reflexivity].
  apply (Contains_app_l _ cut) in E. rewrite <- Hs in E. congruence.
Qed.

(** One ampersand is all that [ampsReplaceAll] leaves of a run, and it
    keeps the first byte of the text. *)
Lemma ampsReplaceAll_runs (s : string) :
  Contains (ampsReplaceAll s) "&&" = false /\
  forall b s', s = String b s' ->
    exists t, ampsReplaceAll s = String b t /\
              (b = "&"%char -> HasPrefix t "&" = false).
Proof.
  induction s as [|a s [IHc IHh]].
  - split; [reflexivity|discriminate].
  - cbn [ampsReplaceAll]. destruct (Ascii.eqb_spec a "&") as [->|Hne].
    + destruct s as [|b s'].
      * split; [reflexivity|]. intros b s' [= <- <-]. now exists EmptyString.
      * destruct (IHh b s' eq_refl) as (t & Ht & Hamp).
        destruct (Ascii.eqb_spec b "&") as [->|Hb].
        -- split; [exact IHc|]. intros b s0 [= <- <-].
           exists t. split; [exact Ht|]. intros _. now apply Hamp.
        -- split.
           ++ rewrite Contains_unfold, IHc, orb_false_r, Ht.
              rewrite !HasPrefix_cons. apply Ascii.eqb_neq in Hb.
              rewrite Hb. reflexivity.
           ++ intros b0 s0 [= <- <-]. eexists. split; [reflexivity|].
              intros _. rewrite Ht, HasPrefix_cons.
              apply Ascii.eqb_neq in Hb. now rewrite Hb.
    + split.
      * rewrite Contains_unfold, IHc, orb_false_r, HasPrefix_cons.
        apply Ascii.eqb_neq in Hne. now rewrite Hne.
      * intros b s' [= <- <-]. eexists. split; [reflexivity|].
        intros ->. congruence.
Qed.

(** X2: whatever the input, the string [CleanURL] returns does not end in
    a slash and holds no two ampersands in a row. *)
Theorem CleanURL_canonical_form (u : string) :
  HasSuffix (CleanURL u) "/" = false /\
  Contains (CleanURL u) "&&" = false.
Proof.
  unfold CleanURL. split.
  - apply TrimRight_trimmed.
  - do 2 apply TrimRight_keeps_out. apply ampsReplaceAll_runs.
Qed.

(** ** [bySortID] *)

Lemma swapDown_Permutation (x : Item) (r : list Item) :
  Permutation (x :: r) (swapDown x r).
Proof.
  induction r as [|y r IH]; cbn [swapDown]; [reflexivity|].
  destruct (bySortID_Less x y); [|reflexivity].
  rewrite perm_swap. now apply perm_skip.
Qed.

Lemma swapDown_descending (x : Item) (r : list Item) :
  StronglySorted descending r -> StronglySorted descending (swapDown x r).
Proof.
  induction r as [|y r IH]; cbn [swapDown]; intros Hs.
  - repeat constructor.
  - apply StronglySorted_inv in Hs as [Hr Hy].
    unfold bySortID_Less. destruct (Z.ltb_spec (SortId x) (SortId y)).
    + constructor; [now apply IH|].
      apply (Permutation_Forall (swapDown_Permutation x r)).
      constructor; [unfold descending; lia|exact Hy].
    + constructor; [now constructor|].
      constructor; [exact H|].
      eapply List.Forall_impl; [|exact Hy]. unfold descending. intros; lia.
Qed.

Lemma insertAll_sorts (items : list Item) :
  forall acc, StronglySorted descending acc ->
    let out := fold_left (fun revPrefix x => swapDown x revPrefix) items acc in
    StronglySorted descending out /\ Permutation (items ++ acc) out.
Proof.
  induction items as [|x items IH]; intros acc Hacc; cbn.
  - split; [exact Hacc|reflexivity].
  - destruct (IH (swapDown x acc) (swapDown_descending x acc Hacc)) as [Hs Hp].
    split; [exact Hs|]. cbn in Hp. rewrite <- Hp.
    rewrite <- (swapDown_Permutation x acc).
    apply Permutation_middle.
Qed.

Lemma rev_ascending (l : list Item) :
  StronglySorted descending l -> StronglySorted ascending (rev l).
Proof.
  induction l as [|a l IH]; intros Hs; cbn [rev]; [constructor|].
  apply StronglySorted_inv in Hs as [Hl Ha].
  specialize (IH Hl). apply List.Forall_rev in Ha.
  induction (rev l) as [|b m IHm]; cbn.
  - repeat constructor.
  - apply StronglySorted_inv in IH as [Hm Hb].
    apply Forall_inv in Ha as Hba. apply Forall_inv_tail in Ha.
    constructor; [now apply IHm|].
    apply List.Forall_app. split; [exact Hb|]. now repeat constructor.
Qed.

(** With distinct [SortId]s there is one list only that is a sorted
    rearrangement. *)
Lemma ascending_unique (l1 : list Item) :
  forall l2,
    NoDup (map SortId l1) ->
    Permutation l1 l2 ->
    StronglySorted ascending l1 ->
    StronglySorted ascending l2 ->
    l1 = l2.
Proof.
  induction l1 as [|a l1 IH]; intros l2 Hnd Hp Hs1 Hs2.
  - now apply Permutation_nil in Hp.
  - destruct l2 as [|b l2].
    { apply Permutation_sym, Permutation_nil in Hp. discriminate. }
    apply NoDup_cons in Hnd as [Ha Hnd]. cbn [map] in Ha.
    apply StronglySorted_inv in Hs1 as [Hs1 Hall1].
    apply StronglySorted_inv in Hs2 as [Hs2 Hall2].
    assert (Hab : a = b).
    { assert (Hina : In a (b :: l2))
        by (apply (Permutation_in _ Hp); now left).
      assert (Hinb : In b (a :: l1))
        by (apply (Permutation_in _ (Permutation_sym Hp)); now left).
      destruct Hina as [<-|Hina]; [reflexivity|].
      destruct Hinb as [->|Hinb]; [reflexivity|].
      rewrite List.Forall_forall in Hall1, Hall2.
      pose proof (Hall1 _ Hinb) as H1. pose proof (Hall2 _ Hina) as H2.
      unfold ascending in H1, H2.
      exfalso. apply Ha. apply list_elem_of_In.
      replace (SortId a) with (SortId b) by lia.
      now apply in_map. }
    subst b. f_equal. apply IH; try assumption.
    now apply Permutation_cons_inv in Hp.
Qed.

(** X3: for at most twelve items, or for items with distinct [SortId]s,
    [sort.Sort(bySortID(items))] rearranges the items, losing and adding
    none, and leaves them in ascending order of [SortId]; with distinct
    [SortId]s this is the only list that is a sorted rearrangement of the
    items, so every sorting algorithm ends with it. *)
Theorem sortBySortID_sorts (items : list Item) :
  (length items <= 12)%nat \/ NoDup (map SortId items) ->
  Permutation items (sortBySortID items) /\
  StronglySorted ascending (sortBySortID items) /\
  (NoDup (map SortId items) ->
   forall sorted,
     Permutation items sorted -> StronglySorted ascending sorted ->
     sorted = sortBySortID items).
Proof.
  intros _. unfold sortBySortID.
  destruct (insertAll_sorts items [] (SSorted_nil _)) as [Hs Hp].
  cbn in Hs, Hp. rewrite app_nil_r in Hp.
  assert (Hperm : Permutation items
            (rev (fold_left (fun revPrefix x => swapDown x revPrefix)
                    items [])))
    by now rewrite <- Permutation_rev.
  split; [exact Hperm|]. split; [now apply rev_ascending|].
  intros Hnd sorted Hps Hss. symmetry.
  apply ascending_unique; [| |now apply rev_ascending|exact Hss].
  - rewrite <- (Permutation_map SortId Hperm). exact Hnd.
  - now rewrite <- Hperm.
Qed.

Lemma sortBySortID_sorts_witness :
  (length [item1; item2] <= 12)%nat /\
  NoDup (map SortId [item1; item2]) /\
  sortBySortID [item1; item2] = [item2; item1] /\
  StronglySorted ascending (sortBySortID [item1; item2]).
Proof.
  assert (Hlen : (length [item1; item2] <= 12)%nat) by (cbn; lia).
  split; [exact Hlen|]. split.
  { cbn. apply NoDup_cons_2; [|apply NoDup_singleton].
    rewrite list_elem_of_singleton. discriminate. }
  split; [reflexivity|].
  exact (proj1 (proj2 (sortBySortID_sorts [item1; item2] (or_introl Hlen)))).
Defined.

(** ** Runs, step by step *)

Lemma bind_outcome {A B : Type} (m : M A) (k : A -> M B) (w : World) :
  bind m k w =
  match fst (m w) with
  | Returns a => k a (snd (m w))
  | Panics msg => (Panics msg, snd (m w))
  | Exits c => (Exits c, snd (m w))
  | Blocks => (Blocks, snd (m w))
  end.
Proof. unfold bind. now destruct (m w) as [[]]. Qed.

Lemma emit_then {B : Type} (e : Event) (k : M B) (w : World) :
  (emit e ;;; k) w = k (logged w [e]).
Proof. reflexivity. Qed.

(** ** The contract of [confirm] *)

Lemma confirmLoop_contract (env : Env) (s : string) (lines : list string) :
  forall w, exists skipped evs,
    Forall (fun line => unrecognised env line = true) skipped /\
    events (snd (confirmLoop env s lines w)) = (events w ++ evs)%list /\
    ConfirmEnd env s lines skipped (fst (confirmLoop env s lines w)) evs.
Proof.
  induction lines as [|line rest IH]; intros w; cbn [confirmLoop].
  - exists [], [EvStdout (s ++ " [y/n]: "); EvStderr ("EOF" ++ newline)].
    split; [constructor|]. split.
    + cbn. now rewrite <- app_assoc.
    + now apply confirm_eof.
  - fold (reply env line).
    destruct (isOneOf (reply env line) ["y"; "yes"]) eqn:Hy;
      [|destruct (isOneOf (reply env line) ["n"; "no"]) eqn:Hn;
        [|destruct (isOneOf (reply env line) ["q"; "quit"]) eqn:Hq]].
    + exists [], [EvStdout (s ++ " [y/n]: ")].
      split; [constructor|]. split; [reflexivity|].
      now apply (confirm_answered _ _ _ _ _ _ line rest true).
    + exists [], [EvStdout (s ++ " [y/n]: ")].
      split; [constructor|]. split; [reflexivity|].
      now apply (confirm_answered _ _ _ _ _ _ line rest false).
    + exists [], [EvStdout (s ++ " [y/n]: ");
                  EvStderr ("Quitting. Bye!" ++ newline)].
      split; [constructor|]. split.
      * cbn. now rewrite <- app_assoc.
      * now apply (confirm_quit _ _ _ _ _ _ line rest).
    + destruct (IH (logged w [EvStdout (s ++ " [y/n]: ")]))
        as (skipped & evs & Hsk & Hev & Hend).
      exists (line :: skipped), (EvStdout (s ++ " [y/n]: ") :: evs).
      split; [|split].
      * constructor; [|exact Hsk].
        unfold unrecognised, saysYes, saysNo, saysQuit.
        now rewrite Hy, Hn, Hq.
      * rewrite Hev. cbn. now rewrite <- app_assoc.
      * destruct Hend as [l r b Ho Hl Hb Hb' He|l r Ho Hl Hq' He|Ho Hl He].
        -- apply (confirm_answered _ _ _ _ _ _ l r b); try assumption.
           ++ cbn [app]; f_equal; exact Hl.
           ++ rewrite He; reflexivity.
        -- apply (confirm_quit _ _ _ _ _ _ l r); try assumption.
           ++ cbn [app]; f_equal; exact Hl.
           ++ rewrite He; reflexivity.
        -- apply confirm_eof; try assumption.
           ++ cbn [app]; f_equal; exact Hl.
           ++ rewrite He; reflexivity.
Qed.

Lemma confirm_ends (env : Env) (s : string) (w : World) :
  exists skipped evs,
    Forall (fun line => unrecognised env line = true) skipped /\
    events (snd (confirm env s w)) = (events w ++ EvConfirm s :: evs)%list /\
    ConfirmEnd env s (stdin w) skipped (fst (confirm env s w)) evs.
Proof.
  unfold confirm.
  destruct (confirmLoop_contract env s (stdin w) (logged w [EvConfirm s]))
    as (skipped & evs & Hsk & Hev & Hend).
  exists skipped, evs. split; [exact Hsk|]. split; [|exact Hend].
  rewrite Hev. cbn. now rewrite <- app_assoc.
Qed.

(** X4: of the lines that its reader is handed, a call of [confirm]
    passes over those that, trimmed and in lower case, are none of y, yes,
    n, no, q, quit, and ends at the first line that is one of them, or at
    the end of the input.  It prints the prompt once, and once more after
    each line it passes over.  It returns [true] exactly for y and yes,
    [false] only for n and no; on q and quit and at the end of the input it
    exits with code 1 after a line on standard error. *)
Theorem confirm_contract (env : Env) (s : string) (w : World) :
  let run := confirm env s w in
  exists skipped evs,
    Forall (fun line => unrecognised env line = true) skipped /\
    events (snd run) = (events w ++ EvConfirm s :: evs)%list /\
    ConfirmEnd env s (stdin w) skipped (fst run) evs.
Proof. apply confirm_ends. Qed.

Lemma modifyPosts_sendPosts (env : Env) (c : Client)
    (actions : list (ptr Action)) :
  modifyPosts env c actions = sendPosts env c actions.
Proof.
  unfold modifyPosts, sendPosts, modifyRequest, modifyData.
  now destruct (marshalModify env _) as [body [err|]].
Qed.

(** ** What [doJSON], [PostJSON] and [Modify] return *)

Lemma doJSON_cases {T : Type} (env : Env)
    (decode : Body -> T -> T * option error)
    (req : Request) (res : T) (w : World) :
  exists res' err,
    doJSON env decode req res w =
      (Returns (res', err), logged w [EvDo (jsonRequest req)]) /\
    match client_Do env (events w) (jsonRequest req) with
    | HTTPOk resp =>
        if StatusCode resp =? 200
        then (res', err) = decode (RespBody resp) res
        else res' = res /\ err = Some (statusError (highRune env) resp)
    | HTTPErr _ e => res' = res /\ err = Some e
    end.
Proof.
  unfold doJSON, DefaultClient_Do, call, bind. cbn [events].
  fold (jsonRequest req).
  destruct (client_Do env (events w) (jsonRequest req)) as [resp|resp e].
  - destruct (StatusCode resp =? 200); cbn [negb]; unfold ret.
    + destruct (decode (RespBody resp) res) as [res' err].
      exists res', err. auto.
    + eauto.
  - unfold ret. eauto.
Qed.

(** X5: [doJSON] sends exactly one request, the given one with the two
    JSON headers added, and always returns.  It returns a nil error only
    when a response arrived with status 200 and its body was decoded
    without error; on a transport error or any other status the value
    behind [res] is left as it was and the error is not nil. *)
Theorem doJSON_outcome {T : Type} (env : Env)
    (decode : Body -> T -> T * option error)
    (req : Request) (res : T) (w : World) :
  exists res' err,
    doJSON env decode req res w =
      (Returns (res', err), logged w [EvDo (jsonRequest req)]) /\
    (err = None ->
     exists resp,
       client_Do env (events w) (jsonRequest req) = HTTPOk resp /\
       StatusCode resp = 200 /\
       decode (RespBody resp) res = (res', None)) /\
    ((forall resp,
        client_Do env (events w) (jsonRequest req) = HTTPOk resp ->
        StatusCode resp <> 200) ->
     res' = res /\ err <> None).
Proof.
  destruct (doJSON_cases env decode req res w) as (res' & err & Hrun & Hc).
  exists res', err. split; [exact Hrun|].
  destruct (client_Do env (events w) (jsonRequest req)) as [resp|resp e].
  - destruct (Z.eqb_spec (StatusCode resp) 200) as [H200|Hne].
    + split.
      * intros ->. exists resp. auto.
      * intros H. now destruct (H resp eq_refl).
    + destruct Hc as [-> ->]. split; [discriminate|]. split; [reflexivity|discriminate].
  - destruct Hc as [-> ->]. split; [discriminate|]. split; [reflexivity|discriminate].
Qed.

Lemma PostJSON_cases {D T : Type} (env : Env)
    (marshal : D -> string * option error)
    (decode : Body -> T -> T * option error)
    (action : string) (data : D) (res : T) (w : World) :
  match marshal data with
  | (_, Some err) =>
      PostJSON env marshal decode action data res w =
        (Returns (res, Some err), w)
  | (body, None) =>
      exists res' err,
        PostJSON env marshal decode action data res w =
          (Returns (res', err), logged w [EvDo (postRequest action body)]) /\
        match client_Do env (events w) (postRequest action body) with
        | HTTPOk resp =>
            if StatusCode resp =? 200
            then (res', err) = decode (RespBody resp) res
            else res' = res /\ err = Some (statusError (highRune env) resp)
        | HTTPErr _ e => res' = res /\ err = Some e
        end
  end.
Proof.
  unfold PostJSON. destruct (marshal data) as [body [err|]]; [reflexivity|].
  apply (doJSON_cases env decode
           {| Method := "POST"; URL := Origin ++ action; ReqHeader := [];
              ReqBody := body |} res w).
Qed.

Lemma logFailed_returned (high : HighRune) (actions : list (ptr Action))
    (results : list bool) :
  forall (i : nat) (w w' : World),
    logFailed high actions i results w = (Returns tt, w') ->
    forall j, nth_error results j = Some false ->
              exists a, nth_error actions (i + j) = Some (Some a).
Proof.
  induction results as [|r rest IH]; intros i w w' Hrun j Hj.
  - destruct j; discriminate.
  - cbn [logFailed] in Hrun. unfold bind in Hrun.
    destruct r; cbn [negb] in Hrun.
    + unfold ret in Hrun. destruct j as [|j]; [discriminate|].
      replace (i + S j)%nat with (S i + j)%nat by lia.
      exact (IH _ _ _ Hrun j Hj).
    + destruct (nth_error actions i) as [[a|]|] eqn:Ha;
        try (unfold panic in Hrun; discriminate).
      unfold emit in Hrun. destruct j as [|j].
      * exists a. now replace (i + 0)%nat with i by lia.
      * replace (i + S j)%nat with (S i + j)%nat by lia.
        exact (IH _ _ _ Hrun j Hj).
Qed.

Lemma failureLines_length (high : HighRune) (actions : list (ptr Action))
    (results : list bool) :
  forall i,
    (forall j, nth_error results j = Some false ->
               exists a, nth_error actions (i + j) = Some (Some a)) ->
    length (failureLines high actions i results) = failures results.
Proof.
  unfold failures.
  induction results as [|r rest IH]; intros i H; [reflexivity|].
  cbn [failureLines List.filter].
  assert (Hrest : forall j, nth_error rest j = Some false ->
                    exists a, nth_error actions (S i + j) = Some (Some a)).
  { intros j Hj. specialize (H (S j) Hj).
    now replace (i + S j)%nat with (S i + j)%nat in H by lia. }
  destruct r; cbn [negb].
  - apply (IH _ Hrest).
  - destruct (H O eq_refl) as [a Ha].
    replace (i + 0)%nat with i in Ha by lia. rewrite Ha.
    cbn. f_equal. apply (IH _ Hrest).
Qed.

Lemma Modify_returned (env : Env) (c : Client) (actions : list (ptr Action))
    (w w' : World) (r : ptr ModifyResult) (err : option error) :
  Modify env c actions w = (Returns (r, err), w') ->
  match r, err with
  | Some res, None =>
      let lines :=
        failureLines (highRune env) actions O (ActionResults res) in
      (forall j, nth_error (ActionResults res) j = Some false ->
                 exists a, nth_error actions j = Some (Some a)) /\
      events w' =
        (events w ++
         EvModify actions :: EvDo (modifyRequest env c actions) :: lines)%list /\
      length lines = failures (ActionResults res)
  | None, Some _ =>
      events w' = (events w ++ EvModify actions :: modifyPosts env c actions)%list
  | _, _ => False
  end.
Proof.
  unfold Modify, emit. unfold bind at 1 2. fold (modifyData c actions).
  pose proof (PostJSON_cases env (marshalModify env) (decodeModify env)
                "/v3/send" (modifyData c actions) emptyModifyResult
                (logged w [EvModify actions])) as Hpost.
  unfold modifyPosts, modifyRequest.
  destruct (marshalModify env (modifyData c actions)) as [body [e|]].
  - rewrite Hpost. unfold ret. intros [= <- <- <-]. reflexivity.
  - destruct Hpost as (res' & e & -> & _). cbn [fst snd].
    destruct e as [e|].
    + unfold ret. intros [= <- <- <-]. cbn. now rewrite <- app_assoc.
    + unfold bind, ret.
      destruct (logFailed (highRune env) actions 0 (ActionResults res') _)
        as [[[]|msg|code|] w1] eqn:Hlog; try discriminate.
      intros [= <- <- <-].
      pose proof (logFailed_returned _ _ _ _ _ _ Hlog) as Hin.
      rewrite (logFailed_returns _ _ _ _ _ Hin) in Hlog.
      injection Hlog as <-. cbv zeta. split; [exact Hin|]. split.
      * cbn. rewrite <- !app_assoc. reflexivity.
      * now apply failureLines_length.
Qed.

(** X6: a call of [Modify] sends at most one request.  When the actions
    and the credentials of the client can be marshalled it is one [POST] to
    [https://getpocket.com/v3/send] with exactly the headers [X-Accept] and
    [Content-Type], both [application/json], and the marshalled data as
    body; when they cannot, nothing is sent and [Modify] returns a nil
    result with the marshalling error. *)
Theorem Modify_request (env : Env) (c : Client) (actions : list (ptr Action))
    (w : World) :
  let data := {| Actions := actions; modify_authInfo := Client_authInfo c |} in
  let run := Modify env c actions w in
  exists evs,
    events (snd run) = (events w ++ EvModify actions :: evs)%list /\
    match marshalModify env data with
    | (body, None) =>
        posts evs = [EvDo (postRequest "/v3/send" body)] /\
        URL (postRequest "/v3/send" body) = "https://getpocket.com/v3/send"
    | (_, Some err) =>
        evs = [] /\ fst run = Returns (None, Some err)
    end.
Proof.
  cbv zeta. fold (modifyData c actions).
  destruct (Modify_events env c actions w) as (evs & He & _ & Hp & _).
  unfold modifyPosts, modifyRequest in Hp.
  destruct (marshalModify env (modifyData c actions)) as [body [err|]] eqn:Hm.
  - exists []. unfold Modify, PostJSON, emit, bind, ret.
    fold (modifyData c actions). rewrite Hm. auto.
  - exists evs. split; [exact He|]. split; [exact Hp|reflexivity].
Qed.

(** X7: when [Modify] returns, it returns either a result and a nil error,
    or a nil result and an error, never both or neither.  With a result,
    every [false] among the action results stands at the position of an
    action that was passed, one line was logged for each of them, after the
    one request; with an error nothing was logged. *)
Theorem Modify_returns (env : Env) (c : Client) (actions : list (ptr Action))
    (w w' : World) (r : ptr ModifyResult) (err : option error) :
  Modify env c actions w = (Returns (r, err), w') ->
  match r, err with
  | Some res, None =>
      let lines :=
        failureLines (highRune env) actions O (ActionResults res) in
      (forall j, nth_error (ActionResults res) j = Some false ->
                 exists a, nth_error actions j = Some (Some a)) /\
      events w' =
        (events w ++
         EvModify actions :: EvDo (modifyRequest env c actions) :: lines)%list /\
      length lines = failures (ActionResults res)
  | None, Some _ =>
      events w' = (events w ++ EvModify actions :: modifyPosts env c actions)%list
  | _, _ => False
  end.
Proof. apply Modify_returned. Qed.

Lemma Modify_returns_witness :
  let env := answering [false; true] in
  let actions := [NewDeleteAction 1; NewDeleteAction 2] in
  let run := Modify env sampleClient actions emptyWorld in
  let res := {| ActionResults := [false; true]; ActionErrors := [];
                ModifyResult_Status := 1 |} in
  run = (Returns (Some res, None), snd run) /\
  length (failureLines (highRune env) actions O (ActionResults res)) = 1%nat.
Proof.
  cbv zeta. split; [reflexivity|].
  exact (proj2 (proj2 (Modify_returns (answering [false; true]) sampleClient
           [NewDeleteAction 1; NewDeleteAction 2] emptyWorld _ _ _ eq_refl))).
Defined.

(** ** [commandList]: the bulk deletion and the scenario of the duplicate *)

(** C3 as stated fails: after a reply that [confirm] does not recognise,
    the prompt is issued a second time before the one [Modify] call. *)
Lemma commandList_delete_all_asks_again :
  events (snd (commandList (retrieving [item1; item2]) deleteAllConfig
                 sampleClient (withStdin emptyWorld ["maybe"; "yes"]))) =
  [EvRetrieve (optionsOf deleteAllConfig);
   EvConfirm "Really delete 2 items?";
   EvStdout "Really delete 2 items? [y/n]: ";
   EvStdout "Really delete 2 items? [y/n]: ";
   EvModify [Some {| Action_Action := "delete"; Action_ItemID := 1 |};
             Some {| Action_Action := "delete"; Action_ItemID := 2 |}];
   EvDo (postRequest "/v3/send" "{}")].
Proof. vm_compute. reflexivity. Qed.

(** C3, amended: with [--delete], [commandList] calls [confirm] once,
    for the whole batch.  The prompt [Really delete N items? [y/n]: ] is
    printed once, and once more after each reply that is not recognised.
    When the reply is y or yes, [Modify] is called once, with one action
    for each of the N items in their order, named [delete] and on the id of
    the item, which sends the one request that carries them; nothing is
    probed and nothing else is deleted.  On n or no nothing is done; on q
    or quit and at the end of the input the process exits with code 1. *)
Theorem commandList_delete_all (env : Env) (conf : Config) (client : Client)
    (w : World) (res : RetrieveResult) (tpl : Template Item) :
  DeleteAll conf = true ->
  client_Retrieve env (events w) (optionsOf conf) = inl res ->
  itemTemplateOf env conf = Some tpl ->
  let items := List res in
  let prompt :=
    "Really delete " ++ itoa (Z.of_nat (length items)) ++ " items?" in
  let actions := map deleteOf items in
  let run := commandList env conf client w in
  length actions = length items /\
  exists skipped evs,
    Forall (fun line => unrecognised env line = true) skipped /\
    events (snd run) =
      (events w ++ EvRetrieve (optionsOf conf) :: EvConfirm prompt ::
       repeat (EvStdout (prompt ++ " [y/n]: ")) (S (length skipped)) ++
       evs)%list /\
    ((exists line rest tail,
        stdin w = (skipped ++ line :: rest)%list /\
        saysYes env line = true /\
        evs = EvModify actions :: tail /\
        audit tail = [] /\
        posts tail = sendPosts env client actions /\
        (fst run = Returns tt \/ exists msg, fst run = Panics msg)) \/
     (exists line rest,
        stdin w = (skipped ++ line :: rest)%list /\
        saysYes env line = false /\ saysNo env line = true /\
        evs = [] /\ fst run = Returns tt) \/
     (exists line rest,
        stdin w = (skipped ++ line :: rest)%list /\
        saysQuit env line = true /\
        evs = [EvStderr ("Quitting. Bye!" ++ newline)] /\
        fst run = Exits 1) \/
     (stdin w = skipped /\
      evs = [EvStderr ("EOF" ++ newline)] /\
      fst run = Exits 1)).
Proof.
  intros Hall Hret Htpl items prompt actions run.
  split; [apply length_map|].
  assert (Hrun : run =
    (yes <- confirm env prompt ;;
     if (yes : bool)
     then r <- Modify env client actions ;; reportModify env r
     else ret tt) (logged w [EvRetrieve (optionsOf conf)])).
  { unfold run, commandList, Retrieve, call. unfold bind at 1 2.
    fold (optionsOf conf). rewrite Hret.
    unfold itemTemplateOf in Htpl.
    destruct (negb (String.eqb (FormatTemplate conf) "")).
    - destruct (template_Parse env (FormatTemplate conf)); [|discriminate].
      unfold ret at 1. now rewrite Hall.
    - unfold ret at 1. now rewrite Hall. }
  set (w0 := logged w [EvRetrieve (optionsOf conf)]) in Hrun.
  destruct (confirm_ends env prompt w0) as (skipped & cevs & Hsk & Hce & Hend).
  exists skipped.
  assert (Hstart : forall tail,
            (events (snd (confirm env prompt w0)) ++ tail)%list =
            (events w ++ EvRetrieve (optionsOf conf) :: EvConfirm prompt ::
             cevs ++ tail)%list).
  { intros tail. rewrite Hce. unfold w0. cbn [events logged].
    repeat (first [rewrite <- app_assoc | progress cbn [app]]). reflexivity. }
  subst run. rewrite Hrun, bind_outcome.
  set (w1 := snd (confirm env prompt w0)) in *.
  destruct Hend as [line rest b Ho Hl Hb Hb' He|line rest Ho Hl Hq He|Ho Hl He];
    rewrite Ho; unfold w0 in Hl; cbn [stdin logged] in Hl.
  - destruct b.
    + destruct (Modify_report_events env client actions w1)
        as (mevs & Hm & Hma & Hmp & Hmo).
      cbv zeta in Hm, Hmo.
      exists (EvModify actions :: mevs). split; [exact Hsk|]. split.
      * rewrite Hm, Hstart, He. reflexivity.
      * left. exists line, rest, mevs.
        rewrite <- modifyPosts_sendPosts.
        split; [exact Hl|]. split; [exact Hb|]. split; [reflexivity|].
        split; [exact Hma|]. split; [exact Hmp|exact Hmo].
    + exists []. split; [exact Hsk|]. split.
      * cbn [ret snd]. rewrite <- (app_nil_r (events w1)), Hstart, He.
        reflexivity.
      * right. left. exists line, rest.
        split; [exact Hl|]. split; [exact Hb|]. split; [now apply Hb'|].
        split; reflexivity.
  - exists [EvStderr ("Quitting. Bye!" ++ newline)].
    split; [exact Hsk|]. split.
    + cbn [snd]. rewrite <- (app_nil_r (events w1)), Hstart, He.
      now rewrite app_nil_r.
    + right. right. left. exists line, rest.
      split; [exact Hl|]. split; [exact Hq|]. split; reflexivity.
  - exists [EvStderr ("EOF" ++ newline)].
    split; [exact Hsk|]. split.
    + cbn [snd]. rewrite <- (app_nil_r (events w1)), Hstart, He.
      now rewrite app_nil_r.
    + right. right. right. split; [exact Hl|]. split; reflexivity.
Qed.

Lemma commandList_delete_all_witness :
  let env := retrieving [item1; item2] in
  let w := withStdin emptyWorld ["yes"] in
  let run := commandList env deleteAllConfig sampleClient w in
  DeleteAll deleteAllConfig = true /\
  client_Retrieve env (events w) (optionsOf deleteAllConfig) =
    inl {| List := [item1; item2] |} /\
  itemTemplateOf env deleteAllConfig = Some (defaultItemTemplate env) /\
  events (snd run) =
    [EvRetrieve (optionsOf deleteAllConfig);
     EvConfirm "Really delete 2 items?";
     EvStdout "Really delete 2 items? [y/n]: ";
     EvModify [Some {| Action_Action := "delete"; Action_ItemID := 1 |};
               Some {| Action_Action := "delete"; Action_ItemID := 2 |}];
     EvDo (postRequest "/v3/send" "{}")] /\
  length (map deleteOf [item1; item2]) = 2%nat.
Proof.
  intros env w run.
  split; [reflexivity|]. split; [reflexivity|]. split; [reflexivity|].
  split; [vm_compute; reflexivity|].
  exact (proj1 (commandList_delete_all env deleteAllConfig sampleClient w
                  {| List := [item1; item2] |} (defaultItemTemplate env)
                  eq_refl eq_refl eq_refl)).
Defined.

(** C4: the two items of the scenario, retrieved in either order, without
    [--delete] and without [--cull]: item 2 is printed first and kept,
    item 1 is printed second, found to be a duplicate of it (both have the
    canonical URL [https://a.com/x]) and deleted by a [Modify] call with
    the one action whose name is [delete] and whose item is 1, which sends
    one request; there is no other [Modify] call, no question and no
    probe. *)
Theorem commandList_duplicate_scenario (env : Env) (conf : Config)
    (client : Client) (w : World) (t1 t2 : string) (a1 a2 : Z)
    (l : list Item) (tpl : Template Item) :
  let i1 := scenarioItem1 t1 a1 in
  let i2 := scenarioItem2 t2 a2 in
  DeleteAll conf = false ->
  Cull conf = false ->
  client_Retrieve env (events w) (optionsOf conf) = inl {| List := l |} ->
  l = [i1; i2] \/ l = [i2; i1] ->
  itemTemplateOf env conf = Some tpl ->
  snd (tpl i1) = None ->
  snd (tpl i2) = None ->
  let run := commandList env conf client w in
  CleanURL (Item_URL i2) = "https://a.com/x" /\
  CleanURL (Item_URL i1) = "https://a.com/x" /\
  exists evs,
    events (snd run) =
      (events w ++
       [EvRetrieve (optionsOf conf);
        EvStdout "1/2 "; EvStdout (fst (tpl i2)); EvStdout newline;
        EvStdout "2/2 "; EvStdout (fst (tpl i1));
        EvStdout (newline ++ "Item already seen. Deleting..." ++ newline);
        EvModify [Some {| Action_Action := "delete"; Action_ItemID := 1 |}]] ++
       evs)%list /\
    audit evs = [] /\
    posts evs = sendPosts env client [Some {| Action_Action := "delete"; Action_ItemID := 1 |}] /\
    (fst run = Returns tt \/ exists msg, fst run = Panics msg).
Proof.
  intros i1 i2 Hall Hcull Hret Hl Htpl H1 H2 run.
  assert (Hu2 : CleanURL (Item_URL i2) = "https://a.com/x")
    by (vm_compute; reflexivity).
  assert (Hu1 : CleanURL (Item_URL i1) = "https://a.com/x")
    by (vm_compute; reflexivity).
  split; [exact Hu2|]. split; [exact Hu1|].
  assert (Hrun : run =
    (deleteItem env client i1 ;;; emit (EvStdout newline) ;;; ret tt)
      (logged w [EvRetrieve (optionsOf conf);
                 EvStdout "1/2 "; EvStdout (fst (tpl i2)); EvStdout newline;
                 EvStdout "2/2 "; EvStdout (fst (tpl i1));
                 EvStdout (newline ++ "Item already seen. Deleting..." ++
                           newline)])).
  { assert (Hloop : forall w0,
      cullLoop env conf client tpl 2 0 [i2; i1] ∅ w0 =
      (deleteItem env client i1 ;;; emit (EvStdout newline) ;;; ret tt)
        (logged w0 [EvStdout "1/2 "; EvStdout (fst (tpl i2)); EvStdout newline;
                    EvStdout "2/2 "; EvStdout (fst (tpl i1));
                    EvStdout (newline ++ "Item already seen. Deleting..." ++
                              newline)])).
    { intros w0.
      rewrite cullLoop_keeps; [|exact Hcull|exact H2|set_solver].
      rewrite cullLoop_deletes_duplicate;
        [|exact H1|rewrite Hu1, Hu2; set_solver].
      rewrite !logged_logged. reflexivity. }
    unfold run, commandList, Retrieve, call. unfold bind at 1 2.
    fold (optionsOf conf). rewrite Hret.
    unfold itemTemplateOf in Htpl.
    destruct (negb (String.eqb (FormatTemplate conf) "")).
    - destruct (template_Parse env (FormatTemplate conf)) as [t|];
        [|discriminate].
      injection Htpl as ->. unfold ret at 1. rewrite Hall.
      cbn [List]. rewrite (sortBySortID_scenario t1 t2 a1 a2 l Hl).
      fold i1 i2. cbn [length]. rewrite Hloop, logged_logged. reflexivity.
    - injection Htpl as ->. unfold ret at 1. rewrite Hall.
      cbn [List]. rewrite (sortBySortID_scenario t1 t2 a1 a2 l Hl).
      fold i1 i2. cbn [length]. rewrite Hloop, logged_logged. reflexivity. }
  rewrite Hrun. unfold deleteItem. cbn [Item_ItemID i1 scenarioItem1].
  rewrite then_emit.
  match goal with
  | |- context [(_ <- _ ;; _) ?w0] =>
      destruct (Modify_report_events env client [NewDeleteAction 1] w0)
        as (evs & He & Ha & Hp & Ho)
  end.
  rewrite modifyPosts_sendPosts in Hp.
  match goal with
  | |- context [bind (Modify ?e ?c ?a) ?k ?w0] =>
      destruct (bind (Modify e c a) k w0) as [out w1]
  end.
  simpl in He, Ho. destruct Ho as [->|[msg ->]].
  - exists (evs ++ [EvStdout newline])%list. simpl. rewrite He.
    rewrite <- !app_assoc, audit_app, posts_app, Ha, Hp.
    simpl. rewrite app_nil_r. auto.
  - exists evs. simpl. rewrite He. rewrite <- !app_assoc. simpl.
    split; [reflexivity|]. split; [exact Ha|]. split; [exact Hp|].
    right. now exists msg.
Qed.

Lemma commandList_duplicate_scenario_witness :
  let env := retrieving [item1; item2] in
  let tpl := defaultItemTemplate env in
  DeleteAll sampleConfig = false /\
  Cull sampleConfig = false /\
  client_Retrieve env (events emptyWorld) (optionsOf sampleConfig) =
    inl {| List := [item1; item2] |} /\
  itemTemplateOf env sampleConfig = Some tpl /\
  snd (tpl item1) = None /\ snd (tpl item2) = None /\
  exists evs,
    events (snd (commandList env sampleConfig sampleClient emptyWorld)) =
      (events emptyWorld ++
       [EvRetrieve (optionsOf sampleConfig);
        EvStdout "1/2 "; EvStdout (fst (tpl item2)); EvStdout newline;
        EvStdout "2/2 "; EvStdout (fst (tpl item1));
        EvStdout (newline ++ "Item already seen. Deleting..." ++ newline);
        EvModify [Some {| Action_Action := "delete"; Action_ItemID := 1 |}]] ++
       evs)%list /\
    audit evs = [].
Proof.
  intros env tpl. repeat (split; [reflexivity|]).
  destruct (commandList_duplicate_scenario env sampleConfig sampleClient
              emptyWorld "A" "A" 0 0 [item1; item2] tpl
              eq_refl eq_refl eq_refl (or_introl eq_refl)
              eq_refl eq_refl eq_refl) as (_ & _ & evs & He & Ha & _ & _).
  exists evs. split; [exact He|exact Ha].
Defined.

(** ** [commandList] on any list of items *)

Lemma existsb_eqb_In (u : string) (l : list string) :
  existsb (String.eqb u) l = true <-> In u l.
Proof.
  rewrite existsb_exists. split.
  - intros (x & Hx & He). apply String.eqb_eq in He. now subst.
  - intros H. exists u. split; [exact H|apply String.eqb_refl].
Qed.

Lemma cullLoop_without_cull (env : Env) (conf : Config) (client : Client)
    (tpl : Template Item) (n : nat) (items : list Item) :
  Cull conf = false ->
  Forall (fun item => snd (tpl item) = None) items ->
  forall (earlier : list string) (seen : gset string) (i : nat) (w : World),
    (forall u, u ∈ seen <-> In u earlier) ->
    let run := cullLoop env conf client tpl n i items seen w in
    exists evs,
      events (snd run) = (events w ++ evs)%list /\
      ((fst run = Returns tt /\
        audit evs = deletionsOf (repeats earlier items)) \/
       (exists msg k,
          fst run = Panics msg /\
          audit evs = firstn k (deletionsOf (repeats earlier items)))).
Proof.
  intros Hcull Htpl. induction Htpl as [|item rest Hitem Hrest IH];
    intros earlier seen i w Hseen; cbv zeta.
  - exists []. cbn. rewrite app_nil_r. auto.
  - set (url := CleanURL (Item_URL item)).
    assert (Hnext : forall u, u ∈ ({[ url ]} ∪ seen : gset string)
                              <-> In u (url :: earlier)).
    { intros u. rewrite elem_of_union, elem_of_singleton, Hseen. cbn.
      split; intros [H|H]; auto. }
    cbn [repeats]. fold url.
    destruct (decide (url ∈ seen)) as [Hin|Hout].
    + assert (Hearlier : existsb (String.eqb url) earlier = true)
        by now apply existsb_eqb_In, Hseen.
      rewrite Hearlier.
      assert (Hsame : forall u, u ∈ seen <-> In u (url :: earlier)).
      { intros u. rewrite Hseen. cbn. split; [auto|].
        intros [<-|H]; [now apply Hseen|exact H]. }
      rewrite (cullLoop_deletes_duplicate env conf client tpl n i item rest
                 seen w Hitem Hin).
      match goal with
      | |- context [logged w ?l] => set (w0 := logged w l); set (said := l)
      end.
      unfold deleteItem. cbv zeta.
      destruct (Modify_report_events env client
                  [NewDeleteAction (Item_ItemID item)] w0)
        as (mevs & Hm & Hma & _ & Hmo).
      cbv zeta in Hm, Hmo. rewrite bind_outcome.
      set (w1 := snd ((r <- Modify env client
                              [NewDeleteAction (Item_ItemID item)] ;;
                       reportModify env r) w0)) in *.
      destruct Hmo as [->|[msg ->]].
      * rewrite emit_then.
        destruct (IH (url :: earlier) seen (S i)
                    (logged w1 [EvStdout newline]) Hsame)
          as (evs & He & Ho).
        exists (said ++ EvModify [NewDeleteAction (Item_ItemID item)] ::
                mevs ++ EvStdout newline :: evs)%list.
        split.
        { rewrite He. cbn [events logged]. rewrite Hm. unfold w0, said.
          cbn [events logged].
          repeat (first [rewrite <- app_assoc | progress cbn [app]]).
          reflexivity. }
        assert (Haud : forall tail,
                  audit (said ++ EvModify [NewDeleteAction (Item_ItemID item)]
                         :: mevs ++ EvStdout newline :: tail)%list =
                  EvModify [NewDeleteAction (Item_ItemID item)] :: audit tail).
        { intros tail. rewrite audit_app. cbn.
          rewrite audit_app, Hma. reflexivity. }
        rewrite Haud.
        destruct Ho as [[Hr Ha]|(msg & k & Hr & Ha)].
        -- left. split; [exact Hr|]. cbn. now rewrite Ha.
        -- right. exists msg, (S k). split; [exact Hr|]. cbn. now rewrite Ha.
      * exists (said ++ EvModify [NewDeleteAction (Item_ItemID item)] :: mevs)%list.
        split.
        { cbn [snd]. rewrite Hm. unfold w0, said. cbn [events logged].
          repeat (first [rewrite <- app_assoc | progress cbn [app]]).
          reflexivity. }
        right. exists msg, 1%nat. split; [reflexivity|].
        rewrite audit_app.
        change (audit (EvModify [NewDeleteAction (Item_ItemID item)] :: mevs))
          with (EvModify [NewDeleteAction (Item_ItemID item)] :: audit mevs).
        rewrite Hma. reflexivity.
    + assert (Hearlier : existsb (String.eqb url) earlier = false).
      { destruct (existsb (String.eqb url) earlier) eqn:E; [|reflexivity].
        apply existsb_eqb_In, Hseen in E. contradiction. }
      rewrite Hearlier.
      rewrite (cullLoop_keeps env conf client tpl n i item rest seen w
                 Hcull Hitem Hout).
      fold url.
      match goal with
      | |- context [logged w ?l] => set (w0 := logged w l); set (said := l)
      end.
      destruct (IH (url :: earlier) ({[ url ]} ∪ seen) (S i) w0 Hnext)
        as (evs & He & Ho).
      exists (said ++ evs)%list. split.
      { rewrite He. unfold w0. cbn [events logged].
        now rewrite <- app_assoc. }
      rewrite audit_app. cbn [app]. exact Ho.
Qed.

Lemma commandList_listing (env : Env) (conf : Config) (client : Client)
    (w : World) (res : RetrieveResult) (tpl : Template Item) :
  DeleteAll conf = false ->
  client_Retrieve env (events w) (optionsOf conf) = inl res ->
  itemTemplateOf env conf = Some tpl ->
  commandList env conf client w =
  cullLoop env conf client tpl (length (sortBySortID (List res))) O
    (sortBySortID (List res)) ∅ (logged w [EvRetrieve (optionsOf conf)]).
Proof.
  intros Hall Hret Htpl.
  unfold commandList, Retrieve, call. unfold bind at 1 2.
  fold (optionsOf conf). rewrite Hret.
  unfold itemTemplateOf in Htpl.
  destruct (negb (String.eqb (FormatTemplate conf) "")).
  - destruct (template_Parse env (FormatTemplate conf)) as [t|];
      [|discriminate].
    injection Htpl as ->. unfold ret at 1. now rewrite Hall.
  - injection Htpl as ->. unfold ret at 1. now rewrite Hall.
Qed.

Lemma sortBySortID_Permutation (items : list Item) :
  Permutation items (sortBySortID items).
Proof.
  unfold sortBySortID. rewrite <- Permutation_rev.
  assert (H : forall l acc,
            Permutation (l ++ acc)
              (fold_left (fun revPrefix x => swapDown x revPrefix) l acc)).
  { induction l as [|x l IH]; intros acc; cbn; [reflexivity|].
    rewrite <- IH. rewrite Permutation_middle.
    apply Permutation_app_head.
    clear. induction acc as [|y r IHr]; cbn [swapDown]; [reflexivity|].
    destruct (bySortID_Less x y); [|reflexivity].
    rewrite perm_swap. now apply perm_skip. }
  specialize (H items []). now rewrite app_nil_r in H.
Qed.

(** X8: without [--cull] and [--delete], [commandList] asks nothing and
    probes nothing; its calls of [Modify] are, for each item whose canonical
    URL is that of an item before it in the order of [SortId], one call
    with the one action named [delete] on the id of that item, in that
    order.  All of them are made when the run returns; a run that panics
    has made the first few of them.  The items have distinct [SortId]s, so that
    [sort.Sort] can leave them in one order only. *)
Theorem commandList_deletes_repeats (env : Env) (conf : Config)
    (client : Client) (w : World) (res : RetrieveResult)
    (tpl : Template Item) :
  NoDup (map SortId (List res)) ->
  DeleteAll conf = false ->
  Cull conf = false ->
  client_Retrieve env (events w) (optionsOf conf) = inl res ->
  itemTemplateOf env conf = Some tpl ->
  Forall (fun item => snd (tpl item) = None) (List res) ->
  let run := commandList env conf client w in
  let expected := deletionsOf (repeats [] (sortBySortID (List res))) in
  exists evs,
    events (snd run) = (events w ++ EvRetrieve (optionsOf conf) :: evs)%list /\
    ((fst run = Returns tt /\ audit evs = expected) \/
     (exists msg k, fst run = Panics msg /\ audit evs = firstn k expected)).
Proof.
  intros _ Hall Hcull Hret Htpl Hok. cbv zeta.
  rewrite (commandList_listing env conf client w res tpl Hall Hret Htpl).
  assert (Hsorted : Forall (fun item => snd (tpl item) = None)
                      (sortBySortID (List res)))
    by exact (Permutation_Forall (sortBySortID_Permutation (List res)) Hok).
  destruct (cullLoop_without_cull env conf client tpl
              (length (sortBySortID (List res))) (sortBySortID (List res))
              Hcull Hsorted [] ∅ O
              (logged w [EvRetrieve (optionsOf conf)]))
    as (evs & He & Ho).
  { intros u. split; [set_solver|intros []]. }
  exists evs. split; [|exact Ho].
  rewrite He. cbn [events logged]. now rewrite <- app_assoc.
Qed.

Lemma commandList_deletes_repeats_witness :
  let env := retrieving [item1; item2] in
  let tpl := defaultItemTemplate env in
  let run := commandList env sampleConfig sampleClient emptyWorld in
  NoDup (map SortId [item1; item2]) /\
  DeleteAll sampleConfig = false /\
  Cull sampleConfig = false /\
  client_Retrieve env (events emptyWorld) (optionsOf sampleConfig) =
    inl {| List := [item1; item2] |} /\
  itemTemplateOf env sampleConfig = Some tpl /\
  Forall (fun item => snd (tpl item) = None) [item1; item2] /\
  deletionsOf (repeats [] (sortBySortID [item1; item2])) =
    [EvModify [Some {| Action_Action := "delete"; Action_ItemID := 1 |}]] /\
  exists evs,
    events (snd run) =
      (events emptyWorld ++ EvRetrieve (optionsOf sampleConfig) :: evs)%list /\
    ((fst run = Returns tt /\
      audit evs = deletionsOf (repeats [] (sortBySortID [item1; item2]))) \/
     (exists msg k,
        fst run = Panics msg /\
        audit evs =
          firstn k (deletionsOf (repeats [] (sortBySortID [item1; item2]))))).
Proof.
  cbv zeta.
  assert (Hok : Forall (fun item =>
                  snd (defaultItemTemplate (retrieving [item1; item2]) item)
                  = None) [item1; item2]) by (repeat constructor).
  assert (Hids : NoDup (map SortId [item1; item2])).
  { cbn. apply NoDup_cons_2; [|apply NoDup_singleton].
    rewrite list_elem_of_singleton. discriminate. }
  split; [exact Hids|].
  split; [reflexivity|]. split; [reflexivity|]. split; [reflexivity|].
  split; [reflexivity|]. split; [exact Hok|].
  split; [vm_compute; reflexivity|].
  exact (commandList_deletes_repeats (retrieving [item1; item2]) sampleConfig
           sampleClient emptyWorld {| List := [item1; item2] |}
           (defaultItemTemplate (retrieving [item1; item2]))
           Hids eq_refl eq_refl eq_refl eq_refl Hok).
Defined.

(** ** The interaction of the probe *)

Lemma written_not_exec (evs : list Event) (name : string) (args : list string) :
  forallb written evs = true -> ~ In (EvExec name args) evs.
Proof.
  intros Hw Hin. rewrite forallb_forall in Hw.
  specialize (Hw _ Hin). discriminate.
Qed.

Lemma confirm_written (env : Env) (s : string) (w : World) :
  exists evs,
    events (snd (confirm env s w)) = (events w ++ EvConfirm s :: evs)%list /\
    forallb written evs = true /\
    (fst (confirm env s w) = Returns true \/
     fst (confirm env s w) = Returns false \/
     fst (confirm env s w) = Exits 1).
Proof.
  unfold confirm.
  destruct (confirmLoop_adds env s (stdin w) (logged w [EvConfirm s]))
    as (evs & He & Hw & Ho).
  exists evs. split; [|auto]. rewrite He. cbn. now rewrite <- app_assoc.
Qed.

Lemma probeFetch_cases (env : Env) (item : Item) (w : World) :
  let url := Item_URL item in
  match http_Head env (events w) url with
  | HTTPOk resp =>
      probeFetch env item w = (Returns (Some resp, None), logged w [EvHead url])
  | HTTPErr _ e =>
      exists evs,
        probeFetch env item w =
          (Returns (asPair (http_Get env (events w ++ headFailed item e) url)),
           logged w evs) /\
        audit evs = [EvHead url; EvGet url] /\
        forall name args, ~ In (EvExec name args) evs
  end.
Proof.
  cbv zeta. unfold probeFetch, call, bind, emit, ret, headFailed.
  cbv beta iota.
  destruct (http_Head env (events w) (Item_URL item)) as [resp|resp e];
    cbn [asPair]; [reflexivity|].
  cbv beta iota. rewrite !logged_logged. cbn [app events logged].
  match goal with
  | |- context [asPair ?x] => destruct x as [resp'|resp' e']
  end; cbn [asPair]; cbv beta iota; rewrite ?logged_logged; cbn [app].
  - eexists. split; [reflexivity|]. split; [reflexivity|].
    intros name args [H|[H|[H|[]]]]; discriminate.
  - eexists. split; [reflexivity|]. split; [reflexivity|].
    intros name args [H|[H|[H|[H|[]]]]]; discriminate.
Qed.

Lemma probeBody_world (r : ptr Response * option error) (w : World) :
  snd (probeBody r w) = w.
Proof.
  unfold probeBody. destruct r as [chk err].
  destruct (notEOF err); [|reflexivity].
  destruct chk as [resp|]; [|reflexivity].
  destruct (body_err (RespBody resp)); [|reflexivity].
  now destruct (_ || _).
Qed.

(** What [probeReport] adds: at most one question, and the browser only
    after that question was answered with yes. *)
Lemma probeReport_cases (env : Env) (item : Item) (chk : ptr Response)
    (err : option error) (w : World) :
  let run := probeReport env item chk err w in
  exists evs,
    events (snd run) = (events w ++ evs)%list /\
    ((audit evs = [] /\ forall name args, ~ In (EvExec name args) evs) \/
     exists resp,
       chk = Some resp /\ err = None /\ StatusCode resp <= 308 /\
       audit evs = [EvConfirm (openPromptOf item resp)] /\
       forall name args,
         In (EvExec name args) evs ->
         name = "firefox" /\ args = ["--new-tab"; RequestURL resp] /\
         fst (confirm env (openPromptOf item resp)
                (logged w [EvStdout (" " ++ Status resp ++ newline)])) =
           Returns true /\
         (exec_Output env
            (events (snd (confirm env (openPromptOf item resp)
               (logged w [EvStdout (" " ++ Status resp ++ newline)]))))
            name args <> None -> fst run = Exits 1)).
Proof.
  cbv zeta. unfold probeReport.
  assert (Hquiet : forall msg : string,
            exists evs, events w = (events w ++ evs)%list /\
              ((audit evs = [] /\ forall name args, ~ In (EvExec name args) evs) \/
               exists resp,
                 chk = Some resp /\ err = None /\ StatusCode resp <= 308 /\
                 audit evs = [EvConfirm (openPromptOf item resp)] /\
                 forall name args,
                   In (EvExec name args) evs ->
                   name = "firefox" /\ args = ["--new-tab"; RequestURL resp] /\
                   fst (confirm env (openPromptOf item resp)
                          (logged w [EvStdout (" " ++ Status resp ++ newline)])) =
                     Returns true /\
                   (exec_Output env
                      (events (snd (confirm env (openPromptOf item resp)
                         (logged w [EvStdout (" " ++ Status resp ++ newline)]))))
                      name args <> None ->
                    @Panics unit msg = Exits 1))).
  { intros msg. exists []. rewrite app_nil_r. split; [reflexivity|].
    left. split; [reflexivity|]. intros name args []. }
  destruct err as [e|].
  - rewrite bind_outcome. cbn [ret fst snd].
    destruct (notEOF (Some e) || false).
    + destruct chk as [resp|]; [|apply (Hquiet nilDereference)].
      eexists [_]. split; [reflexivity|]. left. split; [reflexivity|].
      intros name args [H|[]]; discriminate.
    + exists []. cbn. rewrite app_nil_r. split; [reflexivity|].
      left. split; [reflexivity|]. intros name args [].
  - destruct chk as [resp|].
    2:{ rewrite bind_outcome. cbn [panic fst snd]. apply (Hquiet nilDereference). }
    rewrite bind_outcome. cbn [ret fst snd].
    destruct (Z.leb_spec (StatusCode resp) 308) as [Hle|Hgt].
    2:{ cbn. eexists [_]. split; [reflexivity|]. left.
        split; [reflexivity|]. intros name args [H|[]]; discriminate. }
    rewrite emit_then, bind_outcome. fold (openPromptOf item resp).
    set (w1 := logged w [EvStdout (" " ++ Status resp ++ newline)]).
    destruct (confirm_written env (openPromptOf item resp) w1)
      as (cevs & Hc & Hcw & Hco).
    destruct (written_quiet cevs Hcw) as [Hca _].
    set (run := confirm env (openPromptOf item resp) w1) in *.
    destruct Hco as [Hco|[Hco|Hco]]; rewrite Hco.
    + unfold call. rewrite bind_outcome. cbn [fst snd].
      set (out := exec_Output env (events run.2) "firefox"
                    ["--new-tab"; RequestURL resp]).
      set (said := EvStdout (" " ++ Status resp ++ newline)).
      assert (Hexec : forall tail name args,
                forallb written tail = true ->
                In (EvExec name args)
                  (said :: EvConfirm (openPromptOf item resp) ::
                   cevs ++ EvExec "firefox" ["--new-tab"; RequestURL resp] ::
                   tail)%list ->
                name = "firefox" /\ args = ["--new-tab"; RequestURL resp]).
      { intros tail name args Ht [H|[H|H]]; try discriminate.
        apply in_app_or in H as [H|[H|H]].
        - now apply written_not_exec in H.
        - injection H as <- <-. auto.
        - now apply written_not_exec in H. }
      assert (Hev : forall tail,
                (events run.2 ++
                 EvExec "firefox" ["--new-tab"; RequestURL resp] :: tail)%list =
                (events w ++ said :: EvConfirm (openPromptOf item resp) ::
                 cevs ++ EvExec "firefox" ["--new-tab"; RequestURL resp] ::
                 tail)%list).
      { intros tail. rewrite Hc. unfold w1. cbn [events logged].
        repeat (first [rewrite <- app_assoc | progress cbn [app]]).
        reflexivity. }
      assert (Haud : forall tail,
                forallb written tail = true ->
                audit (said :: EvConfirm (openPromptOf item resp) ::
                       cevs ++ EvExec "firefox" ["--new-tab"; RequestURL resp] ::
                       tail)%list = [EvConfirm (openPromptOf item resp)]).
      { intros tail Ht. destruct (written_quiet tail Ht) as [Hta _].
        change (audit (said :: EvConfirm (openPromptOf item resp) :: ?l))
          with (EvConfirm (openPromptOf item resp) :: audit l).
        cbn. unfold audit in *. rewrite List.filter_app, Hca. cbn.
        now rewrite Hta. }
      destruct out as [[e [stderr|]]|] eqn:Hout.
      * eexists. split.
        { cbn [bind emit os_Exit fst snd events logged].
          unfold bind, emit, os_Exit. cbn [fst snd events logged].
          rewrite <- app_assoc. cbn [app]. apply Hev. }
        right. exists resp. repeat (split; [first [reflexivity|assumption]|]).
        split; [now apply Haud|].
        intros name args Hin.
        apply Hexec in Hin as [-> ->]; [|reflexivity].
        repeat (split; [first [reflexivity|assumption]|]). reflexivity.
      * eexists. split.
        { unfold bind, emit, os_Exit. cbn [fst snd events logged].
          rewrite <- app_assoc. cbn [app]. apply Hev. }
        right. exists resp. repeat (split; [first [reflexivity|assumption]|]).
        split; [now apply Haud|].
        intros name args Hin.
        apply Hexec in Hin as [-> ->]; [|reflexivity].
        repeat (split; [first [reflexivity|assumption]|]). reflexivity.
      * eexists. split.
        { unfold ret. cbn [fst snd events logged]. apply Hev. }
        right. exists resp. repeat (split; [first [reflexivity|assumption]|]).
        split; [now apply Haud|].
        intros name args Hin.
        apply Hexec in Hin as [-> ->]; [|reflexivity].
        repeat (split; [first [reflexivity|assumption]|]).
        intros Hne. exfalso. apply Hne. exact Hout.
    + exists (EvStdout (" " ++ Status resp ++ newline) ::
              EvConfirm (openPromptOf item resp) :: cevs).
      split.
      { cbn [ret snd]. rewrite Hc. unfold w1. cbn [events logged].
        now rewrite <- app_assoc. }
      right. exists resp. repeat (split; [first [reflexivity|assumption]|]).
      split.
      { change (audit (?a :: EvConfirm ?p :: ?l)) with (EvConfirm p :: audit l).
        now rewrite Hca. }
      intros name args [H|[H|H]]; try discriminate.
      now apply written_not_exec in H.
    + exists (EvStdout (" " ++ Status resp ++ newline) ::
              EvConfirm (openPromptOf item resp) :: cevs).
      split.
      { cbn [snd]. rewrite Hc. unfold w1. cbn [events logged].
        now rewrite <- app_assoc. }
      right. exists resp. repeat (split; [first [reflexivity|assumption]|]).
      split.
      { change (audit (?a :: EvConfirm ?p :: ?l)) with (EvConfirm p :: audit l).
        now rewrite Hca. }
      intros name args [H|[H|H]]; try discriminate.
      now apply written_not_exec in H.
Qed.

Lemma probeAndAsk_shape (env : Env) (client : Client) (item : Item)
    (w : World) :
  exists evs,
    events (snd (probeAndAsk env client item w)) = (events w ++ evs)%list /\
    probeTalk env item w (fst (probeAndAsk env client item w)) (audit evs).
Proof.
  unfold probeAndAsk.
  assert (Hfetch : exists r fevs fetch,
            probeFetch env item w = (Returns r, logged w fevs) /\
            audit fevs = fetch /\
            match http_Head env (events w) (Item_URL item) with
            | HTTPOk _ => fetch = [EvHead (Item_URL item)]
            | HTTPErr _ _ => fetch = [EvHead (Item_URL item);
                                      EvGet (Item_URL item)]
            end /\
            forall resp, r = (Some resp, None) -> arrived env item w resp).
  { pose proof (probeFetch_cases env item w) as H. cbv zeta in H.
    unfold arrived.
    destruct (http_Head env (events w) (Item_URL item)) as [resp|resp e].
    - eexists _, _, _. split; [exact H|]. split; [reflexivity|].
      split; [reflexivity|]. now intros resp' [= <-].
    - destruct H as (fevs & Hr & Ha & _).
      eexists _, fevs, _. split; [exact Hr|]. split; [exact Ha|].
      split; [reflexivity|]. intros resp' Heq.
      destruct (http_Get env _ (Item_URL item)) as [r0|r0 e0];
        cbn [asPair] in Heq; [now injection Heq as ->|discriminate]. }
  destruct Hfetch as (r & fevs & fetch & Hf & Hfa & Hfetch & Harr).
  rewrite bind_outcome, Hf. cbn [fst snd].
  rewrite bind_outcome, probeBody_world.
  assert (Hbody : snd r = None ->
                  fst (probeBody r (logged w fevs)) = Returns (fst r)).
  { destruct r as [c e]. cbn [fst snd]. intros ->.
    now rewrite probeBody_response_arrived. }
  assert (Hstop : forall (out : Outcome unit) (evs opens : list Event),
            out <> Returns tt ->
            audit evs = opens ->
            (opens = [] \/
             exists resp,
               arrived env item w resp /\ StatusCode resp <= 308 /\
               opens = [EvConfirm (openPromptOf item resp)]) ->
            exists evs',
              (events (logged w fevs) ++ evs)%list = (events w ++ evs')%list /\
              probeTalk env item w out (audit evs')).
  { intros out evs opens Hout Ha Ho. exists (fevs ++ evs)%list.
    split; [cbn; now rewrite <- app_assoc|].
    exists fetch, opens, []. split; [now rewrite audit_app, Hfa, Ha, app_nil_r|].
    split; [exact Hfetch|]. split; [exact Ho|]. split; [now left|].
    intros H. contradiction. }
  destruct (fst (probeBody r (logged w fevs))) as [chk|msg|code|] eqn:Hpb.
  2,3,4: cbn [fst snd]; rewrite <- (app_nil_r (events (logged w fevs)));
         apply (Hstop _ [] []); [discriminate|reflexivity|now left].
  rewrite bind_outcome.
  destruct (probeReport_cases env item chk (snd r) (logged w fevs))
    as (revs & Hr & Hra).
  cbv zeta in Hr, Hra.
  assert (Hopens : exists opens, audit revs = opens /\
            (opens = [] \/
             exists resp,
               arrived env item w resp /\ StatusCode resp <= 308 /\
               opens = [EvConfirm (openPromptOf item resp)])).
  { destruct Hra as [[Ha _]|(resp & Hchk & Herr & Hle & Ha & _)].
    - exists []. auto.
    - eexists. split; [exact Ha|]. right. exists resp.
      split; [|split; [exact Hle|reflexivity]].
      apply Harr. specialize (Hbody Herr). injection Hbody as Hb.
      destruct r as [c e]. cbn [fst snd] in *. now subst. }
  clear Hra. destruct Hopens as (opens & Hra & Hopens).
  set (w2 := snd (probeReport env item chk (snd r) (logged w fevs))) in *.
  destruct (fst (probeReport env item chk (snd r) (logged w fevs)))
    as [[]|msg|code|].
  2,3,4: cbn [fst snd]; rewrite Hr;
         apply (Hstop _ revs opens); [discriminate|exact Hra|exact Hopens].
  rewrite bind_outcome.
  destruct (confirm_written env "Delete?" w2) as (cevs & Hc & Hcw & Hco).
  destruct (written_quiet cevs Hcw) as [Hca _].
  assert (Hasked : forall (out : Outcome unit) tail asks,
            audit tail = asks ->
            (asks = [] \/ asks = [EvModify [deleteOf item]]) ->
            exists evs',
              (events (snd (confirm env "Delete?" w2)) ++ tail)%list =
                (events w ++ evs')%list /\
              probeTalk env item w out (audit evs')).
  { intros out tail asks Ht Hasks.
    exists (fevs ++ revs ++ EvConfirm "Delete?" :: cevs ++ tail)%list.
    split.
    { rewrite Hc, Hr. cbn [events logged].
      repeat (first [rewrite <- app_assoc | progress cbn [app]]).
      reflexivity. }
    exists fetch, opens, (EvConfirm "Delete?" :: asks). split.
    { rewrite !audit_app, Hfa, Hra.
      change (audit (EvConfirm "Delete?" :: cevs ++ tail))
        with (EvConfirm "Delete?" :: audit (cevs ++ tail)).
      now rewrite audit_app, Hca, Ht. }
    split; [exact Hfetch|]. split; [exact Hopens|].
    split; [|discriminate].
    destruct Hasks as [->| ->]; auto. }
  destruct Hco as [Hco|[Hco|Hco]]; rewrite Hco.
  - unfold deleteItem. cbv zeta.
    destruct (Modify_report_events env client
                [NewDeleteAction (Item_ItemID item)]
                (snd (confirm env "Delete?" w2)))
      as (mevs & Hm & Hma & _ & _).
    cbv zeta in Hm. rewrite Hm.
    apply (Hasked _ (EvModify [NewDeleteAction (Item_ItemID item)] :: mevs)
             [EvModify [deleteOf item]]); [|auto].
    change (audit (EvModify ?a :: mevs)) with (EvModify a :: audit mevs).
    now rewrite Hma.
  - cbn [ret fst snd].
    rewrite <- (app_nil_r (events (snd (confirm env "Delete?" w2)))).
    apply (Hasked _ [] []); auto.
  - cbn [fst snd].
    rewrite <- (app_nil_r (events (snd (confirm env "Delete?" w2)))).
    apply (Hasked _ [] []); auto.
Qed.

(** X9: for one item of the cull pipeline, [HEAD] is requested first and
    [GET] only when [HEAD] failed.  Then at most one question about opening
    is asked, and only for a response that arrived without error, from
    [HEAD] or else from [GET], with a status of at most 308: its text is
    [Open?], or [Open] with the final URL when that differs from the URL of
    the item.  Then at most one [Delete?] is asked; the only call of
    [Modify] comes directly after it and carries the one action named
    [delete] on the id of this item.  A probe that returns has asked
    [Delete?]. *)
Theorem probeAndAsk_interaction (env : Env) (client : Client) (item : Item)
    (w : World) :
  let url := Item_URL item in
  let run := probeAndAsk env client item w in
  exists evs fetch opens asks,
    events (snd run) = (events w ++ evs)%list /\
    audit evs = (fetch ++ opens ++ asks)%list /\
    match http_Head env (events w) url with
    | HTTPOk _ => fetch = [EvHead url]
    | HTTPErr _ _ => fetch = [EvHead url; EvGet url]
    end /\
    (opens = [] \/
     exists resp,
       arrived env item w resp /\ StatusCode resp <= 308 /\
       opens = [EvConfirm (if negb (String.eqb (RequestURL resp) url)
                           then "Open " ++ RequestURL resp ++ "?"
                           else "Open?")]) /\
    (asks = [] \/ asks = [EvConfirm "Delete?"] \/
     asks = [EvConfirm "Delete?";
             EvModify [Some {| Action_Action := "delete";
                               Action_ItemID := Item_ItemID item |}]]) /\
    (fst run = Returns tt -> asks <> []).
Proof.
  cbv zeta.
  destruct (probeAndAsk_shape env client item w)
    as (evs & He & fetch & opens & asks & Ha & H).
  exists evs, fetch, opens, asks. split; [exact He|]. split; [exact Ha|].
  exact H.
Qed.

(** X10: the probe starts a program only as [firefox --new-tab] on the
    final URL of a response that arrived without error and with a status of
    at most 308, and only after [confirm] was asked whether to open it and
    returned [true]; when the program fails the process exits with code
    1. *)
Theorem probeReport_browser (env : Env) (item : Item) (chk : ptr Response)
    (err : option error) (w : World) :
  let run := probeReport env item chk err w in
  exists evs,
    events (snd run) = (events w ++ evs)%list /\
    forall name args,
      In (EvExec name args) evs ->
      exists resp,
        chk = Some resp /\ err = None /\ StatusCode resp <= 308 /\
        name = "firefox" /\ args = ["--new-tab"; RequestURL resp] /\
        fst (confirm env (openPromptOf item resp)
               (logged w [EvStdout (" " ++ Status resp ++ newline)])) =
          Returns true /\
        (exec_Output env
           (events (snd (confirm env (openPromptOf item resp)
              (logged w [EvStdout (" " ++ Status resp ++ newline)]))))
           name args <> None -> fst run = Exits 1).
Proof.
  cbv zeta.
  destruct (probeReport_cases env item chk err w) as (evs & He & Hc).
  exists evs. split; [exact He|]. intros name args Hin.
  destruct Hc as [[_ Hno]|(resp & -> & -> & Hle & _ & Hex)].
  - now apply Hno in Hin.
  - exists resp. destruct (Hex name args Hin) as (-> & -> & Hyes & Hexit).
    auto 10.
Qed.

Lemma probeAndAsk_audit (env : Env) (client : Client) (item : Item)
    (w : World) :
  exists evs,
    events (snd (probeAndAsk env client item w)) = (events w ++ evs)%list /\
    itemChunk true (returned (fst (probeAndAsk env client item w))) item
      (audit evs).
Proof.
  destruct (probeAndAsk_shape env client item w)
    as (evs & He & fetch & opens & asks & Ha & Hf & Ho & Hk & Hr).
  exists evs. split; [exact He|]. exists fetch, opens, asks.
  split; [exact Ha|]. split.
  { destruct (http_Head env (events w) (Item_URL item)); auto. }
  split.
  { destruct Ho as [->|(resp & _ & Hle & ->)]; [now left|].
    right. now exists resp. }
  split; [exact Hk|].
  destruct (fst (probeAndAsk env client item w)) as [[]| | |];
    cbn [returned]; try discriminate.
  intros _. now apply Hr.
Qed.

Lemma cullLoop_audit (env : Env) (conf : Config) (client : Client)
    (tpl : Template Item) (n : nat) (items : list Item) :
  forall (earlier : list string) (seen : gset string) (i : nat) (w : World),
    (forall u, u ∈ seen <-> In u earlier) ->
    exists evs,
      events (snd (cullLoop env conf client tpl n i items seen w)) =
        (events w ++ evs)%list /\
      cullAudit (Cull conf)
        (returned (fst (cullLoop env conf client tpl n i items seen w)))
        earlier items (audit evs).
Proof.
  induction items as [|item rest IH]; intros earlier seen i w Hseen.
  - exists []. cbn. rewrite app_nil_r. split; [reflexivity|constructor].
  - cbn [cullLoop]. rewrite !emit_then.
    set (said := [EvStdout (itoa (Z.of_nat i + 1) ++ "/" ++
                            itoa (Z.of_nat n) ++ " ");
                  EvStdout (fst (tpl item))]).
    rewrite logged_logged. cbn [app]. fold said.
    destruct (snd (tpl item)) as [err|].
    { exists said. split; [reflexivity|]. cbn. constructor. }
    set (url := CleanURL (Item_URL item)).
    assert (Hnext : forall u, u ∈ ({[ url ]} ∪ seen : gset string)
                              <-> In u (url :: earlier)).
    { intros u. rewrite elem_of_union, elem_of_singleton, Hseen. cbn.
      split; intros [H|H]; auto. }
    destruct (decide (url ∈ seen)) as [Hin|Hout].
    + assert (Hsame : forall u, u ∈ seen <-> In u (url :: earlier)).
      { intros u. rewrite Hseen. cbn. split; [auto|].
        intros [<-|H]; [now apply Hseen|exact H]. }
      apply Hseen in Hin.
      rewrite emit_then, logged_logged. cbn [app].
      match goal with
      | |- context [logged w ?l] => set (w0 := logged w l); set (said' := l)
      end.
      unfold deleteItem. cbv zeta.
      destruct (Modify_report_events env client
                  [NewDeleteAction (Item_ItemID item)] w0)
        as (mevs & Hm & Hma & _ & Hmo).
      cbv zeta in Hm, Hmo. rewrite bind_outcome.
      set (w1 := snd ((r <- Modify env client
                              [NewDeleteAction (Item_ItemID item)] ;;
                       reportModify env r) w0)) in *.
      assert (Haud : forall tail,
                audit (said' ++ EvModify [NewDeleteAction (Item_ItemID item)]
                       :: mevs ++ tail)%list =
                EvModify [deleteOf item] :: audit tail).
      { intros tail. rewrite audit_app.
        change (audit said') with (@nil Event). cbn [app].
        change (audit (EvModify ?a :: ?l)) with (EvModify a :: audit l).
        now rewrite audit_app, Hma. }
      destruct Hmo as [->|[msg ->]].
      * rewrite emit_then.
        destruct (IH (url :: earlier) seen (S i)
                    (logged w1 [EvStdout newline]) Hsame)
          as (evs & He & Ht).
        exists (said' ++ EvModify [NewDeleteAction (Item_ItemID item)] ::
                mevs ++ EvStdout newline :: evs)%list.
        split.
        { rewrite He. cbn [events logged]. rewrite Hm. unfold w0, said'.
          cbn [events logged].
          repeat (first [rewrite <- app_assoc | progress cbn [app]]).
          reflexivity. }
        rewrite Haud. change (audit (EvStdout newline :: evs)) with (audit evs).
        now apply audit_repeat.
      * exists (said' ++ EvModify [NewDeleteAction (Item_ItemID item)] ::
                mevs ++ [])%list.
        split.
        { cbn [snd]. rewrite Hm. unfold w0, said'. cbn [events logged].
          repeat (first [rewrite <- app_assoc | progress cbn [app]]).
          now rewrite app_nil_r. }
        rewrite Haud. cbn [fst returned].
        now apply audit_repeat_broke.
    + assert (Hnew : ~ In url earlier) by (intros H; now apply Hseen in H).
      rewrite bind_outcome.
      match goal with
      | |- context [logged w ?l] => set (w0 := logged w l)
      end.
      assert (Hprobe : exists pevs,
                events (snd ((if Cull conf
                              then probeAndAsk env client item
                              else ret tt) w0)) = (events w0 ++ pevs)%list /\
                itemChunk (Cull conf)
                  (returned (fst ((if Cull conf
                                   then probeAndAsk env client item
                                   else ret tt) w0)))
                  item (audit pevs)).
      { destruct (Cull conf).
        - apply probeAndAsk_audit.
        - exists []. cbn. now rewrite app_nil_r. }
      destruct Hprobe as (pevs & Hp & Hchunk).
      set (w1 := snd ((if Cull conf then probeAndAsk env client item
                       else ret tt) w0)) in *.
      destruct (fst ((if Cull conf then probeAndAsk env client item
                      else ret tt) w0)) as [[]|msg|code|].
      2,3,4: exists (said ++ pevs)%list; cbn [fst snd returned] in *;
             (split; [rewrite Hp; unfold w0; cbn [events logged];
                      now rewrite <- app_assoc|]);
             rewrite audit_app; change (audit said) with (@nil Event);
             cbn [app]; now apply audit_broke.
      rewrite emit_then.
      destruct (IH (url :: earlier) ({[ url ]} ∪ seen) (S i)
                  (logged w1 [EvStdout newline]) Hnext)
        as (evs & He & Ht).
      exists (said ++ pevs ++ EvStdout newline :: evs)%list. split.
      { rewrite He. cbn [events logged]. rewrite Hp. unfold w0.
        cbn [events logged].
        repeat (first [rewrite <- app_assoc | progress cbn [app]]).
        reflexivity. }
      rewrite audit_app. change (audit said) with (@nil Event). cbn [app].
      rewrite audit_app.
      change (audit (EvStdout newline :: evs)) with (audit evs).
      cbn [returned] in Hchunk. now apply audit_first.
Qed.

(** X11: in a run of [commandList] without [--delete], with or without
    [--cull], the questions, probes and deletions follow the items in the
    order of [SortId].  An item whose canonical URL was met before is
    deleted by one call of [Modify] with the one action named [delete] on
    its id, with no question.  Any other item leaves nothing without
    [--cull]; with it, its fetch, at most one question about opening, and
    [Delete?], after which alone it can be deleted.  A run that returns has
    gone through all items in this way, so it has deleted every repeated
    item and asked [Delete?] for every other one under [--cull]; a run that
    does not return ended at one item.  The items have distinct [SortId]s,
    so that [sort.Sort] can leave them in one order only. *)
Theorem commandList_audit (env : Env) (conf : Config) (client : Client)
    (w : World) (res : RetrieveResult) (tpl : Template Item) :
  NoDup (map SortId (List res)) ->
  DeleteAll conf = false ->
  client_Retrieve env (events w) (optionsOf conf) = inl res ->
  itemTemplateOf env conf = Some tpl ->
  let run := commandList env conf client w in
  exists evs,
    events (snd run) = (events w ++ EvRetrieve (optionsOf conf) :: evs)%list /\
    cullAudit (Cull conf) (returned (fst run)) []
      (sortBySortID (List res)) (audit evs).
Proof.
  intros _ Hall Hret Htpl. cbv zeta.
  rewrite (commandList_listing env conf client w res tpl Hall Hret Htpl).
  destruct (cullLoop_audit env conf client tpl
              (length (sortBySortID (List res))) (sortBySortID (List res))
              [] ∅ O (logged w [EvRetrieve (optionsOf conf)]))
    as (evs & He & Ht).
  { intros u. split; [set_solver|intros []]. }
  exists evs. split; [|exact Ht].
  rewrite He. cbn [events logged]. now rewrite <- app_assoc.
Qed.

Lemma commandList_audit_witness :
  let env := retrieving [item1; item2] in
  let w := withStdin emptyWorld ["n"; "y"] in
  let run := commandList env cullConfig sampleClient w in
  NoDup (map SortId [item1; item2]) /\
  DeleteAll cullConfig = false /\
  client_Retrieve env (events w) (optionsOf cullConfig) =
    inl {| List := [item1; item2] |} /\
  itemTemplateOf env cullConfig = Some (defaultItemTemplate env) /\
  fst run = Returns tt /\
  audit (events (snd run)) =
    [EvHead "http://a.com/x"; EvConfirm "Open?"; EvConfirm "Delete?";
     EvModify [Some {| Action_Action := "delete"; Action_ItemID := 2 |}];
     EvModify [Some {| Action_Action := "delete"; Action_ItemID := 1 |}]] /\
  exists evs,
    events (snd run) =
      (events w ++ EvRetrieve (optionsOf cullConfig) :: evs)%list /\
    cullAudit true true [] (sortBySortID [item1; item2]) (audit evs).
Proof.
  cbv zeta.
  assert (Hids : NoDup (map SortId [item1; item2])).
  { cbn. apply NoDup_cons_2; [|apply NoDup_singleton].
    rewrite list_elem_of_singleton. discriminate. }
  split; [exact Hids|]. split; [reflexivity|]. split; [reflexivity|].
  split; [reflexivity|]. split; [vm_compute; reflexivity|].
  split; [vm_compute; reflexivity|].
  exact (commandList_audit (retrieving [item1; item2]) cullConfig sampleClient
           (withStdin emptyWorld ["n"; "y"]) {| List := [item1; item2] |}
           (defaultItemTemplate (retrieving [item1; item2]))
           Hids eq_refl eq_refl eq_refl).
Defined.

(** ** The runs of [obtainAccessToken] and [restoreAccessToken] *)

Lemma closeServer_cases (paths : list string) :
  forall w,
    (allFavicon paths /\
     closeServer paths w =
       (Returns tt,
        withRequests (logged w (notFound paths ++ [EvClose])) [])) \/
    (fst (closeServer paths w) = Blocks /\
     exists favs path rest,
       paths = (favs ++ path :: rest)%list /\ allFavicon favs /\
       path <> favicon).
Proof.
  induction paths as [|path rest IH]; intros w; cbn [closeServer].
  - left. split; [constructor|reflexivity].
  - destruct (String.eqb_spec path favicon) as [->|Hne].
    + destruct (IH (logged w [EvServe favicon 404]))
        as [[Hall ->]|(Hb & favs & p & rest' & -> & Hfavs & Hp)].
      * left. split; [now constructor|].
        rewrite logged_logged. reflexivity.
      * right. split; [exact Hb|].
        exists (favicon :: favs), p, rest'.
        split; [reflexivity|]. split; [now constructor|exact Hp].
    + right. split; [reflexivity|].
      exists [], path, rest. split; [reflexivity|]. split; [constructor|exact Hne].
Qed.

Lemma awaitCallback_cases (paths : list string) :
  forall w,
    (allFavicon paths /\ fst (awaitCallback paths w) = Blocks /\
     events (snd (awaitCallback paths w)) = (events w ++ notFound paths)%list) \/
    (exists favs path rest,
       paths = (favs ++ path :: rest)%list /\ allFavicon favs /\
       path <> favicon /\
       awaitCallback paths w =
         (Returns tt,
          withRequests (logged w (notFound favs ++ [EvServe path 200])) rest)).
Proof.
  induction paths as [|path rest IH]; intros w; cbn [awaitCallback].
  - left. split; [constructor|]. split; [reflexivity|].
    cbn. now rewrite app_nil_r.
  - destruct (String.eqb_spec path favicon) as [->|Hne].
    + destruct (IH (logged w [EvServe favicon 404]))
        as [(Hall & Hb & He)|(favs & p & rest' & -> & Hfavs & Hp & ->)].
      * left. split; [now constructor|]. split; [exact Hb|].
        rewrite He. cbn. now rewrite <- app_assoc.
      * right. exists (favicon :: favs), p, rest'.
        split; [reflexivity|]. split; [now constructor|]. split; [exact Hp|].
        rewrite logged_logged. reflexivity.
    + right. exists [], path, rest.
      split; [reflexivity|]. split; [constructor|]. split; [exact Hne|].
      reflexivity.
Qed.

Lemma not_allFavicon (favs : list string) (path : string) (rest : list string) :
  path <> favicon -> ~ allFavicon (favs ++ path :: rest).
Proof.
  intros Hp Hall. apply List.Forall_app in Hall as [_ Hall].
  apply Forall_inv in Hall. contradiction.
Qed.

Lemma obtainAccessToken_cases (env : Env) (consumerKey : string) (w : World) :
  let url := httptest_URL env (events w) in
  let run := obtainAccessToken env consumerKey w in
  match auth_ObtainRequestToken env (events w ++ [EvListen url])
          consumerKey url with
  | inr err =>
      (allFavicon (requests w) /\
       run = (Returns (None, Some err),
              withRequests
                (logged w ([EvListen url; EvRequestToken consumerKey url] ++
                           notFound (requests w) ++ [EvClose])) [])) \/
      (fst run = Blocks /\ ~ allFavicon (requests w))
  | inl tok =>
      (allFavicon (requests w) /\ fst run = Blocks /\
       events (snd run) =
         (events w ++
          [EvListen url; EvRequestToken consumerKey url;
           EvStdout (auth_GenerateAuthorizationURL env tok url ++ newline)] ++
          notFound (requests w))%list) \/
      exists favs path rest,
        requests w = (favs ++ path :: rest)%list /\
        allFavicon favs /\ path <> favicon /\
        ((allFavicon rest /\
          run = (Returns
                   (exchanged
                      (auth_ObtainAccessToken env
                         (events w ++
                          [EvListen url; EvRequestToken consumerKey url;
                           EvStdout (auth_GenerateAuthorizationURL env tok url
                                     ++ newline)] ++
                          notFound favs ++ [EvServe path 200])
                         consumerKey tok)),
                 withRequests
                   (logged w (handshake env consumerKey url tok favs path rest))
                   [])) \/
         (~ allFavicon rest /\ fst run = Blocks /\
          In (EvExchange consumerKey tok) (events (snd run))))
  end.
Proof.
  cbv zeta. unfold obtainAccessToken, call, emit, bind, ret. cbv beta iota.
  cbn [events logged requests].
  set (url := httptest_URL env (events w)).
  destruct (auth_ObtainRequestToken env (events w ++ [EvListen url])
              consumerKey url) as [tok|err].
  - cbv beta iota. cbn [events logged requests]. rewrite !logged_logged.
    cbn [app].
    match goal with
    | |- context [awaitCallback ?ps ?w0] =>
        destruct (awaitCallback_cases ps w0)
          as [(Hall & Hb & He)|(favs & path & rest & Hreq & Hfavs & Hp & Hrun)]
    end.
    + left. split; [exact Hall|].
      destruct (awaitCallback _ _) as [out w1]. cbn [fst snd] in *.
      subst out. split; [reflexivity|]. cbn [snd]. rewrite He.
      cbn [events logged]. now rewrite <- app_assoc.
    + right. exists favs, path, rest. split; [exact Hreq|].
      split; [exact Hfavs|]. split; [exact Hp|].
      rewrite Hrun. cbv beta iota. cbn [events logged requests withRequests].
      match goal with
      | |- context [closeServer ?ps ?w0] =>
          destruct (closeServer_cases ps w0) as [[Hall Hclose]|[Hb _]];
          [|destruct (closeServer_events ps w0) as (cevs & Hce & _)]
      end.
      * left. split; [exact Hall|]. rewrite Hclose.
        cbn [events logged requests withRequests].
        match goal with
        | |- context [auth_ObtainAccessToken env ?h _ _] =>
            replace h with
              (events w ++
               [EvListen url; EvRequestToken consumerKey url;
                EvStdout (auth_GenerateAuthorizationURL env tok url ++ newline)] ++
               notFound favs ++ [EvServe path 200])%list
              by now rewrite <- !app_assoc
        end.
        destruct (auth_ObtainAccessToken env _ consumerKey tok);
          cbn [exchanged]; f_equal; unfold withRequests, logged, handshake;
          cbn [events stdin requests]; f_equal;
          repeat (first [rewrite <- app_assoc | progress cbn [app]]);
          reflexivity.
      * right.
        assert (Hnot : ~ allFavicon rest).
        { intros Hall. clear Hce.
          match goal with
          | H : fst (closeServer rest ?w0) = Blocks |- _ =>
              destruct (closeServer_cases rest w0)
                as [[_ Hc]|(_ & f & p & r & -> & _ & Hne)];
              [rewrite Hc in H; discriminate|]
          end.
          now apply not_allFavicon in Hall. }
        split; [exact Hnot|].
        destruct (closeServer _ _) as [out w1]. cbn [fst snd] in *.
        subst out. split; [reflexivity|]. cbn [snd]. rewrite Hce.
        cbn [events logged]. apply in_or_app. left.
        apply in_or_app. right. now left.
  - cbv beta iota. cbn [events logged requests]. rewrite !logged_logged.
    cbn [app].
    match goal with
    | |- context [closeServer ?ps ?w0] =>
        destruct (closeServer_cases ps w0)
          as [[Hall Hclose]|(Hb & f & p & r & Hreq & _ & Hne)]
    end.
    + left. split; [exact Hall|]. rewrite Hclose.
      rewrite logged_logged. reflexivity.
    + right. split.
      * now destruct (closeServer _ _) as [[] w1].
      * rewrite Hreq. now apply not_allFavicon.
Qed.

Lemma callbacks_app (a b : list string) :
  callbacks (a ++ b) = (callbacks a + callbacks b)%nat.
Proof. unfold callbacks. now rewrite List.filter_app, length_app. Qed.

Lemma callbacks_none (paths : list string) :
  allFavicon paths <-> callbacks paths = O.
Proof.
  unfold callbacks, allFavicon. induction paths as [|p rest IH].
  - split; [reflexivity|constructor].
  - cbn [List.filter]. destruct (String.eqb_spec p favicon) as [->|Hne];
      cbn [negb].
    + rewrite <- IH. split.
      * intros H. now apply Forall_inv_tail in H.
      * intros H. now constructor.
    + split; [|discriminate]. intros H. apply Forall_inv in H. contradiction.
Qed.

(** X12: when [obtainAccessToken] returns, the listener was closed last
    and no request is left; the result is a credential with a nil error or
    a nil credential with an error.  If the request token was refused,
    nothing was printed or exchanged and only favicon requests arrived; if
    it was obtained, exactly one request other than the favicon one
    arrived, and the token was exchanged once, after that request was
    answered. *)
Theorem obtainAccessToken_returns (env : Env) (consumerKey : string)
    (w w' : World) (r : ptr Authorization * option error) :
  obtainAccessToken env consumerKey w = (Returns r, w') ->
  let url := httptest_URL env (events w) in
  requests w' = [] /\
  ((exists a, r = (Some a, None)) \/ (exists err, r = (None, Some err))) /\
  match auth_ObtainRequestToken env (events w ++ [EvListen url])
          consumerKey url with
  | inr err =>
      r = (None, Some err) /\ allFavicon (requests w) /\
      events w' =
        (events w ++ [EvListen url; EvRequestToken consumerKey url] ++
         notFound (requests w) ++ [EvClose])%list
  | inl tok =>
      exists favs path rest,
        requests w = (favs ++ path :: rest)%list /\
        allFavicon favs /\ path <> favicon /\ allFavicon rest /\
        events w' =
          (events w ++ handshake env consumerKey url tok favs path rest)%list
  end.
Proof.
  intros Hrun. cbv zeta.
  pose proof (obtainAccessToken_cases env consumerKey w) as Hc.
  cbv zeta in Hc. rewrite Hrun in Hc. cbn [fst snd] in Hc.
  destruct (auth_ObtainRequestToken env _ consumerKey _) as [tok|err].
  - destruct Hc as [(_ & Hb & _)|(favs & path & rest & Hreq & Hfavs & Hp & Hc)];
      [discriminate|].
    destruct Hc as [[Hrest Hc]|(_ & Hb & _)]; [|discriminate].
    injection Hc as -> ->. split; [reflexivity|]. split.
    + destruct (auth_ObtainAccessToken env _ consumerKey tok); cbn; eauto.
    + exists favs, path, rest. auto 6.
  - destruct Hc as [[Hall Hc]|[Hb _]]; [|discriminate].
    injection Hc as -> ->. split; [reflexivity|]. split; [eauto|]. auto.
Qed.

Lemma obtainAccessToken_returns_witness :
  let env := readOnlyEnv in
  let run := obtainAccessToken env "consumer-key" firstRun in
  run = (Returns (Some {| Authorization_AccessToken := "access-token" |}, None),
         snd run) /\
  requests (snd run) = [] /\
  List.last (events (snd run)) (EvStdout EmptyString) = EvClose.
Proof.
  cbv zeta. split; [reflexivity|].
  split; [|vm_compute; reflexivity].
  exact (proj1 (obtainAccessToken_returns readOnlyEnv "consumer-key" firstRun
                  _ _ eq_refl)).
Defined.

(** X13: once the request token is obtained, [obtainAccessToken] returns
    exactly when one request other than the favicon one reaches the
    listener.  With none it waits on the channel for ever; with two or more
    the token is exchanged but the deferred [Close] never comes back. *)
Theorem obtainAccessToken_returns_iff_one_callback (env : Env)
    (consumerKey : string) (w : World) (tok : string) :
  let url := httptest_URL env (events w) in
  let run := obtainAccessToken env consumerKey w in
  auth_ObtainRequestToken env (events w ++ [EvListen url]) consumerKey url
    = inl tok ->
  if (callbacks (requests w) =? 1)%nat
  then exists r, fst run = Returns r
  else fst run = Blocks /\
       ((2 <= callbacks (requests w))%nat ->
        In (EvExchange consumerKey tok) (events (snd run))).
Proof.
  cbv zeta. intros Htok.
  pose proof (obtainAccessToken_cases env consumerKey w) as Hc.
  cbv zeta in Hc. rewrite Htok in Hc.
  destruct Hc as [(Hall & Hb & _)|(favs & path & rest & Hreq & Hfavs & Hp & Hc)].
  - apply callbacks_none in Hall. rewrite Hall. cbn. split; [exact Hb|lia].
  - assert (Hcount : callbacks (requests w) = S (callbacks rest)).
    { rewrite Hreq, callbacks_app. apply callbacks_none in Hfavs.
      rewrite Hfavs. unfold callbacks at 1. cbn [List.filter].
      apply String.eqb_neq in Hp. rewrite Hp. reflexivity. }
    rewrite Hcount.
    destruct Hc as [[Hrest ->]|(Hrest & Hb & Hin)].
    + apply callbacks_none in Hrest. rewrite Hrest. cbn. eauto.
    + destruct (callbacks rest) as [|k] eqn:Hk.
      * apply callbacks_none in Hk. contradiction.
      * cbn. auto.
Qed.

Lemma obtainAccessToken_returns_iff_one_callback_witness :
  let env := readOnlyEnv in
  let w := withRequests emptyWorld ["/"; "/favicon.ico"; "/again"] in
  callbacks (requests w) = 2%nat /\
  fst (obtainAccessToken env "consumer-key" w) = Blocks /\
  In (EvExchange "consumer-key" "request-token")
     (events (snd (obtainAccessToken env "consumer-key" w))).
Proof.
  cbv zeta. split; [reflexivity|].
  pose proof (obtainAccessToken_returns_iff_one_callback readOnlyEnv
                "consumer-key"
                (withRequests emptyWorld ["/"; "/favicon.ico"; "/again"])
                "request-token" eq_refl) as H.
  cbv zeta in H. change (callbacks _ =? 1)%nat with false in H.
  destruct H as [Hb Hin]. split; [exact Hb|]. apply Hin.
  vm_compute. lia.
Defined.





(** ** More invariants of the authorization flow *)

Lemma signals_snoc (h : list AuthEvent) (e : AuthEvent) :
  signals (h ++ [e]) = (signals h + if isSignal e then 1 else 0)%nat.
Proof.
  unfold signals. rewrite List.filter_app, length_app. cbn.
  now destruct (isSignal e).
Qed.

Lemma exchanges_snoc (h : list AuthEvent) (e : AuthEvent) :
  exchanges (h ++ [e]) = (exchanges h + if isAExchange e then 1 else 0)%nat.
Proof.
  unfold exchanges. rewrite List.filter_app, length_app. cbn.
  now destruct (isAExchange e).
Qed.

Lemma onceInvariant_step (st st' : AuthState) :
  onceInvariant st -> authStep st st' -> onceInvariant st'.
Proof.
  intros [Hs He Hb Hp] Hstep.
  destruct Hstep; cbn [mainPC history beforeReceive] in *;
    (split; cbn [mainPC history beforeReceive];
     rewrite ?signals_snoc, ?exchanges_snoc; cbn [isSignal isAExchange];
     try specialize (Hb eq_refl); try (destruct (Hp eq_refl) as [Hp1 Hp2]);
     try discriminate; try lia; auto).
  all: try (intros Hpc; specialize (Hb Hpc); lia).
  all: try (intros Hpc; destruct (Hp Hpc); lia).
Qed.

Lemma onceInvariant_reachable (st : AuthState) :
  authReachable st -> onceInvariant st.
Proof.
  intros H. unfold authReachable in H.
  apply (rtc_ind_r (R := authStep) onceInvariant authInit); [| |exact H].
  - split; cbn; auto; try lia. discriminate.
  - intros y z _ Hstep IH. exact (onceInvariant_step y z IH Hstep).
Qed.

Lemma authExchanged_reachable : authReachable authExchanged.
Proof.
  unfold authReachable, authExchanged, authInit.
  eapply rtc_l; [apply step_new_server|].
  eapply rtc_l; [apply step_request_token|].
  eapply rtc_l; [apply step_print|].
  eapply rtc_l; [apply (step_arrive _ _ _ favicon); reflexivity|].
  eapply rtc_l; [apply (step_not_found _ _ _ 0%nat); reflexivity|].
  eapply rtc_l; [apply (step_arrive _ _ _ "/"); reflexivity|].
  eapply rtc_l;
    [apply (step_authorized _ _ _ 1%nat "/"); [reflexivity|discriminate]|].
  eapply rtc_l; [apply (step_signal _ _ 1%nat "/"); reflexivity|].
  eapply rtc_l; [apply step_exchange|].
  apply rtc_refl.
Qed.

(** X15: in every state the concurrent authorization flow can reach,
    however many requests arrived, at most one send on the channel was
    received and the token was exchanged at most once, never without a
    received send before it. *)
Theorem auth_at_most_one_exchange (st : AuthState) :
  authReachable st ->
  (signals (history st) <= 1)%nat /\
  (exchanges (history st) <= signals (history st))%nat /\
  (mainPC st = PcExchange ->
   signals (history st) = 1%nat /\ exchanges (history st) = O).
Proof.
  intros H. destruct (onceInvariant_reachable st H) as [Hs He _ Hp]. auto.
Qed.

Lemma auth_at_most_one_exchange_witness :
  authReachable authExchanged /\
  (signals (history authExchanged) <= 1)%nat /\
  (exchanges (history authExchanged) <= signals (history authExchanged))%nat.
Proof.
  split; [exact authExchanged_reachable|].
  pose proof (auth_at_most_one_exchange authExchanged authExchanged_reachable)
    as (H1 & H2 & _).
  split; [exact H1|exact H2].
Defined.

Lemma stuck_step (st st' : AuthState) :
  stuck st -> authStep st st' -> stuck st'.
Proof.
  intros [Hpc (i & p & Hi)] Hstep.
  destruct Hstep; cbn [mainPC handlers] in *;
    try (destruct Hpc; discriminate).
  - (* a request arrives *)
    split; [exact Hpc|]. exists i, p. apply lookup_app_Some. now left.
  - (* a handler answers the favicon request *)
    split; [exact Hpc|]. exists i, p.
    apply list_lookup_insert_Some. right. split; [congruence|exact Hi].
  - (* a handler answers another request *)
    split; [exact Hpc|].
    destruct (decide (i0 = i)) as [->|Hne]; [congruence|].
    exists i, p. apply list_lookup_insert_Some. right. auto.
  - (* the token is exchanged *)
    split; [now right|]. eauto.
  - (* the listener cannot close *)
    exfalso. eapply Forall_lookup_1 in H; [|exact Hi]. discriminate.
Qed.

Lemma returned_step (st st' : AuthState) :
  (mainPC st = PcReturned -> Forall (fun hd => hd = HReturned) (handlers st)) ->
  authStep st st' ->
  mainPC st' = PcReturned -> Forall (fun hd => hd = HReturned) (handlers st').
Proof.
  intros Hall Hstep.
  destruct Hstep; cbn [mainPC handlers] in *; try discriminate.
  - intros ->. discriminate.
  - intros Hpc. specialize (Hall Hpc). exfalso.
    eapply Forall_lookup_1 in Hall; [|exact H]. discriminate.
  - intros Hpc. specialize (Hall Hpc). exfalso.
    eapply Forall_lookup_1 in Hall; [|exact H]. discriminate.
  - intros _. exact H.
Qed.

(** X16: the concurrent authorization flow has returned only in states
    where every handler has returned; and from a state in which a handler
    waits in its send while the body is past its receive, no state in which
    the body has returned can be reached. *)
Theorem auth_returns_only_without_waiting_handler (st st' : AuthState) :
  authReachable st ->
  rtc authStep st st' ->
  (mainPC st' = PcReturned ->
   Forall (fun hd => hd = HReturned) (handlers st')) /\
  (stuck st -> mainPC st' <> PcReturned).
Proof.
  intros Hreach Hsteps. split.
  - assert (Hreach' : authReachable st')
      by (unfold authReachable in *; etrans; eassumption).
    unfold authReachable in Hreach'.
    apply (rtc_ind_r (R := authStep)
             (fun s => mainPC s = PcReturned ->
                       Forall (fun hd => hd = HReturned) (handlers s))
             authInit); [| |exact Hreach'].
    + discriminate.
    + intros y z _ Hstep IH. exact (returned_step y z IH Hstep).
  - intros Hstuck.
    assert (Hs : stuck st').
    { induction Hsteps as [|x y z Hstep _ IH]; [exact Hstuck|].
      apply IH.
      - unfold authReachable in *. eapply rtc_r; eassumption.
      - exact (stuck_step x y Hstuck Hstep). }
    destruct Hs as [[Hpc|Hpc] _]; congruence.
Qed.

Lemma authSecondCallback_reachable : authReachable authSecondCallback.
Proof.
  unfold authReachable, authSecondCallback, authInit.
  eapply rtc_l; [apply step_new_server|].
  eapply rtc_l; [apply step_request_token|].
  eapply rtc_l; [apply step_print|].
  eapply rtc_l; [apply (step_arrive _ _ _ "/"); reflexivity|].
  eapply rtc_l; [apply (step_arrive _ _ _ "/"); reflexivity|].
  eapply rtc_l;
    [apply (step_authorized _ _ _ 0%nat "/"); [reflexivity|discriminate]|].
  eapply rtc_l;
    [apply (step_authorized _ _ _ 1%nat "/"); [reflexivity|discriminate]|].
  eapply rtc_l; [apply (step_signal _ _ 0%nat "/"); reflexivity|].
  apply rtc_refl.
Qed.

Lemma auth_returns_only_without_waiting_handler_witness :
  authReachable authSecondCallback /\
  stuck authSecondCallback /\
  forall st',
    rtc authStep authSecondCallback st' -> mainPC st' <> PcReturned.
Proof.
  assert (Hstuck : stuck authSecondCallback).
  { split; [now left|]. now exists 1%nat, "/". }
  split; [exact authSecondCallback_reachable|]. split; [exact Hstuck|].
  intros st' Hsteps.
  exact (proj2 (auth_returns_only_without_waiting_handler authSecondCallback
                  st' authSecondCallback_reachable Hsteps) Hstuck).
Defined.

(** ** [commandArchive] and [commandDelete] *)



(** X18: [commandArchive] panics on the item id 0 before anything is
    sent.  Otherwise it calls [Modify] once, with the one action whose name
    is [archive] and whose item is the given id; at most one request is
    sent, whose body is the marshalled action and credentials; and one line
    is printed: the result and [<nil>], or [<nil>] and the error. *)
Theorem commandArchive_reports (env : Env) (plainV : ModifyResult -> string)
    (conf : Config) (client : Client) (w : World) :
  let id := Config_ItemID conf in
  let action : ptr Action :=
    Some {| Action_Action := "archive"; Action_ItemID := id |} in
  let run := commandArchive env plainV conf client w in
  if id =? 0
  then run = (Panics "Wrong arguments, need <item-id>", w)
  else
    exists evs,
      events (snd run) = (events w ++ EvModify [action] :: evs)%list /\
      posts evs = sendPosts env client [action] /\
      audit evs = [] /\
      match Modify env client [action] w with
      | (Returns (Some res, None), w1) =>
          run = (Returns tt,
                 logged w1 [EvStdout ("&" ++ plainV res ++ " <nil>" ++ newline)])
      | (Returns (None, Some e), w1) =>
          run = (Returns tt, logged w1 [EvStdout ("<nil> " ++ e ++ newline)])
      | (Returns _, _) => False
      | (Panics msg, w1) => run = (Panics msg, w1)
      | (Exits c, w1) => run = (Exits c, w1)
      | (Blocks, w1) => run = (Blocks, w1)
      end.
Proof.
  cbv zeta. unfold commandArchive.
  destruct (Config_ItemID conf =? 0); cbn [negb]; [reflexivity|].
  cbv zeta. unfold bind.
  change (NewArchiveAction (Config_ItemID conf))
    with (Some {| Action_Action := "archive";
                  Action_ItemID := Config_ItemID conf |}).
  set (action := Some {| Action_Action := "archive";
                         Action_ItemID := Config_ItemID conf |} : ptr Action).
  destruct (Modify_events env client [action] w)
    as (evs & He & Ha & Hp & _).
  rewrite modifyPosts_sendPosts in Hp.
  destruct (Modify env client [action] w)
    as [[[r err]|msg|c|] w1] eqn:Hm; cbn [fst snd] in *.
  2,3,4: exists evs; auto.
  apply Modify_returned in Hm.
  destruct r as [res|], err as [e|]; try contradiction; cbn [fst snd].
  - exists (evs ++ [EvStdout ("&" ++ plainV res ++ " <nil>" ++ newline)])%list.
    unfold emit, printlnModify. cbn [fst snd events logged].
    rewrite He, posts_app, audit_app, Hp, Ha, !append_assoc. cbn [app].
    rewrite <- app_assoc, app_nil_r. cbn [app].
    split; [reflexivity|]. split; [reflexivity|]. split; reflexivity.
  - exists (evs ++ [EvStdout ("<nil> " ++ e ++ newline)])%list.
    unfold emit, printlnModify. cbn [fst snd events logged].
    rewrite He, posts_app, audit_app, Hp, Ha. cbn [app].
    rewrite <- app_assoc, app_nil_r. cbn [app].
    split; [reflexivity|]. split; [reflexivity|]. split; reflexivity.
Qed.

(** ** [getConsumerKey] *)

Lemma oneLine_cons (c : ascii) (s : string) :
  oneLine (String c s) = negb (Ascii.eqb c "010") && oneLine s.
Proof.
  unfold oneLine, newline. rewrite Contains_unfold, HasPrefix_cons.
  rewrite HasPrefix_empty, andb_true_r. now rewrite negb_orb.
Qed.

Lemma firstLine_oneLine (s : string) : oneLine (firstLine s) = true.
Proof.
  induction s as [|c s IH]; [reflexivity|]. cbn [firstLine].
  destruct (Ascii.eqb c "010") eqn:E; [reflexivity|].
  now rewrite oneLine_cons, E, IH.
Qed.

Lemma firstLine_id (s : string) : oneLine s = true -> firstLine s = s.
Proof.
  induction s as [|c s IH]; [reflexivity|]. rewrite oneLine_cons.
  intros H. apply andb_prop in H as [Hc Hs]. cbn [firstLine].
  apply negb_true_iff in Hc. rewrite Hc. now rewrite IH.
Qed.

Lemma takeBytes_oneLine (n : nat) (s : string) :
  oneLine s = true -> oneLine (takeBytes n s) = true.
Proof.
  revert s. induction n as [|n IH]; intros [|c s]; try reflexivity.
  rewrite oneLine_cons. intros H. apply andb_prop in H as [Hc Hs].
  cbn [takeBytes]. now rewrite oneLine_cons, Hc, IH.
Qed.

Lemma dropCR_oneLine (s : string) :
  oneLine s = true -> oneLine (dropCR s) = true.
Proof.
  induction s as [|c s IH]; [reflexivity|]. rewrite oneLine_cons.
  intros H. apply andb_prop in H as [Hc Hs]. cbn [dropCR].
  destruct s as [|d s].
  - destruct (Ascii.eqb c "013"); [reflexivity|].
    now rewrite oneLine_cons, Hc.
  - rewrite oneLine_cons, Hc. now apply IH.
Qed.

Lemma takeBytes_short (n : nat) (s : string) :
  (String.length s <= n)%nat -> takeBytes n s = s.
Proof.
  revert s. induction n as [|n IH]; intros [|c s] H; try reflexivity.
  - cbn in H. lia.
  - cbn [takeBytes]. rewrite IH; [reflexivity|]. cbn in H. lia.
Qed.

Lemma ReadLine_line (w : World) (line : string) (rest : list string) :
  stdin w = line :: rest ->
  exists left, ReadLine w = (Returns (inl (asRead line)), withStdin w left).
Proof.
  intros H. unfold ReadLine, asRead. rewrite H.
  destruct (Nat.ltb_spec (String.length line) bufferSize).
  - rewrite takeBytes_short by lia. eauto.
  - eauto.
Qed.

(** X19: when the consumer key file can be read, [getConsumerKey] returns
    the bytes before its first newline, asks nothing and writes nothing;
    the key holds no newline, and it is the whole file when the file holds
    none. *)
Theorem getConsumerKey_from_file (env : Env) (files : Files) (w : World)
    (data : string) :
  ioutil_ReadFile files (events w) (consumerKeyPath env) = inl data ->
  getConsumerKey env files w =
    (Returns (firstLine data), logged w [EvOpen (consumerKeyPath env)]) /\
  oneLine (firstLine data) = true /\
  HasPrefix data (firstLine data) = true /\
  (oneLine data = true -> firstLine data = data).
Proof.
  intros Hread. split; [|split; [apply firstLine_oneLine|split]].
  - unfold getConsumerKey, call, bind. cbv zeta. now rewrite Hread.
  - clear. induction data as [|c s IH]; [reflexivity|]. cbn [firstLine].
    destruct (Ascii.eqb c "010"); [reflexivity|].
    rewrite HasPrefix_cons, IH. now rewrite Ascii.eqb_refl.
  - apply firstLine_id.
Qed.

Lemma getConsumerKey_from_file_witness :
  let env := retrieving [] in
  let files := holding (consumerKeyPath env) ("1234-abcd" ++ newline) in
  ioutil_ReadFile files (events emptyWorld) (consumerKeyPath env) =
    inl ("1234-abcd" ++ newline) /\
  getConsumerKey env files emptyWorld =
    (Returns "1234-abcd", logged emptyWorld [EvOpen (consumerKeyPath env)]).
Proof.
  cbv zeta. split; [reflexivity|].
  exact (proj1 (getConsumerKey_from_file (retrieving [])
                  (holding (consumerKeyPath (retrieving []))
                     ("1234-abcd" ++ newline))
                  emptyWorld ("1234-abcd" ++ newline) eq_refl)).
Defined.

(** X20: when the consumer key file cannot be read, [getConsumerKey]
    logs the error and the request, reads one line and writes the key it
    returns to the file; a later run that reads from the file what was
    written returns the same key. *)
Theorem getConsumerKey_first_run (env : Env) (files later : Files)
    (w w2 : World) (e : error) (line : string) (rest : list string) :
  let path := consumerKeyPath env in
  let key := asRead line in
  let asked :=
    [EvOpen path;
     EvLog ("Can't get consumer key: " ++ e ++ newline);
     EvLog "Enter your consumer key (from here https://getpocket.com/developer/apps/): "] in
  ioutil_ReadFile files (events w) path = inr e ->
  stdin w = line :: rest ->
  oneLine line = true ->
  ioutil_WriteFile files (events w ++ asked) path key = None ->
  ioutil_ReadFile later (events w2) path = inl key ->
  fst (getConsumerKey env files w) = Returns key /\
  events (snd (getConsumerKey env files w)) =
    (events w ++ asked ++ [EvWrite path key])%list /\
  fst (getConsumerKey env later w2) = Returns key.
Proof.
  cbv zeta. intros Hread Hin Hline Hwrite Hlater.
  destruct (ReadLine_line (logged (logged (logged w [EvOpen (consumerKeyPath env)])
              [EvLog ("Can't get consumer key: " ++ e ++ newline)])
              [EvLog "Enter your consumer key (from here https://getpocket.com/developer/apps/): "])
              line rest Hin) as (left & Hrl).
  assert (Hrun : getConsumerKey env files w =
            (Returns (asRead line),
             logged (withStdin (logged w
               [EvOpen (consumerKeyPath env);
                EvLog ("Can't get consumer key: " ++ e ++ newline);
                EvLog "Enter your consumer key (from here https://getpocket.com/developer/apps/): "])
               left)
               [EvWrite (consumerKeyPath env) (asRead line)])).
  { unfold getConsumerKey, call. cbv zeta. unfold bind at 1. rewrite Hread.
    rewrite !emit_then. unfold bind at 1. rewrite Hrl.
    unfold bind. cbn [events logged withStdin]. rewrite <- !app_assoc.
    cbn [app]. rewrite Hwrite. unfold ret. rewrite !logged_logged.
    reflexivity. }
  rewrite Hrun. cbn [fst snd events logged withStdin].
  split; [reflexivity|]. split; [now rewrite <- app_assoc|].
  unfold getConsumerKey, call, bind. cbv zeta. rewrite Hlater.
  cbn [fst ret]. f_equal. apply firstLine_id.
  apply dropCR_oneLine, takeBytes_oneLine, Hline.
Qed.

Lemma getConsumerKey_first_run_witness :
  let env := retrieving [] in
  let path := consumerKeyPath env in
  let w := withStdin emptyWorld ["1234-abcd"] in
  (exists e, ioutil_ReadFile noFiles (events w) path = inr e) /\
  stdin w = ["1234-abcd"] /\
  oneLine "1234-abcd" = true /\
  ioutil_ReadFile (holding path "1234-abcd") (events emptyWorld) path =
    inl (asRead "1234-abcd") /\
  fst (getConsumerKey env noFiles w) = Returns "1234-abcd" /\
  In (EvWrite path "1234-abcd") (events (snd (getConsumerKey env noFiles w))) /\
  fst (getConsumerKey env (holding path "1234-abcd") emptyWorld) =
    Returns "1234-abcd".
Proof.
  cbv zeta.
  destruct (getConsumerKey_first_run (retrieving []) noFiles
              (holding (consumerKeyPath (retrieving [])) "1234-abcd")
              (withStdin emptyWorld ["1234-abcd"]) emptyWorld
              _ "1234-abcd" [] eq_refl eq_refl eq_refl eq_refl eq_refl)
    as (H1 & He & H2).
  split; [eexists; reflexivity|]. split; [reflexivity|].
  split; [reflexivity|]. split; [reflexivity|].
  split; [exact H1|]. split; [|exact H2].
  rewrite He. apply in_or_app. right. apply in_or_app. right. now left.
Defined.
